(** * convert_my_file: the conversion route, embedded and verified

    Shallow embedding of [src/app/api/converter/route.ts]: the structural
    transforms [flattenObject] / [unflattenObject], the PDF adapter
    [extractPdfText] and the request handler [POST] with its dispatch
    chain.

    Conventions of the embedding.
    - A JavaScript string is the [string] of the bytes of its UTF-8
      encoding, which is how the handler reads text from the upload and
      writes it to the answer.  (A string with an unpaired surrogate has
      no encoding and is outside the embedding.)  [length] counts UTF-16
      code units and [trim] removes the white space and the line
      terminators of ECMAScript.  [split], [startsWith], [endsWith],
      [includes] and [replace] are called with ASCII arguments only, for
      which working on the bytes is working on the code units.  Letter
      case is modelled for the letters below U+0100 (Basic Latin and the
      Latin-1 Supplement); the other cased letters are left as they are,
      which shows only in the extension and the kind that the "not
      supported" message repeats in upper case.
    - A JavaScript object is the list of its own enumerable properties in
      property order (array-index keys in ascending numeric order first,
      then the other keys in insertion order).
    - [Object.prototype] is process-wide mutable state.  The properties the
      program has written to it are threaded explicitly as a [proto] value.
    - The codec libraries (mammoth, pdf-parse, papaparse, sharp) and the
      runtime services the handler calls (JSON, UTF-8 decoding, the clock)
      are parameters, collected in the record [Runtime]. *)

From Stdlib Require Import List String Ascii ZArith NArith Bool Lia Arith.
From Stdlib Require Import Decimal DecimalString.
Import ListNotations.
Open Scope string_scope.
Open Scope list_scope.
Set Warnings "-register-all".

(** ** JavaScript strings *)

Module JsString.

Definition nl : string := String "010" EmptyString.
Definition dquote : string := String "034" EmptyString.

(** [String.prototype.split] with a one-character separator. *)
Fixpoint split (sep : ascii) (s : string) : list string :=
  match s with
  | EmptyString => [EmptyString]
  | String c rest =>
      if (c =? sep)%char then EmptyString :: split sep rest
      else match split sep rest with
           | h :: t => String c h :: t
           | [] => [String c EmptyString]
           end
  end.

(** [Array.prototype.join]. *)
Definition join (sep : string) (l : list string) : string :=
  String.concat sep l.

Fixpoint drop (n : nat) (s : string) : string :=
  match n, s with
  | O, _ => s
  | S n', String _ rest => drop n' rest
  | S _, EmptyString => EmptyString
  end.

Definition startsWith (s p : string) : bool := String.prefix p s.

Definition endsWith (s suffix : string) : bool :=
  let n := String.length s in
  let m := String.length suffix in
  (m <=? n)%nat && (drop (n - m) s =? suffix)%string.

Fixpoint includes (s sub : string) : bool :=
  String.prefix sub s
  || match s with
     | EmptyString => false
     | String _ rest => includes rest sub
     end.

(** First-occurrence replacement: [String.prototype.replace] with a
    string pattern. *)
Fixpoint replace (s pat repl : string) : string :=
  if String.prefix pat s then (repl ++ drop (String.length pat) s)%string
  else match s with
       | EmptyString => EmptyString
       | String c rest => String c (replace rest pat repl)
       end.

(** The bytes of an encoded character after its first byte. *)
Definition continuation (c : ascii) : bool :=
  let n := nat_of_ascii c in ((128 <=? n) && (n <=? 191))%nat.

(** [s.length], the number of UTF-16 code units: a character encoded in
    four bytes (first byte 240 or more) takes two code units, every other
    character takes one. *)
Fixpoint js_length (s : string) : nat :=
  match s with
  | EmptyString => 0
  | String c rest =>
      (if continuation c then 0
       else if (240 <=? nat_of_ascii c)%nat then 2 else 1)
      + js_length rest
  end.

(** The white space and line terminators [trim] removes, by the length
    of their encoding.  One byte: TAB, LF, VT, FF, CR and SP.  Two bytes:
    the no-break space U+00A0.  Three bytes: U+1680, U+2000 to U+200A,
    U+2028, U+2029, U+202F, U+205F, U+3000 and U+FEFF. *)
Definition ws1 (c : ascii) : bool :=
  let n := nat_of_ascii c in ((9 <=? n) && (n <=? 13) || (n =? 32))%nat.

Definition ws2 (c1 c2 : ascii) : bool := ((c1 =? "194") && (c2 =? "160"))%char.

Definition ws3 (c1 c2 c3 : ascii) : bool :=
  let n := nat_of_ascii c3 in
  ((c1 =? "225") && (c2 =? "154") && (c3 =? "128"))%char
  || ((c1 =? "226") && (c2 =? "128"))%char
     && ((128 <=? n) && (n <=? 138) || (n =? 168) || (n =? 169) || (n =? 175))%nat
  || ((c1 =? "226") && (c2 =? "129") && (c3 =? "159"))%char
  || ((c1 =? "227") && (c2 =? "128") && (c3 =? "128"))%char
  || ((c1 =? "239") && (c2 =? "187") && (c3 =? "191"))%char.

Fixpoint trimStart (s : string) : string :=
  match s with
  | EmptyString => s
  | String c1 r1 =>
      if ws1 c1 then trimStart r1
      else match r1 with
           | EmptyString => s
           | String c2 r2 =>
               if ws2 c1 c2 then trimStart r2
               else match r2 with
                    | EmptyString => s
                    | String c3 r3 => if ws3 c1 c2 c3 then trimStart r3 else s
                    end
           end
  end.

(** The string consists of white space and line terminators only. *)
Definition blank (s : string) : bool := (trimStart s =? "")%string.

Fixpoint trimEnd (s : string) : string :=
  match s with
  | EmptyString => EmptyString
  | String c rest => if blank s then EmptyString else String c (trimEnd rest)
  end.

Definition trim (s : string) : string := trimEnd (trimStart s).

(** The capital letters below U+0100 are A to Z, and U+00C0 to U+00DE
    without the sign U+00D7; the latter are encoded as byte 195 followed
    by a byte from 128 to 158.  Each has its small letter 32 places up. *)
Definition lower (c : ascii) : ascii :=
  let n := nat_of_ascii c in
  if ((65 <=? n) && (n <=? 90))%nat then ascii_of_nat (n + 32) else c.

Definition latin1_capital (c : ascii) : bool :=
  let n := nat_of_ascii c in ((128 <=? n) && (n <=? 158) && negb (n =? 151))%nat.

(** [lower_from after s]: [s] in lower case, where [after] tells that the
    byte before [s] was 195. *)
Fixpoint lower_from (after : bool) (s : string) : string :=
  match s with
  | EmptyString => EmptyString
  | String c rest =>
      String (if after && latin1_capital c
              then ascii_of_nat (nat_of_ascii c + 32) else lower c)
             (lower_from (c =? "195")%char rest)
  end.

Definition toLowerCase (s : string) : string := lower_from false s.

Definition upper (c : ascii) : ascii :=
  let n := nat_of_ascii c in
  if ((97 <=? n) && (n <=? 122))%nat then ascii_of_nat (n - 32) else c.

(** The capitals of the small letters from U+0080 to U+00FF, which are
    encoded in two bytes: U+00E0 to U+00FE without the sign U+00F7 have
    theirs 32 places down; the capital of U+00DF is SS, that of U+00FF is
    U+0178 and that of U+00B5 is U+039C. *)
Definition upper2 (c1 c2 : ascii) : option string :=
  let n := nat_of_ascii c2 in
  if (c1 =? "195")%char
  then if ((160 <=? n) && (n <=? 190) && negb (n =? 183))%nat
       then Some (String c1 (String (ascii_of_nat (n - 32)) EmptyString))
       else if (n =? 159)%nat then Some "SS"
       else if (n =? 191)%nat then Some (String "197" (String "184" EmptyString))
       else None
  else if ((c1 =? "194")%char && (n =? 181)%nat)
       then Some (String "206" (String "156" EmptyString))
       else None.

Fixpoint toUpperCase (s : string) : string :=
  match s with
  | EmptyString => EmptyString
  | String c1 r1 =>
      match r1 with
      | EmptyString => String (upper c1) EmptyString
      | String c2 r2 =>
          match upper2 c1 c2 with
          | Some u => (u ++ toUpperCase r2)%string
          | None => String (upper c1) (toUpperCase r1)
          end
      end
  end.

Fixpoint last_char (s : string) : option ascii :=
  match s with
  | EmptyString => None
  | String c EmptyString => Some c
  | String _ rest => last_char rest
  end.

(** The test [/[.!?]$/.test(s)]. *)
Definition ends_with_terminal (s : string) : bool :=
  match last_char s with
  | Some c => ((c =? ".") || (c =? "!") || (c =? "?"))%char
  | None => false
  end.

(** [every p s]: all characters of [s] satisfy [p]. *)
Fixpoint every (p : ascii -> bool) (s : string) : bool :=
  match s with
  | EmptyString => true
  | String c rest => p c && every p rest
  end.

(** A value the [Headers] constructor accepts (used by [new NextResponse]):
    it holds no NUL, LF or CR, and no code unit above 255, that is, no
    character whose encoding begins with a byte above 195.  The
    constructor first strips white space at both ends of the value; the
    values the handler builds begin and end with a visible character. *)
Definition header_char (c : ascii) : bool :=
  let n := nat_of_ascii c in
  negb ((n =? 0) || (n =? 10) || (n =? 13))%nat && (n <=? 195)%nat.

Definition valid_header_value (v : string) : bool := every header_char v.

(** Template-literal rendering of a non-negative integer. *)
Definition of_N (n : N) : string := NilZero.string_of_uint (N.to_uint n).

(** [(n / 1024).toFixed(1)] for a byte count [n]: the quotient is exact in
    binary floating point, and [toFixed] rounds the exact value to the
    nearest tenth, ties upwards. *)
Definition kilobytes_toFixed1 (n : N) : string :=
  let tenths := ((10 * n + 512) / 1024)%N in
  (of_N (tenths / 10) ++ "." ++ of_N (tenths mod 10))%string.

End JsString.

Import JsString.

(** ** JavaScript values and objects *)

(** The values [JSON.parse] and the CSV parser produce.  Numbers are
    represented by integers: the transforms only observe whether a number
    is zero. *)
Inductive value : Type :=
| VNull
| VBool (b : bool)
| VNum (n : Z)
| VStr (s : string)
| VArr (l : list value)
| VObj (o : list (string * value)).

(** Own enumerable properties, in property order. *)
Abbreviation object := (list (string * value)) (only parsing).

(** The part of [Object.prototype] the program can change: the properties
    written to it so far. *)
Abbreviation proto := (list (string * value)) (only parsing).

(** The errors that can be thrown inside the handler. *)
Inductive error : Type :=
| NotAFunction                 (* TypeError: obj.hasOwnProperty is not a function *)
| CannotCreateProperty (k : string) (on : value)
                               (* TypeError (strict mode): property write on a primitive *)
| InvalidHeaderValue (v : string)
                               (* TypeError of the Headers constructor for the value [v] *)
| Raised (message : string).   (* an error thrown by a library, with its message *)

(** What a call produces: a value, a thrown error, or [Unmodelled] where
    execution leaves the fragment of JavaScript this development describes
    (the cases are listed at [js_put], [flattenObject] and [assign_path]). *)
Inductive outcome (A : Type) : Type :=
| Ok (a : A)
| Throw (e : error)
| Unmodelled.
Arguments Ok {A} a.
Arguments Throw {A} e.
Arguments Unmodelled {A}.

Definition bind {A B : Type} (x : outcome A) (f : A -> outcome B) : outcome B :=
  match x with
  | Ok a => f a
  | Throw e => Throw e
  | Unmodelled => Unmodelled
  end.

Declare Scope outcome_scope.
Delimit Scope outcome_scope with outcome.
Notation "x <- e ;; k" := (bind e (fun x => k))
  (at level 61, e at next level, right associativity) : outcome_scope.

Module JsObject.

(** [!v] is false exactly for these. *)
Definition truthy (v : value) : bool :=
  match v with
  | VNull => false
  | VBool b => b
  | VNum n => negb (n =? 0)%Z
  | VStr s => negb (s =? "")%string
  | VArr _ | VObj _ => true
  end.

Definition is_digit (c : ascii) : bool :=
  let n := nat_of_ascii c in ((48 <=? n) && (n <=? 57))%nat.

Fixpoint digits_value (s : string) (acc : N) : option N :=
  match s with
  | EmptyString => Some acc
  | String c rest =>
      if is_digit c
      then digits_value rest (10 * acc + N.of_nat (nat_of_ascii c - 48))%N
      else None
  end.

(** A property key is an array index when it is the canonical decimal
    form of an integer in [0, 2^32 - 2]. *)
Definition array_index (k : string) : option N :=
  match k with
  | EmptyString => None
  | String c rest =>
      if (c =? "0")%char
      then (if (rest =? "")%string then Some 0%N else None)
      else match digits_value k 0 with
           | Some n => if (n <=? 4294967294)%N then Some n else None
           | None => None
           end
  end.

(** [precedes k k']: a new key [k] is listed before an existing key [k']. *)
Definition precedes (k k' : string) : bool :=
  match array_index k, array_index k' with
  | Some i, Some j => (i <? j)%N
  | Some _, None => true
  | None, _ => false
  end.

Definition keys (o : object) : list string := map fst o.

Fixpoint obj_get (o : object) (k : string) : option value :=
  match o with
  | [] => None
  | (k', v) :: rest => if (k' =? k)%string then Some v else obj_get rest k
  end.

Definition has_own (o : object) (k : string) : bool :=
  match obj_get o k with Some _ => true | None => false end.

Fixpoint obj_replace (o : object) (k : string) (v : value) : object :=
  match o with
  | [] => []
  | (k', v') :: rest =>
      if (k' =? k)%string then (k', v) :: rest
      else (k', v') :: obj_replace rest k v
  end.

Fixpoint obj_insert (o : object) (k : string) (v : value) : object :=
  match o with
  | [] => [(k, v)]
  | (k', v') :: rest =>
      if precedes k k' then (k, v) :: o
      else (k', v') :: obj_insert rest k v
  end.

(** Writing an own data property: an existing key keeps its place, a new
    key takes its place in property order. *)
Definition obj_set (o : object) (k : string) (v : value) : object :=
  if has_own o k then obj_replace o k v else obj_insert o k v.

(** The members of a pristine [Object.prototype] other than [__proto__]:
    all are functions, hence truthy and not enumerable. *)
Definition builtin_members : list string :=
  [ "constructor"; "hasOwnProperty"; "isPrototypeOf";
    "propertyIsEnumerable"; "toLocaleString"; "toString"; "valueOf";
    "__defineGetter__"; "__defineSetter__";
    "__lookupGetter__"; "__lookupSetter__" ].

Definition builtin_member (k : string) : bool :=
  existsb (String.eqb k) builtin_members.

(** The result of reading [o[k]] on a plain object [o]. *)
Inductive lookup : Type :=
| Own (v : value)            (* an own property *)
| Inherited (v : value)      (* a value the program stored on Object.prototype *)
| ThePrototype               (* [o.__proto__]: Object.prototype itself *)
| Builtin                    (* a built-in method of Object.prototype *)
| Undefined.

Definition js_get (P : proto) (o : object) (k : string) : lookup :=
  match obj_get o k with
  | Some v => Own v
  | None =>
      if (k =? "__proto__")%string then ThePrototype
      else match obj_get P k with
           | Some v => Inherited v
           | None => if builtin_member k then Builtin else Undefined
           end
  end.

Definition lookup_truthy (r : lookup) : bool :=
  match r with
  | Own v | Inherited v => truthy v
  | ThePrototype | Builtin => true
  | Undefined => false
  end.

(** The assignment [o[k] = v] on a plain object.  Every key but
    [__proto__] becomes (or stays) an own data property; [__proto__]
    invokes the prototype setter, which is outside the model. *)
Definition js_put (o : object) (k : string) (v : value) : outcome object :=
  if (k =? "__proto__")%string then Unmodelled else Ok (obj_set o k v).

(** [Object.assign(target, source)]. *)
Definition assign (target source : object) : outcome object :=
  fold_left (fun acc kv => (t <- acc ;; js_put t (fst kv) (snd kv))%outcome)
            source (Ok target).

(** The loop header [for (const key in obj) if (obj.hasOwnProperty(key))].
    [for_in_visits] tells whether the loop visits any key at all: own
    keys, or enumerable keys inherited from [Object.prototype] (those the
    program created there; overwritten built-ins stay non-enumerable).
    [hasOwnProperty_callable] tells whether [obj.hasOwnProperty] still
    resolves to the built-in method: the values this program stores are
    never functions. *)
Definition for_in_visits (P : proto) (o : object) : bool :=
  negb (match o with [] => true | _ => false end)
  || existsb (fun kv => negb (builtin_member (fst kv))) P.

Definition hasOwnProperty_callable (P : proto) (o : object) : bool :=
  negb (has_own o "hasOwnProperty") && negb (has_own P "hasOwnProperty").

Definition own_loop_fails (P : proto) (o : object) : bool :=
  for_in_visits P o && negb (hasOwnProperty_callable P o).

End JsObject.

Import JsObject.

(** ** The structural transforms *)

(** [prefix ? `${prefix}.${key}` : key]. *)
Definition newKey (prefix key : string) : string :=
  if (prefix =? "")%string then key else (prefix ++ "." ++ key)%string.

(** [flattenObject(obj, prefix)].  The argument is typed [any] in the
    source; the recursion only ever passes nested plain objects.  Called on
    an array or a string (whose own keys are indices) the result is
    [Unmodelled]; [null] has nothing to enumerate, and a number or a
    boolean has no own keys. *)
Fixpoint flattenObject (P : proto) (obj : value) (prefix : string)
  {struct obj} : outcome object :=
  match obj with
  | VObj o =>
      if own_loop_fails P o then Throw NotAFunction
      else
        fold_left
          (fun acc '(key, x) =>
             (flattened <- acc ;;
              match x with
              | VObj _ =>
                  sub <- flattenObject P x (newKey prefix key) ;;
                  assign flattened sub
              | _ => js_put flattened (newKey prefix key) x
              end)%outcome)
          o (Ok [])
  | VArr _ | VStr _ => Unmodelled
  | VBool _ | VNum _ =>
      if own_loop_fails P [] then Throw NotAFunction else Ok []
  | VNull => Ok []
  end.

(** The body of the outer loop of [unflattenObject] for one key: the inner
    loop over [keys] (all segments but the last) and the final assignment,
    started on the object [current].  The source moves the alias [current]
    down the tree and mutates in place; here the updated object is
    returned, together with [Object.prototype] as the walk leaves it.

    Outside the model ([Unmodelled]): a walk that continues into an array,
    into an object stored on [Object.prototype], into a built-in method,
    deeper than one segment below [Object.prototype], or through a
    property of a primitive; and any write to the key [__proto__]. *)
Fixpoint assign_path (P : proto) (current : object) (keys : list string)
  (v : value) {struct keys} : outcome (object * proto) :=
  match keys with
  | [] => Ok (current, P)        (* not reached: [split] returns a segment *)
  | [last] =>
      (current' <- js_put current last v ;; Ok (current', P))%outcome
  | k :: rest =>
      let descend (child : object) :=
        (r <- assign_path P child rest v ;;
         Ok (obj_set current k (VObj (fst r)), snd r))%outcome in
      let on_primitive (p : value) :=
        match rest with
        | [last] =>
            if (last =? "__proto__")%string then Unmodelled
            else Throw (CannotCreateProperty last p)
        | _ => Unmodelled
        end in
      match js_get P current k with
      | Own (VObj child) => descend child
      | Own (VArr _) => Unmodelled
      | Own p => if truthy p then on_primitive p else descend []
      | Undefined => descend []
      | Inherited (VObj _) | Inherited (VArr _) => Unmodelled
      | Inherited p => if truthy p then on_primitive p else descend []
      | ThePrototype =>
          match rest with
          | [last] =>
              if (last =? "__proto__")%string then Unmodelled
              else Ok (current, obj_set P last v)
          | _ => Unmodelled
          end
      | Builtin => Unmodelled
      end
  end.

(** One visit of the outer loop of [unflattenObject] to an own key: the
    guard [obj.hasOwnProperty(key)], then [key.split(".")] and the walk
    from [result].  The state is the result so far and [Object.prototype]. *)
Definition unflatten_visit (obj : object) (st : outcome object * proto)
  (kv : string * value) : outcome object * proto :=
  match st with
  | (Ok result, P) =>
      if negb (hasOwnProperty_callable P obj) then (Throw NotAFunction, P)
      else match assign_path P result (split "." (fst kv)) (snd kv) with
           | Ok (result', P') => (Ok result', P')
           | Throw e => (Throw e, P)
           | Unmodelled => (Unmodelled, P)
           end
  | _ => st
  end.

(** The enumerable keys of [Object.prototype] a [for ... in] over [obj]
    visits after the own keys. *)
Definition inherited_visited (obj : object) (P : proto) : bool :=
  existsb (fun kv => negb (builtin_member (fst kv)) && negb (has_own obj (fst kv))) P.

(** [unflattenObject(obj)].  Returns the result together with
    [Object.prototype] as the call leaves it, also when it throws.  After
    the own keys the loop still calls the guard for the inherited keys it
    visits; whether it visits keys added to [Object.prototype] during the
    loop is left to the engine, hence [Unmodelled] where that matters. *)
Definition unflattenObject (P : proto) (obj : object) : outcome object * proto :=
  match fold_left (unflatten_visit obj) obj (Ok [], P) with
  | (Ok result, P') =>
      if hasOwnProperty_callable P' obj then (Ok result, P')
      else if inherited_visited obj P then (Throw NotAFunction, P')
      else if inherited_visited obj P' then (Unmodelled, P')
      else (Ok result, P')
  | st => st
  end.

(** ** The request handler *)

Definition bytes : Type := list Byte.byte.

(** The uploaded [File]: [file.name], [file.type] and its content. *)
Record File : Type := mkFile {
  name : string;
  type : string;
  content : bytes
}.

(** The parsed form: [formData.get("file")], [formData.get("outputType")]. *)
Record Request : Type := mkRequest {
  file : option File;
  outputType : option string
}.

Inductive payload : Type :=
| Text (s : string)
| Binary (b : bytes).

(** A response body: [NextResponse.json({ error })] or the converted
    payload. *)
Inductive body : Type :=
| ErrorJson (error_text : string)
| Converted (p : payload).

(** [contentDisposition] is the value of the [Content-Disposition]
    header, when set. *)
Record Response : Type := mkResponse {
  status : nat;
  contentType : string;
  contentDisposition : option string;
  responseBody : body
}.

(** A call into a library either returns or throws. *)
Inductive result (A : Type) : Type :=
| Returns (a : A)
| Raises (message : string).
Arguments Returns {A} a.
Arguments Raises {A} message.

(** [data.text] and [data.numpages] of pdf-parse. *)
Record PdfData : Type := mkPdfData {
  text : string;
  numpages : N
}.

(** [parsed.data] and [parsed.meta.fields] of papaparse. *)
Record CsvParsed : Type := mkCsvParsed {
  data : list object;
  fields : option (list string)
}.

(** The libraries and runtime services the handler calls, as functions of
    their arguments. *)
Record Runtime : Type := mkRuntime {
  utf8_decode : bytes -> string;                      (* buffer.toString("utf-8") *)
  mammoth_extractRawText : bytes -> result string;    (* (await ...).value *)
  pdfParse : bytes -> result PdfData;
  papa_parse : string -> result CsvParsed;            (* with the route's options *)
  papa_unparse : list object -> result string;
  json_parse : string -> result value;
  json_stringify : value -> string;                   (* JSON.stringify(v, null, 2) *)
  sharp_png : bytes -> result bytes;                  (* quality 100, compressionLevel 6 *)
  sharp_jpeg : bytes -> result bytes;                 (* quality 95, progressive *)
  engine_message : error -> string                    (* text of an engine TypeError *)
}.

Inductive library : Type :=
| Mammoth | PdfParse | PapaParse | PapaUnparse | JsonParse | SharpPng | SharpJpeg.

(** What the handler does to the outside, in order. *)
Inductive effect : Type :=
| ReadBody                  (* await file.arrayBuffer() *)
| Called (l : library).

Record world : Type := mkWorld {
  prototype : proto;        (* Object.prototype, shared by all requests *)
  effects : list effect
}.

Definition handler (A : Type) : Type := world -> outcome A * world.

Module Handler.

Definition ret {A} (a : A) : handler A := fun w => (Ok a, w).

Definition bind {A B} (m : handler A) (k : A -> handler B) : handler B :=
  fun w =>
    match m w with
    | (Ok a, w') => k a w'
    | (Throw e, w') => (Throw e, w')
    | (Unmodelled, w') => (Unmodelled, w')
    end.

Definition throw {A} (e : error) : handler A := fun w => (Throw e, w).

Definition unmodelled {A} : handler A := fun w => (Unmodelled, w).

Definition perform (ev : effect) : handler unit :=
  fun w => (Ok tt, mkWorld (prototype w) (effects w ++ [ev])).

Definition try_catch {A} (m : handler A) (h : error -> handler A) : handler A :=
  fun w =>
    match m w with
    | (Throw e, w') => h e w'
    | r => r
    end.

(** A pure computation that may throw. *)
Definition lift {A} (x : outcome A) : handler A := fun w => (x, w).

(** A computation that reads and writes [Object.prototype]. *)
Definition on_prototype {A} (f : proto -> outcome A * proto) : handler A :=
  fun w =>
    let r := f (prototype w) in
    (fst r, mkWorld (snd r) (effects w)).

Definition get_prototype : handler proto := fun w => (Ok (prototype w), w).

Fixpoint for_each {A B} (f : A -> handler B) (l : list A) : handler (list B) :=
  match l with
  | [] => ret []
  | a :: rest =>
      bind (f a) (fun b => bind (for_each f rest) (fun bs => ret (b :: bs)))
  end.

End Handler.

Declare Scope handler_scope.
Delimit Scope handler_scope with handler.
Notation "x <- e ;; k" := (Handler.bind e (fun x => k))
  (at level 61, e at next level, right associativity) : handler_scope.
Notation "e ;; k" := (Handler.bind e (fun _ => k))
  (at level 61, right associativity) : handler_scope.

Definition lines (l : list string) : string := join nl l.

Definition mimeTypes : object :=
  [ ("md", VStr "text/markdown; charset=utf-8");
    ("txt", VStr "text/plain; charset=utf-8");
    ("json", VStr "application/json; charset=utf-8");
    ("csv", VStr "text/csv; charset=utf-8");
    ("pdf", VStr "application/pdf");
    ("docx", VStr "application/vnd.openxmlformats-officedocument.wordprocessingml.document");
    ("png", VStr "image/png");
    ("jpg", VStr "image/jpeg");
    ("jpeg", VStr "image/jpeg") ].

(** The match [/\.(jpg|jpeg|png|gif|bmp|webp|tiff|svg)$/i]. *)
Definition image_extensions : list string :=
  ["jpg"; "jpeg"; "png"; "gif"; "bmp"; "webp"; "tiff"; "svg"].

Definition matches_image_extension (file_name : string) : bool :=
  existsb (fun ext => endsWith (toLowerCase file_name) ("." ++ ext)%string)
          image_extensions.

Section Route.

Variable rt : Runtime.

(** [error.message]. *)
Definition message_of (e : error) : string :=
  match e with
  | Raised m => m
  | _ => engine_message rt e
  end.

Definition call {A} (l : library) (r : result A) : handler A :=
  (Handler.perform (Called l) ;;
   match r with
   | Returns a => Handler.ret a
   | Raises m => Handler.throw (Raised m)
   end)%handler.

Definition no_text_report (pages : N) (size : nat) : string :=
  lines
    [ "⚠️ PDF Processing Issue";
      "";
      "📄 **PDF Information:**";
      ("• Total pages: " ++ of_N pages)%string;
      ("• File size: " ++ kilobytes_toFixed1 (N.of_nat size) ++ "KB")%string;
      "• Status: Valid PDF format";
      "";
      "❌ **Text Extraction Failed:**";
      "No extractable text found in the PDF.";
      "";
      "🔍 **Possible reasons:**";
      "• PDF contains only images (scanned document)";
      "• Text is embedded as graphics";
      "• PDF uses complex formatting";
      "• Password protection or security restrictions";
      "";
      "💡 **This converter works perfectly with:**";
      "• Word documents (DOCX → Markdown)";
      "• Images (PNG, JPG conversions)";
      "• Spreadsheets (CSV → JSON)" ].

Definition unable_report (message : string) : string :=
  lines
    [ "❌ **Unable to process PDF**";
      "";
      "**Error encountered:**";
      message;
      "";
      "**This might indicate:**";
      "• Corrupted file upload";
      "• Unsupported PDF version";
      "• Server processing limitations";
      "• Memory constraints";
      "";
      "**Solutions to try:**";
      "• Upload a different PDF file";
      "• Ensure file isn't password-protected";
      "• Try a smaller file size";
      "• Use alternative conversion tools";
      "";
      "**Working alternatives:**";
      "📝 DOCX, TXT, CSV, and image conversions work perfectly!" ].

(** [extractPdfText(buffer)]: the whole body is inside [try]; the [catch]
    returns a string, so the function itself never throws. *)
Definition extractPdfText (buffer : bytes) : handler string :=
  Handler.try_catch
    (data <- call PdfParse (pdfParse rt buffer) ;;
     if negb (text data =? "")%string
        && (0 <? js_length (trim (text data)))%nat
     then Handler.ret ("📄 PDF Text Content:" ++ nl ++ nl ++ trim (text data))%string
     else Handler.ret (no_text_report (numpages data) (List.length buffer)))%handler
    (fun e => Handler.ret (unable_report (message_of e))).

(** The TXT branch of [POST]: the array [markdown] after the loop. *)
Definition txt_markdown (file_name : string) (source : string) : list string :=
  let markdown :=
    [ ("# " ++ replace file_name ".txt" "")%string; "";
      "Converted from text file"; "" ] in
  fold_left
    (fun markdown line =>
       let trimmed := trim line in
       if (trimmed =? "")%string then markdown ++ [""]
       else if (js_length trimmed <? 60)%nat
               && negb (ends_with_terminal trimmed)
               && negb (includes trimmed " ")
            then markdown ++ [("## " ++ trimmed)%string]
            else if startsWith trimmed "- " || startsWith trimmed "* "
                 then markdown ++ [trimmed]
                 else markdown ++ [trimmed])
    (split "010" source) markdown.

Definition server_error (message : string) : string :=
  lines
    [ ("Server error: " ++ message)%string;
      "";
      "🔍 This might be due to:";
      "• File upload corruption";
      "• Server configuration issue";
      "• Unsupported file format";
      "• Memory limitations";
      "";
      "Please try:";
      "• A smaller file";
      "• A different file format";
      "• Refreshing and trying again" ].

Definition json_error (code : nat) (message : string) : Response :=
  mkResponse code "application/json" None (ErrorJson message).

Definition not_supported (fileExt out : string) : string :=
  ("Conversion from " ++ toUpperCase fileExt ++ " to " ++ toUpperCase out
     ++ " is not supported. Please check the supported conversions list.")%string.

(** The conversion chain of [POST]: either an early response or the
    value of [converted]. *)
Definition convert (f : File) (out : string) (buffer : bytes)
  : handler (Response + payload) :=
  if (out =? "md")%string && endsWith (name f) ".docx" then
    (value <- call Mammoth (mammoth_extractRawText rt buffer) ;;
     Handler.ret
       (inr (Text ("# " ++ replace (name f) ".docx" "" ++ nl ++ nl
                     ++ "Converted from Word document" ++ nl ++ nl ++ value)%string)))%handler
  else if (out =? "txt")%string && endsWith (name f) ".pdf" then
    (converted <- extractPdfText buffer ;;
     Handler.ret (inr (Text converted)))%handler
  else if (out =? "json")%string && endsWith (name f) ".csv" then
    (parsed <- call PapaParse (papa_parse rt (utf8_decode rt buffer)) ;;
     unflattenedData <-
       Handler.for_each
         (fun row => Handler.on_prototype (fun P => unflattenObject P row))
         (data parsed) ;;
     Handler.ret
       (inr (Text (json_stringify rt
         (VObj
            [ ("meta",
               VObj [ ("filename", VStr (name f));
                      ("rows", VNum (Z.of_nat (List.length unflattenedData)));
                      ("fields",
                       VArr (map VStr
                               (match fields parsed with
                                | Some l => l
                                | None => []
                                end))) ]);
              ("data", VArr (map VObj unflattenedData)) ])))))%handler
  else if (out =? "csv")%string && endsWith (name f) ".json" then
    (jsonData <- call JsonParse (json_parse rt (utf8_decode rt buffer)) ;;
     P <- Handler.get_prototype ;;
     match jsonData with
     | VArr items =>
         flattenedData <-
           Handler.for_each (fun item => Handler.lift (flattenObject P item ""))
                            items ;;
         converted <- call PapaUnparse (papa_unparse rt flattenedData) ;;
         Handler.ret (inr (Text converted))
     | VObj _ =>
         flattened <- Handler.lift (flattenObject P jsonData "") ;;
         converted <- call PapaUnparse (papa_unparse rt [flattened]) ;;
         Handler.ret (inr (Text converted))
     | _ =>
         Handler.ret
           (inl (json_error 400 "JSON must be an object or array of objects"))
     end)%handler
  else if ((out =? "png") || (out =? "jpg") || (out =? "jpeg"))%string
          && (startsWith (type f) "image/" || matches_image_extension (name f))
  then
    (if (out =? "png")%string
     then (converted <- call SharpPng (sharp_png rt buffer) ;;
           Handler.ret (inr (Binary converted)))
     else (converted <- call SharpJpeg (sharp_jpeg rt buffer) ;;
           Handler.ret (inr (Binary converted))))%handler
  else if (out =? "md")%string && endsWith (name f) ".txt" then
    Handler.ret
      (inr (Text (join nl (txt_markdown (name f) (utf8_decode rt buffer)))))
  else
    let fileExt :=
      let ext := toLowerCase (last (split "." (name f)) "") in
      if (ext =? "")%string then "unknown" else ext in
    Handler.ret (inl (json_error 400 (not_supported fileExt out))).

(** [POST(req)], with [now] the value [Date.now()] returns.  The answer
    with the converted payload is made by [new NextResponse], inside
    [try]: its [Headers] are built from the [Content-Disposition] value,
    and a value that is not a valid header value makes the constructor
    throw, which the [catch] turns into the 500 answer. *)
Definition POST (now : N) (req : Request) : handler Response :=
  Handler.try_catch
    (match file req with
     | None => Handler.ret (json_error 400 "No file uploaded")
     | Some f =>
         P <- Handler.get_prototype ;;
         let out :=
           match outputType req with
           | Some s => toLowerCase s
           | None => ""
           end in
         if (out =? "")%string || negb (lookup_truthy (js_get P mimeTypes out))
         then Handler.ret (json_error 400 "Unsupported output type")
         else
           Handler.perform ReadBody ;;
           let buffer := content f in
           r <- convert f out buffer ;;
           match r with
           | inl early => Handler.ret early
           | inr converted =>
               match obj_get mimeTypes out with
               | Some (VStr mime) =>
                   let filename :=
                     (hd "" (split "." (name f)) ++ "-converted-" ++ of_N now
                        ++ "." ++ out)%string in
                   let disposition :=
                     ("attachment; filename=" ++ dquote ++ filename ++ dquote)%string in
                   if valid_header_value disposition
                   then Handler.ret
                          (mkResponse 200 mime (Some disposition) (Converted converted))
                   else Handler.throw (InvalidHeaderValue disposition)
               | _ => Handler.unmodelled
               end
           end
     end)%handler
    (fun e => Handler.ret (json_error 500 (server_error (message_of e)))).

End Route.

(** * Specifications

    The definitions the statements and their proofs are written with. *)

(** ** Records that survive the round trip *)

(** The key contains no literal dot. *)
Fixpoint no_dot (s : string) : bool :=
  match s with
  | EmptyString => true
  | String c rest => negb (c =? ".")%char && no_dot rest
  end.

(** Two distinct keys of one object, the first listed before the second:
    array indices ascending, then the other keys. *)
Definition in_order (earlier later : string) : bool :=
  match array_index earlier, array_index later with
  | Some i, Some j => (i <? j)%N
  | Some _, None => true
  | None, Some _ => false
  | None, None => negb (earlier =? later)%string
  end.

(** The list is a JavaScript object: its keys are distinct and listed in
    property order. *)
Fixpoint property_order (o : object) : bool :=
  match o with
  | [] => true
  | (k, _) :: rest =>
      forallb (fun kv => in_order k (fst kv)) rest && property_order rest
  end.

(** The Records for which the round trip is proved.  Every object of the
    tree lists its keys in property order; no key contains a dot or is
    [__proto__] or [hasOwnProperty]; a key that holds a nested Record is
    not the name of a method of [Object.prototype], and the nested Record
    is not empty; at top level ([top]) the empty key holds no nested
    Record.  Scalars and arrays are unconstrained. *)
Fixpoint roundtrippable (top : bool) (v : value) {struct v} : bool :=
  match v with
  | VObj o =>
      property_order o
      && forallb
           (fun '(k, x) =>
              no_dot k && negb (k =? "__proto__")%string
              && negb (k =? "hasOwnProperty")%string
              && match x with
                 | VObj o' =>
                     negb (builtin_member k)
                     && negb (top && (k =? "")%string)
                     && negb (match o' with [] => true | _ => false end)
                     && roundtrippable false x
                 | _ => true
                 end)
           o
  | _ => true
  end.

(** The same conditions, for one entry. *)
Definition roundtrippable_entry (top : bool) (e : string * value) : bool :=
  no_dot (fst e) && negb (fst e =? "__proto__")%string
  && negb (fst e =? "hasOwnProperty")%string
  && match snd e with
     | VObj o' =>
         negb (builtin_member (fst e))
         && negb (top && (fst e =? "")%string)
         && negb (match o' with [] => true | _ => false end)
         && roundtrippable false (snd e)
     | _ => true
     end.

(** ** Leaves and their paths *)

Definition is_record (v : value) : bool :=
  match v with VObj _ => true | _ => false end.

(** The leaves of a Record in traversal order, each with the keys that
    lead to it. *)
Fixpoint leaves (v : value) : list (list string * value) :=
  match v with
  | VObj o =>
      flat_map
        (fun '(k, x) =>
           match x with
           | VObj _ => map (fun pv => (k :: fst pv, snd pv)) (leaves x)
           | _ => [([k], x)]
           end)
        o
  | _ => []
  end.

Definition leaves_of_entry (e : string * value) : list (list string * value) :=
  match snd e with
  | VObj _ => map (fun pv => (fst e :: fst pv, snd pv)) (leaves (snd e))
  | _ => [([fst e], snd e)]
  end.

(** The key [flattenObject] builds for a path below [prefix]. *)
Definition path_key (prefix : string) (path : list string) : string :=
  fold_left newKey path prefix.

(** The entries [flattenObject] writes for one entry of a Record. *)
Definition keyed (p : string) (e : string * value) : object :=
  map (fun pv => (path_key p (fst pv), snd pv)) (leaves_of_entry e).

(** A leaf under an array-index key, at top level: its flattened key is
    an array index again, listed before every dotted key. *)
Definition index_leaf (p : string) (e : string * value) : bool :=
  (p =? "")%string && negb (is_record (snd e))
  && match array_index (fst e) with Some _ => true | None => false end.

(** The FlatRecord of a Record, in property order. *)
Definition flat_entries (p : string) (o : object) : object :=
  flat_map (keyed p) (filter (index_leaf p) o)
  ++ flat_map (keyed p) (filter (fun e => negb (index_leaf p e)) o).

(** What precedes the entry key in a flattened key, and the entry key
    read back from a flattened key. *)
Definition pre (p : string) : string :=
  if (p =? "")%string then "" else (p ++ ".")%string.

Definition first_segment (p key : string) : string :=
  hd "" (split "." (drop (String.length (pre p)) key)).

(** ** The loops, one step at a time *)

(** The body of the loop of [flattenObject]. *)
Definition flatten_step (P : proto) (prefix : string) (acc : outcome object)
  (kv : string * value) : outcome object :=
  (flattened <- acc ;;
   match snd kv with
   | VObj _ =>
       sub <- flattenObject P (snd kv) (newKey prefix (fst kv)) ;;
       assign flattened sub
   | _ => js_put flattened (newKey prefix (fst kv)) (snd kv)
   end)%outcome.

(** The outer loop of [unflattenObject] on keys already split. *)
Definition assign_paths (P : proto) (L : list (list string * value)) (acc : object)
  : outcome (object * proto) :=
  fold_left
    (fun st pv => (r <- st ;; assign_path (snd r) (fst r) (fst pv) (snd pv))%outcome)
    L (Ok (acc, P)).

(** What the walk of [unflattenObject] needs to know of one entry. *)
Definition entry_ok (e : string * value) : Prop :=
  fst e <> "__proto__" /\
  match snd e with
  | VObj o' =>
      builtin_member (fst e) = false /\ leaves (VObj o') <> [] /\
      assign_paths [] (leaves (VObj o')) [] = Ok (o', [])
  | _ => True
  end.

(** What the loop of [flattenObject] needs to know of one entry. *)
Definition flat_ok (p : string) (e : string * value) : Prop :=
  no_dot (fst e) = true /\ fst e <> "__proto__" /\
  (is_record (snd e) = true ->
   newKey p (fst e) <> "" /\
   flattenObject [] (snd e) (newKey p (fst e)) = Ok (keyed p e)).

(** The result, if there is one, is an object: its keys are distinct. *)
Definition unique_keys (r : outcome object) : Prop :=
  match r with Ok o => NoDup (keys o) | _ => True end.

(** Induction on values, through the lists. *)
Section ValueInduction.
Variable Q : value -> Prop.
Hypothesis HNull : Q VNull.
Hypothesis HBool : forall b, Q (VBool b).
Hypothesis HNum : forall n, Q (VNum n).
Hypothesis HStr : forall s, Q (VStr s).
Hypothesis HArr : forall l, Forall Q l -> Q (VArr l).
Hypothesis HObj : forall o, Forall (fun kv => Q (snd kv)) o -> Q (VObj o).

Fixpoint value_nested_ind (v : value) : Q v :=
  match v with
  | VNull => HNull
  | VBool b => HBool b
  | VNum n => HNum n
  | VStr s => HStr s
  | VArr l =>
      HArr l ((fix go (l : list value) : Forall Q l :=
                 match l with
                 | [] => Forall_nil _
                 | x :: rest => Forall_cons _ (value_nested_ind x) (go rest)
                 end) l)
  | VObj o =>
      HObj o ((fix go (o : list (string * value)) : Forall (fun kv => Q (snd kv)) o :=
                 match o with
                 | [] => Forall_nil _
                 | kv :: rest => Forall_cons _ (value_nested_ind (snd kv)) (go rest)
                 end) o)
  end.
End ValueInduction.

(** ** The claims as the specification words them, and sample data *)

(** The hypothesis of the round-trip law as the specification words it:
    no key of the Record, at any depth, contains a dot. *)
Fixpoint keys_without_dot (v : value) : bool :=
  match v with
  | VObj o => forallb (fun '(k, x) => no_dot k && keys_without_dot x) o
  | _ => true
  end.

(** The value at a path of keys, and the object with the value at an
    existing path replaced in place. *)
Fixpoint get_at (o : object) (path : list string) : option value :=
  match path with
  | [] => None
  | [k] => obj_get o k
  | k :: rest =>
      match obj_get o k with
      | Some (VObj child) => get_at child rest
      | _ => None
      end
  end.

Fixpoint put_at (o : object) (path : list string) (v : value) : object :=
  match path with
  | [] => o
  | [k] => obj_set o k v
  | k :: rest =>
      match obj_get o k with
      | Some (VObj child) => obj_set o k (VObj (put_at child rest v))
      | _ => o
      end
  end.

(** A segment of a dotted key that is an ordinary name. *)
Definition plain_key (k : string) : bool :=
  no_dot k && negb (k =? "__proto__")%string && negb (k =? "hasOwnProperty")%string.

(** Scalars of a FlatRecord. *)
Definition is_scalar (v : value) : bool :=
  match v with
  | VNull | VBool _ | VNum _ | VStr _ => true
  | VArr _ | VObj _ => false
  end.

(** The heading, the preamble and the separator of the TXT branch. *)
Definition heading_block (file_name : string) : list string :=
  [ ("# " ++ replace file_name ".txt" "")%string; "";
    "Converted from text file"; "" ].

(** The label-line test of the TXT branch. *)
Definition label_line (s : string) : bool :=
  (js_length s <? 60)%nat && negb (ends_with_terminal s) && negb (includes s " ").

(** What the loop of the TXT branch pushes for one source line. *)
Definition emitted (line : string) : string :=
  let trimmed := trim line in
  if (trimmed =? "")%string then ""
  else if label_line trimmed then ("## " ++ trimmed)%string
  else trimmed.

(** The line rule as the specification states it: the test is made on the
    source line, and a line that is not a label is emitted verbatim. *)
Definition emitted_as_stated (line : string) : string :=
  if (trim line =? "")%string then ""
  else if label_line line then ("## " ++ line)%string
  else line.

Definition is_success (r : Response) : bool := (status r =? 200)%nat.
Definition is_failure (r : Response) : bool := (400 <=? status r)%nat.

(** Deterministic stand-ins for the libraries, to run the handler on
    concrete requests: a PDF parser that rejects the empty buffer and
    finds three pages without text otherwise, and a CSV parser that
    reads one row with the columns [a.b] and [__proto__.a]. *)
Definition sample_runtime : Runtime :=
  mkRuntime
    string_of_list_byte
    (fun _ => Returns "text")
    (fun buffer =>
       match buffer with
       | [] => Raises "Invalid PDF structure"
       | _ => Returns (mkPdfData "" 3)
       end)
    (fun _ =>
       Returns (mkCsvParsed [[("a.b", VNum 1); ("__proto__.a", VNum 5)]]
                            (Some ["a.b"; "__proto__.a"])))
    (fun _ => Returns "")
    (fun _ => Returns VNull)
    (fun _ => "{}")
    (fun buffer => Returns buffer)
    (fun buffer => Returns buffer)
    (fun _ => "TypeError").

Definition sample_file (file_name : string) (source : string) : File :=
  mkFile file_name "" (list_byte_of_string source).

Definition pristine : world := mkWorld [] [].

(** ** Flat records, single paths and settled key lists *)

(** No value of the object is a nested Record: the object is a FlatRecord. *)
Definition flat_values (o : object) : bool :=
  forallb (fun kv => negb (is_record (snd kv))) o.

(** The keys are distinct and no later key would be listed before an
    earlier one: the list is what successive property writes leave. *)
Fixpoint settled (o : object) : bool :=
  match o with
  | [] => true
  | (k, _) :: rest =>
      forallb (fun kv => negb (precedes (fst kv) k) && negb (fst kv =? k)%string) rest
      && settled rest
  end.

(** The object one dotted key stands for: a chain of nested objects that
    ends in the value. *)
Fixpoint nest (path : list string) (v : value) : object :=
  match path with
  | [] => []
  | [k] => [(k, v)]
  | k :: rest => [(k, VObj (nest rest v))]
  end.

(** The segments of a dotted key: [key.split(".")]. *)
Definition segments (key : string) : list string := split "." key.

(** The walk along the key stays clear of the prototype chain: no segment
    is [__proto__], and no segment but the last names a built-in member
    of [Object.prototype] or a property the program stored there. *)
Definition clear_of_prototype (P : proto) (key : string) : bool :=
  forallb (fun k => negb (k =? "__proto__")%string) (segments key)
  && forallb (fun k => negb (builtin_member k) && negb (has_own P k))
             (removelast (segments key)).

(** The path [p] is a beginning of the path [q] and shorter than it. *)
Fixpoint proper_prefix (p q : list string) : bool :=
  match p, q with
  | [], [] => false
  | [], _ :: _ => true
  | _ :: _, [] => false
  | a :: p', b :: q' => (a =? b)%string && proper_prefix p' q'
  end.

(** No path continues an earlier path of the list: a key never asks for
    a property of what an earlier key has stored. *)
Fixpoint no_key_extends_earlier (paths : list (list string)) : bool :=
  match paths with
  | [] => true
  | p :: rest =>
      forallb (fun q => negb (proper_prefix p q)) rest
      && no_key_extends_earlier rest
  end.

(** The walk of [unflattenObject] along [path] from the object [T] steps
    only on own properties that hold an object or on names that are not
    defined anywhere, and ends on a name other than [__proto__]. *)
Fixpoint walk_ok (P : proto) (T : object) (path : list string) : bool :=
  match path with
  | [] => true
  | k :: rest =>
      negb (k =? "__proto__")%string
      && match rest with
         | [] => true
         | _ :: _ =>
             negb (builtin_member k) && negb (has_own P k)
             && match obj_get T k with
                | Some (VObj child) => walk_ok P child rest
                | None => walk_ok P [] rest
                | Some _ => false
                end
         end
  end.

(** ** The kinds of a request and the shapes of an answer *)

(** [formData.get("outputType")?.toLowerCase()]; a missing field fails
    the test [!outputType] like the empty string. *)
Definition requested_kind (o : option string) : string :=
  match o with
  | Some s => toLowerCase s
  | None => ""
  end.

(** [file.name.split(".").pop()?.toLowerCase() || "unknown"]. *)
Definition fileExt (file_name : string) : string :=
  let ext := toLowerCase (last (split "." file_name) "") in
  if (ext =? "")%string then "unknown" else ext.

(** An answer made by [NextResponse.json({ error }, { status })], with
    status 400 or 500 and an error text that is not empty. *)
Definition error_answer (r : Response) : bool :=
  ((status r =? 400)%nat || (status r =? 500)%nat)
  && (contentType r =? "application/json")%string
  && match contentDisposition r with None => true | Some _ => false end
  && match responseBody r with
     | ErrorJson m => negb (m =? "")%string
     | Converted _ => false
     end.


(** The file name the answer suggests for the download. *)
Definition download_name (stem : string) (now : N) (out : string) : string :=
  ("attachment; filename=" ++ dquote
     ++ (stem ++ "-converted-" ++ of_N now ++ "." ++ out) ++ dquote)%string.

(** The document the CSV route serialises. *)
Definition csv_document (file_name : string) (rows : list object)
  (columns : option (list string)) : value :=
  VObj
    [ ("meta",
       VObj [ ("filename", VStr file_name);
              ("rows", VNum (Z.of_nat (List.length rows)));
              ("fields",
               VArr (map VStr (match columns with Some l => l | None => [] end))) ]);
      ("data", VArr (map VObj rows)) ].

(** A row of the CSV parser whose column names are plain names. *)
Definition plain_row (row : object) : bool :=
  property_order row && forallb plain_key (keys row).

(** The file is taken for an image: [file.type.startsWith("image/")] or
    the match on the image extensions. *)
Definition is_image (f : File) : bool :=
  startsWith (type f) "image/" || matches_image_extension (name f).

(** ** More stand-ins for the libraries *)

(** The sample libraries with an engine whose error for a refused header
    value quotes the value, as the [Headers] implementation of Node does. *)
Definition quoting_runtime : Runtime :=
  mkRuntime
    (utf8_decode sample_runtime)
    (mammoth_extractRawText sample_runtime)
    (pdfParse sample_runtime)
    (papa_parse sample_runtime)
    (papa_unparse sample_runtime)
    (json_parse sample_runtime)
    (json_stringify sample_runtime)
    (sharp_png sample_runtime)
    (sharp_jpeg sample_runtime)
    (fun e =>
       match e with
       | InvalidHeaderValue v =>
           ("Headers.append: " ++ dquote ++ v ++ dquote
              ++ " is an invalid header value.")%string
       | _ => engine_message sample_runtime e
       end).

(** Libraries that reject every input. *)
Definition failing_runtime : Runtime :=
  mkRuntime
    string_of_list_byte
    (fun _ => Raises "bad input")
    (fun _ => Raises "bad input")
    (fun _ => Raises "bad input")
    (fun _ => Raises "bad input")
    (fun _ => Raises "bad input")
    (fun _ => "null")
    (fun _ => Raises "bad input")
    (fun _ => Raises "bad input")
    (fun _ => "obj.hasOwnProperty is not a function").

(** A CSV parser that reads two rows with the columns [id] and [name], a
    JSON parser that reads the content [one] as a single object and any
    other content as the array holding that object, and a CSV writer that
    reports the number of rows it was given. *)
Definition table_runtime : Runtime :=
  mkRuntime
    string_of_list_byte
    (fun _ => Returns "text")
    (fun _ => Returns (mkPdfData "Hello" 1))
    (fun _ =>
       Returns (mkCsvParsed [ [("id", VNum 1); ("name", VStr "Ann")];
                              [("id", VNum 2); ("name", VNull)] ]
                            (Some ["id"; "name"])))
    (fun rows => Returns (of_N (N.of_nat (List.length rows)) ++ " rows")%string)
    (fun s =>
       if (s =? "one")%string
       then Returns (VObj [("a", VObj [("b", VNum 1)])])
       else Returns (VArr [VObj [("a", VObj [("b", VNum 1)])]]))
    (fun _ => "document")
    (fun buffer => Returns buffer)
    (fun buffer => Returns buffer)
    (fun _ => "obj.hasOwnProperty is not a function").

(** ** Line endings *)

(** The character does not occur in the string. *)
Fixpoint lacks (c : ascii) (s : string) : bool :=
  match s with
  | EmptyString => true
  | String a rest => negb (a =? c)%char && lacks c rest
  end.

(** Carriage return, and the Windows line ending. *)
Definition cr : string := String "013" EmptyString.
Definition crlf : string := (cr ++ nl)%string.

(** * The page that calls the route

    [src/app/page.tsx]: the handler [handleConvert] of the Convert button
    and the test that disables the button.  The page's state setters, its
    dialog, its request and its download are recorded as events, in the
    order the handler performs them.  [formatFileSize] works on
    floating-point logarithms and is not part of the embedding. *)

(** What awaiting a promise gives: its value, the error it is rejected
    with, or nothing at all while it stays pending.  The page sets no
    timeout and passes no abort signal, so a request may stay pending. *)
Inductive promise (A : Type) : Type :=
| Fulfilled (a : A)
| Rejected (message : string)
| Pending.
Arguments Fulfilled {A} a.
Arguments Rejected {A} message.
Arguments Pending {A}.

Definition is_settled {A : Type} (p : promise A) : bool :=
  match p with
  | Pending => false
  | _ => true
  end.

(** What [fetch] resolves to, as far as the page looks: [res.status],
    [res.statusText], [res.headers.get("Content-Type")], and the promises
    [res.json()], [res.text()] and [res.blob()].  The page awaits at most
    one of the three on any path. *)
Record FetchResponse : Type := mkFetchResponse {
  res_status : nat;
  res_statusText : string;
  res_contentType : option string;
  res_json : promise value;
  res_text : promise string;
  res_blob : promise bytes
}.

Inductive ui_event : Type :=
| Alert (message : string)                       (* alert(message) *)
| SetIsConverting (b : bool)
| SetConvertedText (t : option string)
| Fetch (f : File) (outputType splitMode : string)
                                                 (* fetch("/api/converter", POST, formData) *)
| Download (blob : payload) (filename : string). (* downloadFile(blob, filename) *)

(** [10 * 1024 * 1024]. *)
Definition maxSize : N := 10 * 1024 * 1024.

(** [file.size]. *)
Definition size (f : File) : N := N.of_nat (List.length (content f)).

(** [(n / (1024 * 1024)).toFixed(2)] for a byte count [n]: the quotient is
    exact in binary floating point, and [toFixed] rounds the exact value
    to the nearest hundredth, ties upwards. *)
Definition megabytes_toFixed2 (n : N) : string :=
  let hundredths := ((100 * n + 524288) / 1048576)%N in
  (of_N (hundredths / 100) ++ "."
     ++ of_N ((hundredths mod 100) / 10) ++ of_N (hundredths mod 10))%string.

Definition too_large (n : N) : string :=
  ("File is too large. Maximum size allowed is " ++ of_N (maxSize / (1024 * 1024))
     ++ "MB. Your file is " ++ megabytes_toFixed2 n ++ "MB.")%string.

(** [res.ok]. *)
Definition res_ok (res : FetchResponse) : bool :=
  ((200 <=? res_status res) && (res_status res <=? 299))%nat.

(** [res.headers.get("Content-Type") || ""]. *)
Definition header_or_empty (res : FetchResponse) : string :=
  match res_contentType res with
  | Some c => c
  | None => ""
  end.

(** [`Error ${res.status}: ${res.statusText}`]. *)
Definition status_line (res : FetchResponse) : string :=
  ("Error " ++ of_N (N.of_nat (res_status res)) ++ ": " ++ res_statusText res)%string.

(** [error?.message || "Network error occurred"]. *)
Definition failure_message (message : string) : string :=
  if (message =? "")%string then "Network error occurred" else message.

Section Page.

(** The string a value that is not a string is converted to when it is
    appended to a string. *)
Variable to_string : value -> string.

(** The value of [errorMessage] when the response is not [ok]; none
    while the body is pending.  In the JSON branch [errorData.error]
    throws for [null] (caught: the status line), is [undefined] for the
    other values without such a property, and is used when it is truthy. *)
Definition errorMessage (res : FetchResponse) : option string :=
  let contentType := header_or_empty res in
  if (res_status res =? 413)%nat
  then Some "File is too large. Please try with a smaller file."
  else if includes contentType "json" then
    match res_json res with
    | Fulfilled (VObj errorData) =>
        match obj_get errorData "error" with
        | Some v =>
            if truthy v
            then Some (match v with VStr s => s | _ => to_string v end)
            else Some (status_line res)
        | None => Some (status_line res)
        end
    | Fulfilled _ => Some (status_line res)
    | Rejected _ => Some (status_line res)
    | Pending => None
    end
  else if includes contentType "text/html" then
    if (res_status res =? 413)%nat
    then Some "File size exceeds server limit. Please try with a smaller file."
    else Some ("Server error (" ++ of_N (N.of_nat (res_status res))
                 ++ "). Please try again.")%string
  else
    match res_text res with
    | Fulfilled errorText =>
        Some (if (errorText =? "")%string then status_line res else errorText)
    | Rejected _ => Some (status_line res)
    | Pending => None
    end.

(** What the handler does between [setIsConverting(true)] and the
    [finally] block, given the promise [fetch] returned; none while the
    handler awaits a pending promise (it has done nothing by then). *)
Definition conversion (outputType : string) (fetched : promise FetchResponse)
  : option (list ui_event) :=
  match fetched with
  | Pending => None
  | Rejected m => Some [Alert ("Conversion failed: " ++ failure_message m)%string]
  | Fulfilled res =>
      let contentType := header_or_empty res in
      if negb (res_ok res)
      then match errorMessage res with
           | Some message => Some [Alert ("Conversion failed: " ++ message)%string]
           | None => None
           end
      else if startsWith contentType "text/" || includes contentType "json" then
        match res_text res with
        | Fulfilled text =>
            Some [ SetConvertedText (Some text);
                   Download (Text text) ("converted." ++ outputType)%string ]
        | Rejected m => Some [Alert ("Conversion failed: " ++ failure_message m)%string]
        | Pending => None
        end
      else
        match res_blob res with
        | Fulfilled blob =>
            Some [ Download (Binary blob) ("converted." ++ outputType)%string;
                   SetConvertedText None ]
        | Rejected m => Some [Alert ("Conversion failed: " ++ failure_message m)%string]
        | Pending => None
        end
  end.

(** [handleConvert()], for the state [file], [outputType], [splitMode] of
    the page and the promise [fetched] its one call of [fetch] returns:
    the events of the run, as far as it gets.  A run that awaits a
    pending promise stops there, before the [finally] block. *)
Definition handleConvert (file : option File) (outputType splitMode : string)
  (fetched : promise FetchResponse) : list ui_event :=
  match file with
  | None => []
  | Some f =>
      if (maxSize <? size f)%N then [Alert (too_large (size f))]
      else
        [SetIsConverting true; Fetch f outputType splitMode]
        ++ match conversion outputType fetched with
           | Some shown => shown ++ [SetIsConverting false]
           | None => []
           end
  end.

End Page.

(** The [disabled] attribute of the Convert button:
    [!file || isConverting || (file !== null && file.size > 10 * 1024 * 1024)]. *)
Definition convert_disabled (file : option File) (isConverting : bool) : bool :=
  match file with
  | None => true
  | Some f => isConverting || (maxSize <? size f)%N
  end.

(** One outcome is shown to the user: a dialog, or a download under the
    name [converted.<kind>] with the preview set (text) or cleared
    (binary). *)
Definition one_outcome (outputType : string) (shown : list ui_event) : bool :=
  match shown with
  | [Alert _] => true
  | [SetConvertedText (Some t); Download (Text t') n] =>
      (t =? t')%string && (n =? "converted." ++ outputType)%string
  | [Download (Binary _) n; SetConvertedText None] =>
      (n =? "converted." ++ outputType)%string
  | _ => false
  end.

(** The response [res] the page receives carries the answer [r] of the
    route: its status and content type, and the body as the route wrote
    it ([NextResponse.json({ error })] read back by [res.json()], a text
    by [res.text()], bytes by [res.blob()]). *)
Definition delivers (r : Response) (res : FetchResponse) : Prop :=
  res_status res = status r
  /\ res_contentType res = Some (contentType r)
  /\ match responseBody r with
     | ErrorJson m => res_json res = Fulfilled (VObj [("error", VStr m)])
     | Converted (Text s) => res_text res = Fulfilled s
     | Converted (Binary b) => res_blob res = Fulfilled b
     end.

(** The promise of [fetch] and those of the body have settled. *)
Definition all_settled (fetched : promise FetchResponse) : bool :=
  match fetched with
  | Fulfilled res =>
      is_settled (res_json res) && is_settled (res_text res) && is_settled (res_blob res)
  | Rejected _ => true
  | Pending => false
  end.

(** The kinds whose payload is a text, and those whose payload is an
    image. *)
Definition text_kind (out : string) : bool :=
  ((out =? "md") || (out =? "txt") || (out =? "json") || (out =? "csv"))%string.

Definition image_kind (out : string) : bool :=
  ((out =? "png") || (out =? "jpg") || (out =? "jpeg"))%string.

(** A small upload for the page. *)
Definition small_file : File := mkFile "notes.txt" "text/plain" (list_byte_of_string "Title").

(** A value without keys to enumerate: [null], a boolean or a number. *)
Definition keyless (v : value) : bool :=
  match v with
  | VNull | VBool _ | VNum _ => true
  | VStr _ | VArr _ | VObj _ => false
  end.

(** * Proofs *)

(** ** Strings: splitting and joining on dots *)

Lemma split_no_dot k : no_dot k = true -> split "." k = [k].
Proof.
  induction k as [|c k IH]; simpl; [reflexivity|].
  intros H. apply andb_prop in H as [Hc Hk].
  destruct (c =? ".")%char; [discriminate|].
  rewrite (IH Hk). reflexivity.
Qed.

Lemma split_app_dot k t :
  no_dot k = true -> split "." (k ++ "." ++ t) = k :: split "." t.
Proof.
  change ("." ++ t)%string with (String "." t).
  induction k as [|c k IH]; simpl; [reflexivity|].
  intros H. apply andb_prop in H as [Hc Hk].
  destruct (c =? ".")%char; [discriminate|].
  rewrite (IH Hk). reflexivity.
Qed.

Lemma split_join path :
  path <> [] -> Forall (fun k => no_dot k = true) path ->
  split "." (join "." path) = path.
Proof.
  induction path as [|k rest IH]; [congruence|].
  intros _ H. inversion H as [|? ? Hk Hrest]; subst.
  destruct rest as [|k' rest'].
  - simpl. apply split_no_dot; assumption.
  - change (join "." (k :: k' :: rest')) with (k ++ "." ++ join "." (k' :: rest'))%string.
    rewrite split_app_dot by assumption.
    rewrite IH; [reflexivity|discriminate|assumption].
Qed.

Lemma no_dot_app a b : no_dot (a ++ b) = no_dot a && no_dot b.
Proof. induction a as [|c a IH]; simpl; [reflexivity|]. rewrite IH, andb_assoc. reflexivity. Qed.

Lemma digits_value_no_dot s : forall acc n, digits_value s acc = Some n -> no_dot s = true.
Proof.
  induction s as [|c s IH]; simpl; intros acc n H; [reflexivity|].
  destruct (is_digit c) eqn:Hd; [|discriminate].
  rewrite (IH _ _ H), andb_true_r.
  destruct (c =? ".")%char eqn:E; [|reflexivity].
  apply Ascii.eqb_eq in E. subst c. discriminate.
Qed.

Lemma array_index_no_dot k n : array_index k = Some n -> no_dot k = true.
Proof.
  destruct k as [|c k]; simpl; [discriminate|].
  destruct (c =? "0")%char eqn:E0.
  - destruct (k =? "")%string eqn:Ek; [|discriminate].
    apply String.eqb_eq in Ek. apply Ascii.eqb_eq in E0. subst. reflexivity.
  - intros H.
    destruct (is_digit c) eqn:Hd; [|discriminate].
    destruct (digits_value k _) as [m|] eqn:Hm; [|discriminate].
    rewrite (digits_value_no_dot _ _ _ Hm), andb_true_r.
    destruct (c =? ".")%char eqn:E; [|reflexivity].
    apply Ascii.eqb_eq in E. subst c. discriminate.
Qed.

Lemma array_index_dotted a b : array_index (a ++ "." ++ b) = None.
Proof.
  destruct (array_index (a ++ "." ++ b)) as [n|] eqn:E; [|reflexivity].
  apply array_index_no_dot in E. rewrite no_dot_app in E. simpl in E.
  rewrite andb_false_r in E. discriminate.
Qed.

Lemma append_assoc (a b c : string) : ((a ++ b) ++ c = a ++ (b ++ c))%string.
Proof. induction a; simpl; congruence. Qed.

Lemma drop_app a b : drop (String.length a) (a ++ b) = b.
Proof. induction a; simpl; auto. Qed.

(** ** Property order and property writes *)

Lemma precedes_irrefl k : precedes k k = false.
Proof. unfold precedes. destruct (array_index k); [apply N.ltb_irrefl|reflexivity]. Qed.

Lemma precedes_none k k' : array_index k = None -> precedes k k' = false.
Proof. unfold precedes. intros ->. reflexivity. Qed.

Lemma in_order_neq k k' : in_order k k' = true -> k <> k'.
Proof.
  unfold in_order. intros H ->.
  destruct (array_index k').
  - rewrite N.ltb_irrefl in H. discriminate.
  - rewrite String.eqb_refl in H. discriminate.
Qed.

Lemma in_order_not_precedes k k' : in_order k k' = true -> precedes k' k = false.
Proof.
  unfold in_order, precedes.
  destruct (array_index k) as [i|], (array_index k') as [j|]; try reflexivity; try discriminate.
  intros H. apply N.ltb_lt in H. apply N.ltb_ge. lia.
Qed.

Lemma in_order_precedes k k' :
  in_order k k' = true -> array_index k <> None -> precedes k k' = true.
Proof.
  unfold in_order, precedes.
  destruct (array_index k) as [i|], (array_index k') as [j|]; try congruence.
Qed.

Lemma in_order_index_later k k' :
  in_order k k' = true -> array_index k' <> None -> array_index k <> None.
Proof.
  unfold in_order.
  destruct (array_index k) as [i|], (array_index k') as [j|]; congruence.
Qed.

Lemma has_own_false o k : has_own o k = false <-> ~ In k (keys o).
Proof.
  unfold has_own. induction o as [|[k' v] o IH]; simpl.
  - tauto.
  - destruct (k' =? k)%string eqn:E.
    + apply String.eqb_eq in E. split; [discriminate|]. intros H. exfalso. apply H. auto.
    + apply String.eqb_neq in E. rewrite IH. tauto.
Qed.

Lemma obj_get_none o k : obj_get o k = None <-> ~ In k (keys o).
Proof.
  rewrite <- has_own_false. unfold has_own. destruct (obj_get o k); split; congruence.
Qed.

Lemma obj_insert_between A B k v :
  Forall (fun a => precedes k (fst a) = false) A ->
  Forall (fun b => precedes k (fst b) = true) B ->
  obj_insert (A ++ B) k v = A ++ (k, v) :: B.
Proof.
  intros HA HB. induction HA as [|[k' v'] A Hk' HA IH]; simpl.
  - destruct HB as [|[kb vb] B Hb HB]; simpl; [reflexivity|].
    simpl in Hb. rewrite Hb. reflexivity.
  - simpl in Hk'. rewrite Hk', IH. reflexivity.
Qed.

Lemma obj_set_between A B k v :
  Forall (fun a => precedes k (fst a) = false /\ fst a <> k) A ->
  Forall (fun b => precedes k (fst b) = true) B ->
  obj_set (A ++ B) k v = A ++ (k, v) :: B.
Proof.
  intros HA HB. unfold obj_set.
  assert (Hfresh : has_own (A ++ B) k = false).
  { apply has_own_false. unfold keys. rewrite map_app, in_app_iff.
    intros [H|H]; apply in_map_iff in H as [[k' v'] [E Hin]]; simpl in E; subst k'.
    - rewrite Forall_forall in HA. destruct (HA _ Hin) as [_ Hne]. apply Hne. reflexivity.
    - rewrite Forall_forall in HB. specialize (HB _ Hin). simpl in HB.
      rewrite precedes_irrefl in HB. discriminate. }
  rewrite Hfresh. apply obj_insert_between; [|assumption].
  eapply Forall_impl; [|exact HA]. simpl. tauto.
Qed.

Lemma obj_set_end A k v :
  Forall (fun a => precedes k (fst a) = false /\ fst a <> k) A ->
  obj_set A k v = A ++ [(k, v)].
Proof.
  intros HA. rewrite <- (app_nil_r A) at 1. apply obj_set_between; [assumption|constructor].
Qed.

Lemma obj_get_replace o k v :
  has_own o k = true -> obj_get (obj_replace o k v) k = Some v.
Proof.
  unfold has_own. induction o as [|[k' v'] o IH]; simpl; [discriminate|].
  destruct (k' =? k)%string eqn:E; simpl; rewrite E; [reflexivity|assumption].
Qed.

Lemma obj_get_insert o k v :
  has_own o k = false -> obj_get (obj_insert o k v) k = Some v.
Proof.
  unfold has_own. induction o as [|[k' v'] o IH]; simpl.
  - rewrite String.eqb_refl. reflexivity.
  - destruct (k' =? k)%string eqn:E; [discriminate|].
    intros H. destruct (precedes k k'); simpl.
    + rewrite String.eqb_refl. reflexivity.
    + rewrite E. apply IH. assumption.
Qed.

Lemma obj_get_set o k v : obj_get (obj_set o k v) k = Some v.
Proof.
  unfold obj_set. destruct (has_own o k) eqn:E.
  - apply obj_get_replace; assumption.
  - apply obj_get_insert; assumption.
Qed.

Lemma has_own_set o k v : has_own (obj_set o k v) k = true.
Proof. unfold has_own. rewrite obj_get_set. reflexivity. Qed.

Lemma obj_replace_replace o k a b :
  obj_replace (obj_replace o k a) k b = obj_replace o k b.
Proof.
  induction o as [|[k' v'] o IH]; simpl; [reflexivity|].
  destruct (k' =? k)%string eqn:E; simpl; rewrite E; [reflexivity|].
  rewrite IH. reflexivity.
Qed.

Lemma obj_replace_insert o k a b :
  has_own o k = false -> obj_replace (obj_insert o k a) k b = obj_insert o k b.
Proof.
  unfold has_own. induction o as [|[k' v'] o IH]; simpl.
  - rewrite String.eqb_refl. reflexivity.
  - destruct (k' =? k)%string eqn:E; [discriminate|].
    intros H. destruct (precedes k k'); simpl.
    + rewrite String.eqb_refl. reflexivity.
    + rewrite E, IH by assumption. reflexivity.
Qed.

Lemma obj_set_set o k a b : obj_set (obj_set o k a) k b = obj_set o k b.
Proof.
  unfold obj_set at 1. rewrite has_own_set.
  unfold obj_set. destruct (has_own o k) eqn:E.
  - apply obj_replace_replace.
  - apply obj_replace_insert. assumption.
Qed.

Lemma obj_set_same o k v : obj_get o k = Some v -> obj_set o k v = o.
Proof.
  intros H. unfold obj_set, has_own. rewrite H.
  induction o as [|[k' v'] o IH]; simpl in *; [discriminate|].
  destruct (k' =? k)%string eqn:E.
  - congruence.
  - rewrite IH by assumption. reflexivity.
Qed.

(** ** Reading a FlatRecord back, key by key *)

Lemma leaves_obj o : leaves (VObj o) = flat_map leaves_of_entry o.
Proof.
  simpl. apply flat_map_ext. intros [k x]. unfold leaves_of_entry. simpl.
  destruct x; reflexivity.
Qed.

Lemma leaves_paths_nonempty v : forall pv, In pv (leaves v) -> fst pv <> [].
Proof.
  induction v using value_nested_ind; try (simpl; tauto).
  rewrite leaves_obj. intros pv Hin. apply in_flat_map in Hin as [[k x] [Hk Hin]].
  unfold leaves_of_entry in Hin. simpl in Hin.
  destruct x; simpl in Hin;
    try (destruct Hin as [<-|[]]; simpl; discriminate).
  apply in_map_iff in Hin as [pv' [<- _]]. simpl. discriminate.
Qed.

Lemma assign_paths_cons P pv L acc :
  assign_paths P (pv :: L) acc =
  match assign_path P acc (fst pv) (snd pv) with
  | Ok r => assign_paths (snd r) L (fst r)
  | Throw e => Throw e
  | Unmodelled => Unmodelled
  end.
Proof.
  unfold assign_paths. simpl.
  destruct (assign_path P acc (fst pv) (snd pv)) as [[o' P']| |]; simpl; [reflexivity| |].
  - induction L; simpl; auto.
  - induction L; simpl; auto.
Qed.

Lemma assign_paths_app P L1 L2 acc :
  assign_paths P (L1 ++ L2) acc =
  match assign_paths P L1 acc with
  | Ok r => assign_paths (snd r) L2 (fst r)
  | Throw e => Throw e
  | Unmodelled => Unmodelled
  end.
Proof.
  revert P acc. induction L1 as [|pv L1 IH]; intros P acc.
  - reflexivity.
  - simpl app.
    rewrite (assign_paths_cons P pv (L1 ++ L2)), (assign_paths_cons P pv L1).
    destruct (assign_path P acc (fst pv) (snd pv)) as [[o' P']| |]; simpl; auto.
Qed.

Lemma assign_path_single P current k v :
  k <> "__proto__" -> assign_path P current [k] v = Ok (obj_set current k v, P).
Proof.
  intros H. simpl. unfold js_put. apply String.eqb_neq in H. rewrite H. reflexivity.
Qed.

Lemma assign_path_descend P current k k2 rest v child :
  obj_get current k = Some (VObj child) ->
  assign_path P current (k :: k2 :: rest) v =
  (r <- assign_path P child (k2 :: rest) v ;;
   Ok (obj_set current k (VObj (fst r)), snd r))%outcome.
Proof.
  intros H. cbn [assign_path]. unfold js_get. rewrite H. reflexivity.
Qed.

Lemma assign_path_create P current k k2 rest v :
  js_get P current k = Undefined ->
  assign_path P current (k :: k2 :: rest) v =
  (r <- assign_path P [] (k2 :: rest) v ;;
   Ok (obj_set current k (VObj (fst r)), snd r))%outcome.
Proof.
  intros H. cbn [assign_path]. rewrite H. reflexivity.
Qed.

Lemma assign_group_existing L :
  (forall pv, In pv L -> fst pv <> []) ->
  forall P acc k child child' P',
    obj_get acc k = Some (VObj child) ->
    assign_paths P L child = Ok (child', P') ->
    assign_paths P (map (fun pv => (k :: fst pv, snd pv)) L) acc
    = Ok (obj_set acc k (VObj child'), P').
Proof.
  induction L as [|[path v] L IH]; intros Hne P acc k child child' P' Hget Hfold.
  - unfold assign_paths in *. simpl in *. inversion Hfold; subst.
    rewrite obj_set_same by assumption. reflexivity.
  - simpl map. rewrite assign_paths_cons in *. simpl fst in *. simpl snd in *.
    destruct path as [|k2 rest]; [exfalso; apply (Hne ([], v)); simpl; auto|].
    rewrite (assign_path_descend _ _ _ _ _ _ _ Hget).
    destruct (assign_path P child (k2 :: rest) v) as [[c1 P1]| |]; try discriminate.
    simpl. simpl in Hfold.
    rewrite (IH (fun pv H => Hne pv (or_intror H)) P1 _ k c1 child' P').
    + rewrite obj_set_set. reflexivity.
    + apply obj_get_set.
    + assumption.
Qed.

Lemma assign_group_new L :
  L <> [] ->
  (forall pv, In pv L -> fst pv <> []) ->
  forall P acc k child' P',
    js_get P acc k = Undefined ->
    assign_paths P L [] = Ok (child', P') ->
    assign_paths P (map (fun pv => (k :: fst pv, snd pv)) L) acc
    = Ok (obj_set acc k (VObj child'), P').
Proof.
  destruct L as [|[path v] L]; [congruence|].
  intros _ Hne P acc k child' P' Hget Hfold.
  simpl map. rewrite assign_paths_cons in *. simpl fst in *. simpl snd in *.
  destruct path as [|k2 rest]; [exfalso; apply (Hne ([], v)); simpl; auto|].
  rewrite (assign_path_create _ _ _ _ _ _ Hget).
  destruct (assign_path P [] (k2 :: rest) v) as [[c1 P1]| |]; try discriminate.
  simpl. simpl in Hfold.
  rewrite (assign_group_existing L (fun pv H => Hne pv (or_intror H)) P1 _ k c1 child' P').
  - rewrite obj_set_set. reflexivity.
  - apply obj_get_set.
  - assumption.
Qed.

(** ** Entries arriving in property order *)

Lemma property_order_app A B :
  property_order (A ++ B) = true <->
  property_order A = true /\ property_order B = true /\
  (forall a b, In a A -> In b B -> in_order (fst a) (fst b) = true).
Proof.
  induction A as [|[k v] A IH]; simpl.
  - split; [intros H; repeat split; auto; intros ? ? []|tauto].
  - rewrite !andb_true_iff, !forallb_forall, IH. split.
    + intros [H1 [H2 [H3 H4]]].
      split; [split; [|exact H2]|split; [exact H3|]].
      * intros x Hx. apply H1. apply in_or_app. auto.
      * intros a b [<-|Ha] Hb; [apply H1, in_or_app; auto|auto].
    + intros [[H1 H2] [H3 H4]].
      split; [|split; [exact H2|split; [exact H3|]]].
      * intros x Hx. apply in_app_or in Hx as [Hx|Hx]; [auto|].
        apply (H4 (k, v) x); auto.
      * intros a b Ha Hb. apply H4; auto.
Qed.

Lemma property_order_cons k v B :
  property_order ((k, v) :: B) = true <->
  (forall b, In b B -> in_order k (fst b) = true) /\ property_order B = true.
Proof. simpl. rewrite andb_true_iff, forallb_forall. tauto. Qed.

Lemma property_order_filter (sel : string * value -> bool) o :
  property_order o = true -> property_order (filter sel o) = true.
Proof.
  induction o as [|[k v] o IH]; simpl; [auto|].
  rewrite andb_true_iff, forallb_forall. intros [H1 H2].
  destruct (sel (k, v)); [|auto].
  apply property_order_cons. split; [|auto].
  intros b Hb. apply filter_In in Hb as [Hb _]. auto.
Qed.

Lemma assign_entry (e : string * value) A B :
  entry_ok e ->
  Forall (fun a => precedes (fst e) (fst a) = false /\ fst a <> fst e) A ->
  Forall (fun b => precedes (fst e) (fst b) = true) B ->
  assign_paths [] (leaves_of_entry e) (A ++ B) = Ok (A ++ e :: B, []).
Proof.
  destruct e as [k x]. unfold entry_ok. simpl fst. simpl snd. intros [Hproto Hx] HA HB.
  assert (Hset : forall y, obj_set (A ++ B) k y = A ++ (k, y) :: B)
    by (intros y; apply obj_set_between; assumption).
  assert (Hleaf : assign_paths [] [([k], x)] (A ++ B) = Ok (A ++ (k, x) :: B, [])).
  { rewrite assign_paths_cons. simpl fst. simpl snd.
    rewrite assign_path_single by assumption. simpl. rewrite Hset. reflexivity. }
  unfold leaves_of_entry. simpl fst. simpl snd.
  destruct x; try exact Hleaf.
  destruct Hx as [Hb [Hne Hrec]].
  rewrite (assign_group_new _ Hne (leaves_paths_nonempty (VObj o)) [] (A ++ B) k o []).
  - rewrite Hset. reflexivity.
  - unfold js_get.
    assert (Hnone : obj_get (A ++ B) k = None).
    { apply obj_get_none. unfold keys. rewrite map_app, in_app_iff.
      intros [H|H]; apply in_map_iff in H as [[k' v'] [E Hin]]; simpl in E; subst k'.
      - rewrite Forall_forall in HA. destruct (HA _ Hin) as [_ Hn]. apply Hn. reflexivity.
      - rewrite Forall_forall in HB. specialize (HB _ Hin). simpl in HB.
        rewrite precedes_irrefl in HB. discriminate. }
    rewrite Hnone. apply String.eqb_neq in Hproto. rewrite Hproto. simpl. rewrite Hb. reflexivity.
  - assumption.
Qed.

Section Selected.
(** Entries that were written ahead of their turn: leaves under
    array-index keys. *)
Variable sel : string * value -> bool.
Hypothesis sel_index : forall e, sel e = true -> array_index (fst e) <> None.

Lemma assign_entries todo : forall done,
  property_order (done ++ todo) = true ->
  Forall entry_ok todo ->
  assign_paths []
    (flat_map leaves_of_entry (filter (fun e => negb (sel e)) todo))
    (done ++ filter sel todo)
  = Ok (done ++ todo, []).
Proof.
  induction todo as [|e todo IH]; intros done Hord Hok.
  - simpl. rewrite app_nil_r. reflexivity.
  - inversion Hok as [|? ? He Hok']; subst.
    assert (Hord' : property_order ((done ++ [e]) ++ todo) = true)
      by (rewrite <- app_assoc; exact Hord).
    specialize (IH (done ++ [e]) Hord' Hok').
    rewrite <- !app_assoc in IH. change ([e] ++ todo) with (e :: todo) in IH.
    simpl filter. destruct (sel e) eqn:Hsel; simpl negb; cbv iota.
    + exact IH.
    + simpl flat_map. rewrite assign_paths_app.
      apply property_order_app in Hord as [_ [Htodo Hcross]].
      destruct e as [k x].
      apply property_order_cons in Htodo as [Hlater _].
      rewrite (assign_entry (k, x) done (filter sel todo) He).
      * exact IH.
      * apply Forall_forall. intros a Ha.
        specialize (Hcross a (k, x) Ha (or_introl eq_refl)). simpl in *.
        split; [apply in_order_not_precedes; assumption|apply in_order_neq; assumption].
      * apply Forall_forall. intros b Hb. apply filter_In in Hb as [Hb Hsb].
        specialize (Hlater b Hb). simpl.
        apply in_order_precedes; [assumption|].
        eapply in_order_index_later; [exact Hlater|]. apply sel_index. assumption.
Qed.
End Selected.

Lemma filter_all {A} (l : list A) : filter (fun _ => true) l = l.
Proof. induction l as [|a l IH]; simpl; [reflexivity|f_equal; exact IH]. Qed.

Lemma filter_none {A} (l : list A) : filter (fun _ => false) l = [].
Proof. induction l as [|a l IH]; simpl; [reflexivity|exact IH]. Qed.

Lemma assign_leaves_in_order o :
  property_order o = true -> Forall entry_ok o ->
  assign_paths [] (leaves (VObj o)) [] = Ok (o, []).
Proof.
  intros Hord Hok. rewrite leaves_obj.
  pose proof (assign_entries (fun _ => false) (fun e H => False_ind _ (Bool.diff_false_true H))
                o [] Hord Hok) as H.
  cbn beta in H. change (negb false) with true in H.
  rewrite filter_all, filter_none in H. exact H.
Qed.

Lemma Forall_filter {A} (Q : A -> Prop) f (l : list A) : Forall Q l -> Forall Q (filter f l).
Proof.
  intros H. apply Forall_forall. intros x Hx. apply filter_In in Hx as [Hx _].
  rewrite Forall_forall in H. auto.
Qed.

(** The order in which a flattened top-level record is read back: leaves
    under array-index keys first, then everything else. *)
Lemma assign_leaves_reordered (sel : string * value -> bool) o :
  (forall e, sel e = true -> array_index (fst e) <> None) ->
  property_order o = true -> Forall entry_ok o ->
  assign_paths []
    (flat_map leaves_of_entry (filter sel o)
     ++ flat_map leaves_of_entry (filter (fun e => negb (sel e)) o)) []
  = Ok (o, []).
Proof.
  intros Hsel Hord Hok. rewrite assign_paths_app.
  pose proof (assign_leaves_in_order (filter sel o)
                (property_order_filter sel o Hord) (Forall_filter _ _ _ Hok)) as H1.
  rewrite leaves_obj in H1. rewrite H1. simpl fst. simpl snd.
  exact (assign_entries sel Hsel o [] Hord Hok).
Qed.

(** ** What [roundtrippable] provides *)

Lemma forallb_pointwise {A} (f g : A -> bool) (l : list A) :
  (forall a, f a = g a) -> forallb f l = forallb g l.
Proof. intros H. induction l as [|a l IH]; simpl; [reflexivity|rewrite H, IH; reflexivity]. Qed.

Lemma roundtrippable_obj top o :
  roundtrippable top (VObj o) = property_order o && forallb (roundtrippable_entry top) o.
Proof.
  simpl. f_equal. apply forallb_pointwise. intros [k x]. unfold roundtrippable_entry. simpl.
  destruct x; reflexivity.
Qed.

Lemma roundtrippable_entry_inv top k x :
  roundtrippable_entry top (k, x) = true ->
  no_dot k = true /\ k <> "__proto__" /\ k <> "hasOwnProperty" /\
  match x with
  | VObj o' =>
      builtin_member k = false /\ (top = true -> k <> "") /\ o' <> [] /\
      roundtrippable false x = true
  | _ => True
  end.
Proof.
  unfold roundtrippable_entry. simpl fst. simpl snd.
  rewrite !andb_true_iff, !negb_true_iff. intros [[[H1 H2] H3] H4].
  apply String.eqb_neq in H2, H3. repeat split; auto.
  destruct x; auto.
  rewrite !andb_true_iff, !negb_true_iff in H4. destruct H4 as [[[H4 H5] H6] H7].
  repeat split; auto.
  - intros -> E. subst k. discriminate.
  - destruct o; [discriminate|discriminate].
Qed.

Lemma roundtrippable_walk v :
  forall top, roundtrippable top v = true ->
  match v with
  | VObj o =>
      property_order o = true /\ Forall entry_ok o /\ (o <> [] -> leaves v <> [])
  | _ => True
  end.
Proof.
  induction v as [| | | | |o IH] using value_nested_ind; auto.
  intros top Hreg. rewrite roundtrippable_obj in Hreg.
  apply andb_prop in Hreg as [Hord Hall]. rewrite forallb_forall in Hall.
  split; [assumption|]. split.
  - apply Forall_forall. intros [k x] Hin.
    rewrite Forall_forall in IH. specialize (IH _ Hin). simpl in IH.
    destruct (roundtrippable_entry_inv _ _ _ (Hall _ Hin)) as [Hk [Hp [Hh Hx]]].
    split; [assumption|]. simpl snd. simpl fst.
    destruct x; auto.
    destruct Hx as [Hb [_ [Hne Hr]]].
    destruct (IH false Hr) as [Ho [Hok Hl]].
    split; [assumption|]. split; [auto|].
    apply assign_leaves_in_order; assumption.
  - intros Hne. destruct o as [|[k x] o]; [congruence|].
    rewrite leaves_obj. simpl flat_map.
    assert (Hin : In (k, x) ((k, x) :: o)) by (left; reflexivity).
    rewrite Forall_forall in IH. specialize (IH _ Hin). simpl in IH.
    destruct (roundtrippable_entry_inv _ _ _ (Hall _ Hin)) as [_ [_ [_ Hx]]].
    unfold leaves_of_entry at 1. simpl fst. simpl snd.
    destruct x; try discriminate.
    destruct Hx as [_ [_ [Hne' Hr]]].
    destruct (IH false Hr) as [_ [_ Hl]]. specialize (Hl Hne').
    destruct (leaves (VObj o0)); [congruence|discriminate].
Qed.

(** ** Flattened keys *)

Lemma newKey_nonempty p k : p <> "" -> newKey p k = (p ++ "." ++ k)%string.
Proof. intros H. unfold newKey. apply String.eqb_neq in H. rewrite H. reflexivity. Qed.

Lemma append_nonempty_l (a b : string) : a <> "" -> (a ++ b)%string <> "".
Proof. destruct a; simpl; congruence. Qed.

Lemma path_key_under p path :
  p <> "" -> path <> [] -> path_key p path = (p ++ "." ++ join "." path)%string.
Proof.
  revert p. induction path as [|k rest IH]; intros p Hp Hne; [congruence|].
  unfold path_key. simpl fold_left. fold (path_key (newKey p k) rest).
  destruct rest as [|k2 rest'].
  - simpl. apply newKey_nonempty; assumption.
  - rewrite IH; [|rewrite newKey_nonempty by assumption; apply append_nonempty_l; assumption|discriminate].
    rewrite newKey_nonempty by assumption.
    change (join "." (k :: k2 :: rest')) with (k ++ "." ++ join "." (k2 :: rest'))%string.
    rewrite !append_assoc. reflexivity.
Qed.

(** At top level the key is the dotted path, unless the empty key heads
    a longer path. *)
Lemma path_key_top k rest :
  (rest <> [] -> k <> "") -> path_key "" (k :: rest) = join "." (k :: rest).
Proof.
  intros Hk. destruct rest as [|k2 rest']; [reflexivity|].
  change (path_key "" (k :: k2 :: rest')) with (path_key k (k2 :: rest')).
  rewrite path_key_under; [reflexivity|apply Hk; discriminate|discriminate].
Qed.

(** ** The loop of [flattenObject] *)

Lemma fold_left_pointwise {A B} (f g : A -> B -> A) (l : list B) (a : A) :
  (forall x y, f x y = g x y) -> fold_left f l a = fold_left g l a.
Proof. intros H. revert a. induction l as [|b l IH]; simpl; intros a; [reflexivity|rewrite H; apply IH]. Qed.

Lemma flattenObject_obj P o p :
  flattenObject P (VObj o) p =
  if own_loop_fails P o then Throw NotAFunction
  else fold_left (flatten_step P p) o (Ok []).
Proof.
  simpl. destruct (own_loop_fails P o); [reflexivity|].
  apply fold_left_pointwise. intros acc [k x]. unfold flatten_step. simpl.
  destruct x; reflexivity.
Qed.

Lemma assign_cons acc kv sub :
  assign acc (kv :: sub) =
  (t <- js_put acc (fst kv) (snd kv) ;; assign t sub)%outcome.
Proof.
  unfold assign. simpl.
  destruct (js_put acc (fst kv) (snd kv)); simpl; [reflexivity| |].
  - induction sub; simpl; auto.
  - induction sub; simpl; auto.
Qed.

Lemma js_put_fresh acc k v :
  k <> "__proto__" -> array_index k = None -> ~ In k (keys acc) ->
  js_put acc k v = Ok (acc ++ [(k, v)]).
Proof.
  intros Hp Hi Hf. unfold js_put. apply String.eqb_neq in Hp. rewrite Hp.
  rewrite obj_set_end; [reflexivity|].
  apply Forall_forall. intros a Ha. split; [apply precedes_none; assumption|].
  intros E. apply Hf. rewrite <- E. apply in_map. assumption.
Qed.

Lemma assign_append sub : forall acc,
  NoDup (keys sub) ->
  Forall (fun kv => fst kv <> "__proto__" /\ array_index (fst kv) = None
                    /\ ~ In (fst kv) (keys acc)) sub ->
  assign acc sub = Ok (acc ++ sub).
Proof.
  induction sub as [|[k v] sub IH]; intros acc Hnd Hall.
  - unfold assign. simpl. rewrite app_nil_r. reflexivity.
  - rewrite assign_cons. simpl fst. simpl snd.
    inversion Hall as [|? ? [Hp [Hi Hf]] Hall']; subst. simpl in Hp, Hi, Hf.
    inversion Hnd as [|? ? Hk Hnd']; subst.
    rewrite js_put_fresh by assumption. simpl.
    rewrite IH; [rewrite <- app_assoc; reflexivity|assumption|].
    apply Forall_forall. intros [k' v'] Hin. rewrite Forall_forall in Hall'.
    destruct (Hall' _ Hin) as [Hp' [Hi' Hf']]. simpl in *.
    repeat split; auto. unfold keys. rewrite map_app, in_app_iff. simpl.
    intros [H|[H|[]]]; [auto|]. subst k'. apply Hk. change k with (fst (k, v')).
    apply in_map. assumption.
Qed.

Lemma newKey_pre p k : newKey p k = (pre p ++ k)%string.
Proof.
  unfold newKey, pre. destruct (p =? "")%string; [reflexivity|].
  rewrite append_assoc. reflexivity.
Qed.

Lemma length_pre_drop p s : drop (String.length (pre p)) (pre p ++ s) = s.
Proof. apply drop_app. Qed.

Lemma keyed_record p k x :
  is_record x = true ->
  keyed p (k, x) =
  map (fun pv => (path_key (newKey p k) (fst pv), snd pv)) (leaves x).
Proof.
  intros H. unfold keyed, leaves_of_entry. simpl fst. simpl snd.
  destruct x; try discriminate. rewrite map_map. reflexivity.
Qed.

Lemma keyed_record_flat p k o :
  keyed p (k, VObj o) = flat_map (keyed (newKey p k)) o.
Proof.
  rewrite keyed_record by reflexivity. rewrite leaves_obj.
  induction o as [|e o IH]; simpl; [reflexivity|].
  rewrite map_app, IH. reflexivity.
Qed.

Lemma keyed_leaf p k x :
  is_record x = false -> keyed p (k, x) = [(newKey p k, x)].
Proof.
  intros H. unfold keyed, leaves_of_entry. simpl fst. simpl snd.
  destruct x; try discriminate; reflexivity.
Qed.

(** The keys produced for one entry, when nested records get a non-empty
    prefix. *)
Lemma keyed_shape p k x kv :
  (is_record x = true -> newKey p k <> "") ->
  In kv (keyed p (k, x)) ->
  fst kv = newKey p k \/ exists t, fst kv = (newKey p k ++ "." ++ t)%string.
Proof.
  intros Hrec Hin. destruct (is_record x) eqn:Hx.
  - rewrite keyed_record in Hin by assumption.
    apply in_map_iff in Hin as [[path v] [<- Hin]]. simpl.
    right. exists (join "." path).
    apply path_key_under; [auto|].
    apply (leaves_paths_nonempty x (path, v)). assumption.
  - rewrite keyed_leaf in Hin by assumption.
    destruct Hin as [<-|[]]. left. reflexivity.
Qed.

Lemma keyed_first_segment p k x kv :
  no_dot k = true ->
  (is_record x = true -> newKey p k <> "") ->
  In kv (keyed p (k, x)) -> first_segment p (fst kv) = k.
Proof.
  intros Hk Hrec Hin. unfold first_segment.
  destruct (keyed_shape p k x kv Hrec Hin) as [E|[t E]]; rewrite E, newKey_pre.
  - rewrite length_pre_drop, split_no_dot by assumption. reflexivity.
  - rewrite append_assoc, length_pre_drop, split_app_dot by assumption. reflexivity.
Qed.

Lemma dotted_not_proto a b : (a ++ "." ++ b)%string <> "__proto__".
Proof.
  intros E. assert (H : no_dot (a ++ "." ++ b) = true) by (rewrite E; reflexivity).
  rewrite no_dot_app in H. simpl in H. rewrite andb_false_r in H. discriminate.
Qed.

Lemma keyed_not_proto p k x kv :
  k <> "__proto__" ->
  (is_record x = true -> newKey p k <> "") ->
  In kv (keyed p (k, x)) -> fst kv <> "__proto__".
Proof.
  intros Hk Hrec Hin.
  destruct (keyed_shape p k x kv Hrec Hin) as [E|[t E]]; rewrite E.
  - unfold newKey. destruct (p =? "")%string; [assumption|apply dotted_not_proto].
  - apply dotted_not_proto.
Qed.

Lemma keyed_not_index p k x kv :
  (is_record x = true -> newKey p k <> "") ->
  index_leaf p (k, x) = false ->
  In kv (keyed p (k, x)) -> array_index (fst kv) = None.
Proof.
  intros Hrec Hsel Hin.
  destruct (keyed_shape p k x kv Hrec Hin) as [E|[t E]]; rewrite E.
  - unfold index_leaf in Hsel. simpl in Hsel. unfold newKey.
    destruct (p =? "")%string eqn:Ep; [|apply array_index_dotted].
    destruct (is_record x) eqn:Hx.
    + rewrite keyed_record in Hin by assumption.
      apply in_map_iff in Hin as [[path v] [Epv Hin]]. simpl in E. subst kv. simpl in E.
      pose proof (leaves_paths_nonempty x (path, v) Hin) as Hne. simpl in Hne.
      rewrite path_key_under in E by auto.
      destruct (array_index k) eqn:Ek; [|reflexivity].
      exfalso. apply array_index_no_dot in Ek.
      assert (H : no_dot (newKey p k) = true).
      { unfold newKey. rewrite Ep. assumption. }
      rewrite <- E in H. rewrite no_dot_app in H. simpl in H.
      rewrite andb_false_r in H. discriminate.
    + simpl in Hsel. destruct (array_index k); [discriminate|reflexivity].
  - apply array_index_dotted.
Qed.

(** Keys stay unique under property writes. *)

Lemma keys_replace o k v : keys (obj_replace o k v) = keys o.
Proof.
  induction o as [|[k' v'] o IH]; simpl; [reflexivity|].
  destruct (k' =? k)%string; simpl; [reflexivity|rewrite IH; reflexivity].
Qed.

Lemma keys_insert_in o k v x : In x (keys (obj_insert o k v)) <-> x = k \/ In x (keys o).
Proof.
  induction o as [|[k' v'] o IH]; simpl.
  - intuition.
  - destruct (precedes k k'); simpl; [intuition|]. rewrite IH. intuition.
Qed.

Lemma obj_insert_nodup o k v :
  ~ In k (keys o) -> NoDup (keys o) -> NoDup (keys (obj_insert o k v)).
Proof.
  induction o as [|[k' v'] o IH]; simpl; intros Hk Hnd.
  - constructor; [intros []|constructor].
  - inversion Hnd as [|? ? Hk' Hnd']; subst.
    destruct (precedes k k'); simpl.
    + constructor; [simpl; tauto|assumption].
    + constructor; [|apply IH; tauto].
      rewrite keys_insert_in. intros [E|H]; [apply Hk; left; assumption|contradiction].
Qed.

Lemma obj_set_nodup o k v : NoDup (keys o) -> NoDup (keys (obj_set o k v)).
Proof.
  intros H. unfold obj_set. destruct (has_own o k) eqn:E.
  - rewrite keys_replace. assumption.
  - apply obj_insert_nodup; [apply has_own_false|]; assumption.
Qed.

Lemma js_put_unique o k v : NoDup (keys o) -> unique_keys (js_put o k v).
Proof.
  intros H. unfold js_put. destruct (k =? "__proto__")%string; simpl; [exact I|].
  apply obj_set_nodup. assumption.
Qed.

Lemma assign_unique sub : forall acc, NoDup (keys acc) -> unique_keys (assign acc sub).
Proof.
  induction sub as [|kv sub IH]; intros acc H.
  - exact H.
  - rewrite assign_cons. pose proof (js_put_unique acc (fst kv) (snd kv) H) as Hp.
    destruct (js_put acc (fst kv) (snd kv)); simpl; auto.
Qed.

Lemma flatten_step_unique P p acc kv :
  unique_keys acc -> unique_keys (flatten_step P p acc kv).
Proof.
  intros H. unfold flatten_step. destruct acc as [flattened| |]; simpl; auto.
  destruct (snd kv); try (apply js_put_unique; assumption).
  destruct (flattenObject P (VObj o) (newKey p (fst kv))); simpl; auto.
  apply assign_unique. assumption.
Qed.

Lemma flattenObject_unique P v p : unique_keys (flattenObject P v p).
Proof.
  destruct v; try exact I;
    try (simpl; destruct (own_loop_fails P []); simpl; [exact I|constructor]);
    try (simpl; constructor).
  rewrite flattenObject_obj. destruct (own_loop_fails P o); [exact I|].
  assert (H : forall l acc, unique_keys acc ->
                            unique_keys (fold_left (flatten_step P p) l acc)).
  { induction l as [|kv l IH]; simpl; intros acc Hacc; [assumption|].
    apply IH. apply flatten_step_unique. assumption. }
  apply H. simpl. constructor.
Qed.

Section FlattenLoop.
Variable p : string.

Lemma flat_entries_snoc done e :
  flat_entries p (done ++ [e]) =
  if index_leaf p e
  then (flat_map (keyed p) (filter (index_leaf p) done) ++ keyed p e)
       ++ flat_map (keyed p) (filter (fun e => negb (index_leaf p e)) done)
  else flat_entries p done ++ keyed p e.
Proof.
  unfold flat_entries. rewrite !filter_app, !flat_map_app. simpl filter.
  destruct (index_leaf p e); simpl; rewrite !app_nil_r.
  - reflexivity.
  - rewrite app_assoc. reflexivity.
Qed.

Lemma in_flat_entries done key :
  In key (keys (flat_entries p done)) ->
  exists e kv, In e done /\ In kv (keyed p e) /\ fst kv = key.
Proof.
  unfold flat_entries, keys. rewrite map_app, in_app_iff.
  intros [H|H]; apply in_map_iff in H as [kv [E H]];
    apply in_flat_map in H as [e [He Hkv]]; apply filter_In in He as [He _];
    exists e, kv; auto.
Qed.

Lemma keyed_fresh done e kv :
  Forall (flat_ok p) (done ++ [e]) ->
  (forall a, In a done -> in_order (fst a) (fst e) = true) ->
  In kv (keyed p e) -> ~ In (fst kv) (keys (flat_entries p done)).
Proof.
  intros Hok Hord Hin Hdup.
  apply in_flat_entries in Hdup as [e' [kv' [He' [Hkv' E]]]].
  rewrite Forall_forall in Hok.
  destruct (Hok e (in_or_app _ _ _ (or_intror (in_eq _ _)))) as [Hd [_ Hr]].
  destruct (Hok e' (in_or_app _ _ _ (or_introl He'))) as [Hd' [_ Hr']].
  destruct e as [k x], e' as [k' x']. simpl in *.
  pose proof (keyed_first_segment p k x kv Hd (fun H => proj1 (Hr H)) Hin) as S1.
  pose proof (keyed_first_segment p k' x' kv' Hd' (fun H => proj1 (Hr' H)) Hkv') as S2.
  rewrite E, S1 in S2. subst k'.
  apply (in_order_neq _ _ (Hord _ He')). reflexivity.
Qed.

Lemma flatten_entries todo : forall done,
  property_order (done ++ todo) = true ->
  Forall (flat_ok p) (done ++ todo) ->
  fold_left (flatten_step [] p) todo (Ok (flat_entries p done))
  = Ok (flat_entries p (done ++ todo)).
Proof.
  induction todo as [|e todo IH]; intros done Hord Hok.
  - simpl. rewrite app_nil_r. reflexivity.
  - assert (Hord' : property_order ((done ++ [e]) ++ todo) = true)
      by (rewrite <- app_assoc; exact Hord).
    assert (Hok' : Forall (flat_ok p) ((done ++ [e]) ++ todo))
      by (rewrite <- app_assoc; exact Hok).
    specialize (IH (done ++ [e]) Hord' Hok').
    rewrite <- !app_assoc in IH. change ([e] ++ todo) with (e :: todo) in IH.
    rewrite <- IH.
    simpl fold_left. f_equal.
    apply property_order_app in Hord' as [Hde _].
    apply property_order_app in Hde as [_ [_ Hcross]].
    assert (Hbefore : forall a, In a done -> in_order (fst a) (fst e) = true)
      by (intros a Ha; apply Hcross; [assumption|left; reflexivity]).
    assert (Hoke : Forall (flat_ok p) (done ++ [e])).
    { apply Forall_forall. intros a Ha. rewrite Forall_forall in Hok'.
      apply Hok'. apply in_or_app. left. assumption. }
    pose proof (keyed_fresh done e) as Hfresh.
    rewrite Forall_forall in Hoke.
    destruct (Hoke e (in_or_app _ _ _ (or_intror (in_eq _ _)))) as [Hd [Hp Hr]].
    rewrite flat_entries_snoc. destruct e as [k x]. simpl fst in *. simpl snd in *.
    unfold flatten_step. simpl bind. simpl fst. simpl snd.
    destruct (index_leaf p (k, x)) eqn:Hsel.
    + (* a leaf under an array-index key, at top level *)
      unfold index_leaf in Hsel. simpl in Hsel.
      apply andb_prop in Hsel as [Hsel Hidx]. apply andb_prop in Hsel as [Hp0 Hleaf].
      apply String.eqb_eq in Hp0. apply negb_true_iff in Hleaf.
      rewrite keyed_leaf by assumption.
      replace (match x with VObj _ => _ | _ => js_put (flat_entries p done) (newKey p k) x end)
        with (js_put (flat_entries p done) (newKey p k) x)
        by (destruct x; try reflexivity; discriminate).
      unfold js_put.
      assert (Hk : newKey p k = k) by (rewrite Hp0; reflexivity). rewrite Hk.
      apply String.eqb_neq in Hp. rewrite Hp. f_equal.
      unfold flat_entries. rewrite obj_set_between.
      * rewrite <- app_assoc. reflexivity.
      * apply Forall_forall. intros a Ha.
        apply in_flat_map in Ha as [[k' x'] [He' Ha]].
        apply filter_In in He' as [He' Hsel'].
        unfold index_leaf in Hsel'. simpl in Hsel'.
        apply andb_prop in Hsel' as [Hsel' _]. apply andb_prop in Hsel' as [_ Hleaf'].
        apply negb_true_iff in Hleaf'.
        rewrite keyed_leaf in Ha by assumption. destruct Ha as [<-|[]]. simpl.
        rewrite Hp0. simpl. specialize (Hbefore _ He'). simpl in Hbefore.
        split; [apply in_order_not_precedes|apply in_order_neq]; assumption.
      * apply Forall_forall. intros b Hb.
        apply in_flat_map in Hb as [[k' x'] [He' Hb]].
        apply filter_In in He' as [He' Hsel']. apply negb_true_iff in Hsel'.
        destruct (Hoke (k', x') (in_or_app _ _ _ (or_introl He'))) as [_ [_ Hr']].
        simpl in Hr'.
        rewrite (keyed_not_index p k' x' b (fun H => proj1 (Hr' H)) Hsel' Hb) || idtac.
        unfold precedes.
        rewrite (keyed_not_index p k' x' b (fun H => proj1 (Hr' H)) Hsel' Hb).
        destruct (array_index k); [reflexivity|discriminate].
    + (* appended after everything written so far *)
      assert (Hrec : is_record x = true -> newKey p k <> "")
        by (intros H; apply Hr; exact H).
      destruct (is_record x) eqn:Hx.
      * destruct (Hr eq_refl) as [Hne Hflat].
        replace (match x with
                 | VObj _ => (sub <- flattenObject [] x (newKey p k);;
                              assign (flat_entries p done) sub)%outcome
                 | _ => js_put (flat_entries p done) (newKey p k) x end)
          with (sub <- flattenObject [] x (newKey p k);;
                assign (flat_entries p done) sub)%outcome
          by (destruct x; try discriminate; reflexivity).
        rewrite Hflat. simpl bind.
        apply assign_append.
        -- pose proof (flattenObject_unique [] x (newKey p k)) as Hu.
           rewrite Hflat in Hu. exact Hu.
        -- apply Forall_forall. intros kv Hkv. repeat split.
           ++ apply (keyed_not_proto p k x kv); auto.
           ++ apply (keyed_not_index p k x kv); auto.
           ++ apply Hfresh; auto. apply Forall_forall. exact Hoke.
      * replace (match x with VObj _ => _ | _ => js_put (flat_entries p done) (newKey p k) x end)
          with (js_put (flat_entries p done) (newKey p k) x)
          by (destruct x; try reflexivity; discriminate).
        rewrite keyed_leaf by assumption.
        assert (Hin : In (newKey p k, x) (keyed p (k, x)))
          by (rewrite keyed_leaf by assumption; left; reflexivity).
        apply js_put_fresh.
        -- apply (keyed_not_proto p k x (newKey p k, x) Hp); [rewrite Hx; exact Hrec|exact Hin].
        -- apply (keyed_not_index p k x (newKey p k, x)); [rewrite Hx; exact Hrec|exact Hsel|exact Hin].
        -- apply (Hfresh _ (proj2 (Forall_forall _ _) Hoke) Hbefore Hin).
Qed.
End FlattenLoop.

(** ** The round trip *)

Lemma filter_pointwise {A} (f g : A -> bool) (l : list A) :
  (forall a, f a = g a) -> filter f l = filter g l.
Proof. intros H. induction l as [|a l IH]; simpl; [reflexivity|rewrite H, IH; reflexivity]. Qed.

Lemma flat_entries_nested p o : p <> "" -> flat_entries p o = flat_map (keyed p) o.
Proof.
  intros Hp. unfold flat_entries. apply String.eqb_neq in Hp.
  rewrite (filter_pointwise (index_leaf p) (fun _ => false)),
          (filter_pointwise (fun e => negb (index_leaf p e)) (fun _ => true)).
  - rewrite filter_none, filter_all. reflexivity.
  - intros e. unfold index_leaf. rewrite Hp. reflexivity.
  - intros e. unfold index_leaf. rewrite Hp. reflexivity.
Qed.

Lemma roundtrippable_no_hasOwnProperty top o :
  forallb (roundtrippable_entry top) o = true -> has_own o "hasOwnProperty" = false.
Proof.
  intros H. apply has_own_false. intros Hin.
  apply in_map_iff in Hin as [[k x] [E Hin]]. simpl in E. subst k.
  rewrite forallb_forall in H.
  destruct (roundtrippable_entry_inv _ _ _ (H _ Hin)) as [_ [_ [Hh _]]]. congruence.
Qed.

Lemma flatten_roundtrippable v :
  forall top p, roundtrippable top v = true -> top = (p =? "")%string ->
  match v with
  | VObj o => flattenObject [] v p = Ok (flat_entries p o)
  | _ => True
  end.
Proof.
  induction v as [| | | | |o IH] using value_nested_ind; auto.
  intros top p Hreg Htop. rewrite roundtrippable_obj in Hreg.
  apply andb_prop in Hreg as [Hord Hall].
  rewrite flattenObject_obj.
  unfold own_loop_fails, hasOwnProperty_callable.
  rewrite (roundtrippable_no_hasOwnProperty top o Hall). simpl. rewrite andb_false_r.
  apply (flatten_entries p o [] Hord).
  apply Forall_forall. intros [k x] Hin. rewrite forallb_forall in Hall.
  destruct (roundtrippable_entry_inv _ _ _ (Hall _ Hin)) as [Hd [Hp [_ Hx]]].
  unfold flat_ok. simpl fst. simpl snd. split; [assumption|]. split; [assumption|].
  intros Hrec. destruct x; try discriminate.
  destruct Hx as [_ [Hk [_ Hr]]].
  assert (Hne : newKey p k <> "").
  { unfold newKey. destruct (p =? "")%string eqn:Ep.
    - apply Hk. subst top. reflexivity.
    - apply String.eqb_neq in Ep. apply append_nonempty_l. assumption. }
  split; [assumption|].
  rewrite Forall_forall in IH. specialize (IH _ Hin false (newKey p k) Hr). simpl in IH.
  rewrite keyed_record_flat, <- flat_entries_nested by assumption.
  apply IH. symmetry. apply String.eqb_neq. assumption.
Qed.

Lemma leaves_dot_free v :
  forall top, roundtrippable top v = true ->
  forall pv, In pv (leaves v) -> Forall (fun k => no_dot k = true) (fst pv).
Proof.
  induction v as [| | | | |o IH] using value_nested_ind; try (simpl; tauto).
  intros top Hreg pv Hin. rewrite roundtrippable_obj in Hreg.
  apply andb_prop in Hreg as [_ Hall]. rewrite forallb_forall in Hall.
  rewrite leaves_obj in Hin. apply in_flat_map in Hin as [[k x] [He Hin]].
  destruct (roundtrippable_entry_inv _ _ _ (Hall _ He)) as [Hd [_ [_ Hx]]].
  unfold leaves_of_entry in Hin. simpl fst in Hin. simpl snd in Hin.
  destruct x; try (destruct Hin as [<-|[]]; simpl; constructor; [assumption|constructor]).
  apply in_map_iff in Hin as [pv' [<- Hin]]. simpl. constructor; [assumption|].
  destruct Hx as [_ [_ [_ Hr]]].
  rewrite Forall_forall in IH. exact (IH _ He false Hr pv' Hin).
Qed.

(** At top level the key of a leaf is its dotted path. *)
Lemma top_key_is_path r pv :
  roundtrippable true (VObj r) = true -> In pv (leaves (VObj r)) ->
  split "." (path_key "" (fst pv)) = fst pv /\ path_key "" (fst pv) <> "hasOwnProperty".
Proof.
  intros Hreg Hin.
  pose proof (leaves_dot_free _ _ Hreg pv Hin) as Hdots.
  rewrite roundtrippable_obj in Hreg. apply andb_prop in Hreg as [_ Hall].
  rewrite forallb_forall in Hall.
  rewrite leaves_obj in Hin. apply in_flat_map in Hin as [[k x] [He Hin]].
  destruct (roundtrippable_entry_inv _ _ _ (Hall _ He)) as [Hd [_ [Hh Hx]]].
  assert (Hshape : exists rest, fst pv = k :: rest /\ (rest <> [] -> k <> "")
                                /\ (rest = [] -> is_record x = false)).
  { unfold leaves_of_entry in Hin. simpl fst in Hin. simpl snd in Hin.
    destruct x; try (destruct Hin as [<-|[]]; exists []; simpl; repeat split; congruence).
    apply in_map_iff in Hin as [pv' [<- Hin]]. exists (fst pv'). simpl.
    destruct Hx as [_ [Hk _]]. repeat split; auto.
    intros E. apply leaves_paths_nonempty in Hin. congruence. }
  destruct Hshape as [rest [E [Hk Hleaf]]]. rewrite E in *.
  rewrite path_key_top by assumption.
  assert (Hsplit : split "." (join "." (k :: rest)) = k :: rest)
    by (apply split_join; [discriminate|assumption]).
  split; [assumption|].
  intros Hbad. rewrite Hbad in Hsplit. simpl in Hsplit.
  inversion Hsplit; subst. congruence.
Qed.

Lemma obj_set_not_nil o k v : obj_set o k v <> [].
Proof.
  unfold obj_set. destruct (has_own o k) eqn:E.
  - destruct o as [|[k' v'] o]; [discriminate|]. simpl.
    destruct (k' =? k)%string; discriminate.
  - destruct o as [|[k' v'] o]; simpl; [discriminate|].
    destruct (precedes k k'); discriminate.
Qed.

Lemma assign_path_eq P current k k2 rest v :
  assign_path P current (k :: k2 :: rest) v =
  let descend (child : object) :=
    (r <- assign_path P child (k2 :: rest) v ;;
     Ok (obj_set current k (VObj (fst r)), snd r))%outcome in
  let on_primitive (p : value) : outcome (object * proto) :=
    match rest with
    | [] => if (k2 =? "__proto__")%string then Unmodelled
            else Throw (CannotCreateProperty k2 p)
    | _ :: _ => Unmodelled
    end in
  match js_get P current k with
  | Own (VObj child) => descend child
  | Own (VArr _) => Unmodelled
  | Own p => if truthy p then on_primitive p else descend []
  | Undefined => descend []
  | Inherited (VObj _) | Inherited (VArr _) => Unmodelled
  | Inherited p => if truthy p then on_primitive p else descend []
  | ThePrototype =>
      match rest with
      | [] => if (k2 =? "__proto__")%string then Unmodelled
              else Ok (current, obj_set P k2 v)
      | _ :: _ => Unmodelled
      end
  | Builtin => Unmodelled
  end.
Proof. reflexivity. Qed.

Lemma assign_path_keeps_pristine keys :
  forall P current v o',
    assign_path P current keys v = Ok (o', []) -> P = [].
Proof.
  induction keys as [|k rest IH]; intros P current v o' H.
  - simpl in H. congruence.
  - destruct rest as [|k2 rest'].
    + simpl in H. destruct (js_put current k v); simpl in H; congruence.
    + rewrite assign_path_eq in H. cbv zeta in H.
      assert (Hd : forall child,
                 (r <- assign_path P child (k2 :: rest') v ;;
                  Ok (obj_set current k (VObj (fst r)), snd r))%outcome
                 = @Ok (object * proto) (o', []) ->
                 P = []).
      { intros child Hc.
        destruct (assign_path P child (k2 :: rest') v) as [[c P1]| |] eqn:Er;
          simpl in Hc; try discriminate.
        inversion Hc; subst. eapply IH. exact Er. }
      assert (Hprim : forall q,
                 match rest' with
                 | [] => if (k2 =? "__proto__")%string then Unmodelled
                         else Throw (CannotCreateProperty k2 q)
                 | _ :: _ => Unmodelled
                 end <> @Ok (object * proto) (o', [])).
      { intros q. destruct rest'; [destruct (k2 =? "__proto__")%string|]; discriminate. }
      destruct (js_get P current k) as [x|x| | |];
        try (destruct x; try discriminate);
        try (eapply Hd; exact H);
        try (exfalso; eapply Hprim; exact H);
        try (destruct (truthy _); [exfalso; eapply Hprim; exact H|eapply Hd; exact H]);
        try discriminate.
      destruct rest'; [|discriminate].
      destruct (k2 =? "__proto__")%string; [discriminate|].
      inversion H. exfalso. eapply obj_set_not_nil. eassumption.
Qed.

Lemma assign_paths_keeps_pristine L :
  forall P acc r, assign_paths P L acc = Ok (r, []) -> P = [].
Proof.
  induction L as [|pv L IH]; intros P acc r H.
  - unfold assign_paths in H. simpl in H. congruence.
  - rewrite assign_paths_cons in H.
    destruct (assign_path P acc (fst pv) (snd pv)) as [[o1 P1]| |] eqn:E; try discriminate.
    simpl in H. apply IH in H. subst P1. eapply assign_path_keeps_pristine. exact E.
Qed.

Lemma unflatten_keyed L r :
  (forall pv, In pv L ->
     split "." (path_key "" (fst pv)) = fst pv /\ path_key "" (fst pv) <> "hasOwnProperty") ->
  assign_paths [] L [] = Ok (r, []) ->
  unflattenObject [] (map (fun pv => (path_key "" (fst pv), snd pv)) L) = (Ok r, []).
Proof.
  intros Hkeys Hpaths.
  set (obj := map (fun pv => (path_key "" (fst pv), snd pv)) L).
  assert (Hcall : hasOwnProperty_callable [] obj = true).
  { unfold hasOwnProperty_callable. simpl. rewrite andb_true_r. apply negb_true_iff.
    apply has_own_false. unfold obj, keys. rewrite map_map. simpl.
    intros Hin. apply in_map_iff in Hin as [pv [E Hin]].
    destruct (Hkeys pv Hin) as [_ Hne]. congruence. }
  unfold unflattenObject. fold obj.
  assert (Hfold : forall L' acc,
             (forall pv, In pv L' -> split "." (path_key "" (fst pv)) = fst pv) ->
             assign_paths [] L' acc = Ok (r, []) ->
             fold_left (unflatten_visit obj)
               (map (fun pv => (path_key "" (fst pv), snd pv)) L') (Ok acc, [])
             = (Ok r, [])).
  { induction L' as [|pv L' IH]; intros acc Hs Hp.
    - unfold assign_paths in Hp. simpl in Hp. inversion Hp. reflexivity.
    - simpl map. simpl fold_left. unfold unflatten_visit at 1.
      rewrite Hcall. simpl negb. cbv iota. simpl fst. simpl snd.
      rewrite (Hs pv (or_introl eq_refl)).
      rewrite assign_paths_cons in Hp.
      destruct (assign_path [] acc (fst pv) (snd pv)) as [[o1 P1]| |]; try discriminate.
      simpl in Hp. pose proof (assign_paths_keeps_pristine _ _ _ _ Hp) as ->.
      apply IH; [intros; apply Hs; right; assumption|assumption]. }
  pose proof (Hfold L [] (fun pv H => proj1 (Hkeys pv H)) Hpaths) as HF.
  fold obj in HF.
  match goal with
  | |- match ?x with _ => _ end = _ =>
      assert (E : x = (Ok r, [])) by exact HF; rewrite E
  end.
  rewrite Hcall. reflexivity.
Qed.

Lemma flat_entries_top r :
  flat_entries "" r =
  map (fun pv => (path_key "" (fst pv), snd pv))
      (flat_map leaves_of_entry (filter (index_leaf "") r)
       ++ flat_map leaves_of_entry (filter (fun e => negb (index_leaf "" e)) r)).
Proof.
  unfold flat_entries. rewrite map_app. f_equal.
  - induction (filter (index_leaf "") r) as [|e l IH]; simpl; [reflexivity|].
    rewrite map_app, IH. reflexivity.
  - induction (filter (fun e => negb (index_leaf "" e)) r) as [|e l IH]; simpl; [reflexivity|].
    rewrite map_app, IH. reflexivity.
Qed.

(** C1, as the code has it.  Let [r] be held in property order (array
    indices first and ascending, then the other keys), with no dot in any
    key at any depth, no key [__proto__] or [hasOwnProperty], no empty
    nested object, no nested object under the name of a method of
    [Object.prototype], and no nested object under the empty key at top
    level.  On a pristine [Object.prototype], [flattenObject] returns a
    FlatRecord, and [unflattenObject] reads it back as [r] exactly,
    leaving [Object.prototype] untouched. *)
Theorem flatten_unflatten_roundtrip (r : object) :
  roundtrippable true (VObj r) = true ->
  exists flat,
    flattenObject [] (VObj r) "" = Ok flat /\ unflattenObject [] flat = (Ok r, []).
Proof.
  intros Hreg. exists (flat_entries "" r). split.
  - exact (flatten_roundtrippable (VObj r) true "" Hreg eq_refl).
  - rewrite flat_entries_top.
    destruct (roundtrippable_walk (VObj r) true Hreg) as [Hord [Hok _]].
    apply unflatten_keyed.
    + intros pv Hin. apply (top_key_is_path r pv Hreg).
      rewrite leaves_obj. apply in_app_or in Hin.
      destruct Hin as [Hin|Hin]; apply in_flat_map in Hin as [e [He Hin]];
        apply filter_In in He as [He _]; apply in_flat_map; exists e; auto.
    + apply assign_leaves_reordered; [|assumption|assumption].
      intros e He. unfold index_leaf in He.
      apply andb_prop in He as [_ He]. destruct (array_index (fst e)); [discriminate|discriminate].
Qed.

Lemma flatten_unflatten_roundtrip_witness :
  let r := [ ("0", VNum 7);
             ("2", VObj [("x", VNull)]);
             ("10", VStr "");
             ("name", VStr "A");
             ("meta", VObj [("age", VNum 30); ("tags", VArr [VStr "t"; VNum 0]);
                            ("", VObj [("deep", VBool false)])]);
             ("toString", VNum 0) ] in
  roundtrippable true (VObj r) = true
  /\ exists flat,
       flattenObject [] (VObj r) "" = Ok flat /\ unflattenObject [] flat = (Ok r, []).
Proof.
  intros r. split; [reflexivity|].
  apply (flatten_unflatten_roundtrip r). reflexivity.
Defined.

(** C1, as stated, fails: the keys of [{a: {}}] contain no dot, yet the
    empty nested Record leaves nothing in the FlatRecord and the key [a]
    does not come back. *)
Lemma roundtrip_loses_empty_record :
  let r := [("a", VObj [])] in
  keys_without_dot (VObj r) = true
  /\ flattenObject [] (VObj r) "" = Ok []
  /\ unflattenObject [] [] = (Ok [], [])
  /\ [] <> r.
Proof. repeat split; discriminate. Qed.

(** The other conditions of the round trip are needed as well: each of
    these Records has dot-free keys and does not come back. *)
Lemma roundtrip_other_exceptions :
  (* an empty top-level key over a nested Record: its children lose the prefix *)
  (flattenObject [] (VObj [("", VObj [("a", VNum 1)])]) "" = Ok [("a", VNum 1)]
   /\ unflattenObject [] [("a", VNum 1)] = (Ok [("a", VNum 1)], []))
  (* a key named hasOwnProperty shadows the method the loop calls *)
  /\ flattenObject [] (VObj [("hasOwnProperty", VNum 1)]) "" = Throw NotAFunction
  (* a nested Record under the name of an inherited method: the walk of
     unflattenObject finds the method and leaves the Record *)
  /\ (flattenObject [] (VObj [("constructor", VObj [("a", VNum 1)])]) ""
      = Ok [("constructor.a", VNum 1)]
      /\ fst (unflattenObject [] [("constructor.a", VNum 1)]) = Unmodelled)
  (* a key named __proto__ reaches the prototype setter *)
  /\ flattenObject [] (VObj [("__proto__", VNum 1)]) "" = Unmodelled.
Proof. repeat split. Qed.

(** ** Empty nested records and colliding keys *)

Lemma has_own_app o1 o2 k : has_own (o1 ++ o2) k = has_own o1 k || has_own o2 k.
Proof.
  unfold has_own. induction o1 as [|[k' v] o1 IH]; simpl; [reflexivity|].
  destruct (k' =? k)%string; [reflexivity|exact IH].
Qed.

Lemma has_own_single k v k' : has_own [(k, v)] k' = (k =? k')%string.
Proof. unfold has_own. simpl. destruct (k =? k')%string; reflexivity. Qed.

Lemma dotted_not_hasOwnProperty a b : (a ++ "." ++ b)%string <> "hasOwnProperty".
Proof.
  intros E. assert (H : no_dot (a ++ "." ++ b) = true) by (rewrite E; reflexivity).
  rewrite no_dot_app in H. simpl in H. rewrite andb_false_r in H. discriminate.
Qed.

Lemma flatten_step_empty_record P p acc k :
  own_loop_fails P [] = false ->
  flatten_step P p acc (k, VObj []) = acc.
Proof.
  intros H. unfold flatten_step. destruct acc as [flattened| |]; simpl; auto.
  rewrite H. reflexivity.
Qed.

(** C10.  An entry whose value is an empty nested Record leaves no trace in
    the result of [flattenObject]: whenever flattening a Record that holds
    such an entry returns a FlatRecord, flattening the Record without the
    entry returns the same FlatRecord (so [flatten({a: {}}) = {}], and the
    key is lost). *)
Theorem flatten_drops_empty_record (P : proto) (o1 o2 : object) (k prefix : string)
  (flat : object) :
  flattenObject P (VObj (o1 ++ (k, VObj []) :: o2)) prefix = Ok flat ->
  flattenObject P (VObj (o1 ++ o2)) prefix = Ok flat.
Proof.
  rewrite !flattenObject_obj.
  destruct (own_loop_fails P (o1 ++ (k, VObj []) :: o2)) eqn:Hfail; [discriminate|].
  unfold own_loop_fails in Hfail.
  assert (Hvisits : for_in_visits P (o1 ++ (k, VObj []) :: o2) = true)
    by (unfold for_in_visits; destruct o1; reflexivity).
  rewrite Hvisits in Hfail. simpl in Hfail. apply negb_false_iff in Hfail.
  unfold hasOwnProperty_callable in Hfail. apply andb_prop in Hfail as [Hown HP].
  rewrite has_own_app in Hown. simpl in Hown.
  assert (Hcall : hasOwnProperty_callable P (o1 ++ o2) = true).
  { unfold hasOwnProperty_callable. rewrite HP, has_own_app.
    apply negb_true_iff in Hown. apply orb_false_elim in Hown as [H1 H2].
    unfold has_own in H2. simpl in H2.
    destruct (k =? "hasOwnProperty")%string; [discriminate|].
    fold (has_own o2 "hasOwnProperty") in H2. rewrite H1, H2. reflexivity. }
  assert (Hempty : own_loop_fails P [] = false).
  { unfold own_loop_fails, hasOwnProperty_callable. rewrite HP. simpl.
    apply andb_false_r. }
  unfold own_loop_fails. rewrite Hcall, andb_false_r.
  rewrite !fold_left_app. simpl fold_left.
  rewrite flatten_step_empty_record by assumption. trivial.
Qed.

Lemma flatten_drops_empty_record_witness :
  flattenObject [] (VObj ([] ++ ("a", VObj []) :: [])) "" = Ok []
  /\ flattenObject [] (VObj ([] ++ [])) "" = Ok [].
Proof.
  split; [reflexivity|].
  apply (flatten_drops_empty_record [] [] [] "a" "" []). reflexivity.
Defined.

(** *** Colliding keys *)

Lemma unflatten_visit_failed obj l :
  forall st, (forall o, fst st <> Ok o) -> fold_left (unflatten_visit obj) l st = st.
Proof.
  induction l as [|kv l IH]; intros st H; [reflexivity|].
  simpl. destruct st as [[o| |] P]; simpl in *.
  - exfalso. eapply H. reflexivity.
  - apply IH. simpl. discriminate.
  - apply IH. simpl. discriminate.
Qed.

(** A FlatRecord that [unflattenObject] accepts has no column named
    [hasOwnProperty]. *)
Lemma unflatten_ok_no_hasOwnProperty flat res P :
  unflattenObject [] flat = (Ok res, P) -> has_own flat "hasOwnProperty" = false.
Proof.
  intros H. destruct (has_own flat "hasOwnProperty") eqn:E; [|reflexivity].
  exfalso. unfold unflattenObject in H.
  destruct flat as [|kv flat]; [discriminate|].
  assert (Hv : unflatten_visit (kv :: flat) (Ok [], []) kv = (Throw NotAFunction, [])).
  { unfold unflatten_visit, hasOwnProperty_callable. rewrite E. reflexivity. }
  change (fold_left (unflatten_visit (kv :: flat)) (kv :: flat) (Ok [], []))
    with (fold_left (unflatten_visit (kv :: flat)) flat
            (unflatten_visit (kv :: flat) (Ok [], []) kv)) in H.
  rewrite Hv in H.
  rewrite unflatten_visit_failed in H by (simpl; discriminate).
  discriminate.
Qed.

Lemma unflatten_fold_of_ok flat res :
  unflattenObject [] flat = (Ok res, []) ->
  fold_left (unflatten_visit flat) flat (Ok [], []) = (Ok res, []).
Proof.
  unfold unflattenObject. intros H.
  destruct (fold_left (unflatten_visit flat) flat (Ok [], [])) as [[o| |] P'].
  - destruct (hasOwnProperty_callable P' flat); [exact H|].
    simpl inherited_visited in H. cbv iota in H.
    destruct (inherited_visited flat P'); [discriminate|exact H].
  - discriminate.
  - discriminate.
Qed.

Lemma unflatten_visit_same_guard obj obj' st kv :
  has_own obj "hasOwnProperty" = has_own obj' "hasOwnProperty" ->
  unflatten_visit obj st kv = unflatten_visit obj' st kv.
Proof.
  intros H. unfold unflatten_visit, hasOwnProperty_callable. rewrite H. reflexivity.
Qed.


Lemma plain_key_inv k :
  plain_key k = true -> no_dot k = true /\ k <> "__proto__" /\ k <> "hasOwnProperty".
Proof.
  unfold plain_key. rewrite !andb_true_iff, !negb_true_iff.
  intros [[H1 H2] H3]. apply String.eqb_neq in H2, H3. auto.
Qed.

Lemma get_at_cons o k k2 rest :
  get_at o (k :: k2 :: rest) =
  match obj_get o k with
  | Some (VObj child) => get_at child (k2 :: rest)
  | _ => None
  end.
Proof. reflexivity. Qed.

Lemma put_at_cons o k k2 rest v :
  put_at o (k :: k2 :: rest) v =
  match obj_get o k with
  | Some (VObj child) => obj_set o k (VObj (put_at child (k2 :: rest) v))
  | _ => o
  end.
Proof. reflexivity. Qed.



Lemma get_at_put_at path : forall o old v,
  get_at o path = Some old -> get_at (put_at o path v) path = Some v.
Proof.
  induction path as [|k rest IH]; intros o old v Hget; [discriminate|].
  destruct rest as [|k2 rest'].
  - simpl. apply obj_get_set.
  - rewrite get_at_cons in Hget. rewrite put_at_cons.
    destruct (obj_get o k) as [[| | | | |child]|] eqn:E; try discriminate.
    rewrite get_at_cons, obj_get_set. eapply IH. exact Hget.
Qed.

Lemma put_at_put_at path : forall o old a b,
  get_at o path = Some old -> put_at (put_at o path a) path b = put_at o path b.
Proof.
  induction path as [|k rest IH]; intros o old a b Hget; [discriminate|].
  destruct rest as [|k2 rest'].
  - simpl. apply obj_set_set.
  - rewrite get_at_cons in Hget. rewrite !(put_at_cons o).
    destruct (obj_get o k) as [[| | | | |child]|] eqn:E; try discriminate.
    rewrite put_at_cons, obj_get_set, obj_set_set.
    rewrite (IH child old a b Hget). reflexivity.
Qed.




(** X7.  In general: a later dotted key never replaces an earlier truthy
    primitive.  Where the keys read so far have put a truthy scalar at
    [a], the key [a.b] makes [unflattenObject] throw the TypeError of a
    property write on a primitive. *)
Lemma unflatten_truthy_scalar_throws (flat res : object) (a b : string) (s x : value) :
  unflattenObject [] flat = (Ok res, []) ->
  no_dot a = true -> no_dot b = true -> b <> "__proto__" ->
  obj_get res a = Some s -> is_scalar s = true -> truthy s = true ->
  fst (unflattenObject [] (flat ++ [((a ++ "." ++ b)%string, x)]))
  = Throw (CannotCreateProperty b s).
Proof.
  intros Hflat Ha Hb Hpb Hget Hs Htruthy.
  pose proof (unflatten_ok_no_hasOwnProperty _ _ _ Hflat) as Hno.
  set (kv := ((a ++ "." ++ b)%string, x)).
  assert (Hno' : has_own (flat ++ [kv]) "hasOwnProperty" = false).
  { unfold kv. rewrite has_own_app, Hno, has_own_single.
    pose proof (dotted_not_hasOwnProperty a b) as Hd.
    apply String.eqb_neq in Hd. rewrite Hd. reflexivity. }
  assert (Hcall : hasOwnProperty_callable [] (flat ++ [kv]) = true)
    by (unfold hasOwnProperty_callable; rewrite Hno'; reflexivity).
  unfold unflattenObject. rewrite fold_left_app.
  rewrite (fold_left_pointwise (unflatten_visit (flat ++ [kv]))
             (unflatten_visit flat) flat)
    by (intros; apply unflatten_visit_same_guard; congruence).
  match goal with
  | |- context [fold_left (unflatten_visit flat) flat ?i] =>
      assert (E : fold_left (unflatten_visit flat) flat i = (Ok res, []))
        by exact (unflatten_fold_of_ok _ _ Hflat);
      rewrite E
  end.
  simpl fold_left. unfold unflatten_visit. rewrite Hcall. simpl negb. cbv iota.
  unfold kv. cbn [fst snd]. change (String "." b) with ("." ++ b)%string.
  rewrite split_app_dot, split_no_dot by assumption.
  rewrite assign_path_eq. cbv zeta. unfold js_get. rewrite Hget.
  apply String.eqb_neq in Hpb.
  destruct s; try discriminate; rewrite Htruthy, Hpb; reflexivity.
Qed.

(** ** The request handler *)

Lemma prefix_append b c : String.prefix b (b ++ c) = true.
Proof.
  induction b as [|ch b IH]; simpl; [destruct c; reflexivity|].
  destruct (ascii_dec ch ch); [exact IH|congruence].
Qed.

Lemma includes_here s sub : String.prefix sub s = true -> includes s sub = true.
Proof. intros H. destruct s; simpl in *; rewrite H; reflexivity. Qed.

Lemma includes_skip c s sub : includes s sub = true -> includes (String c s) sub = true.
Proof. intros H. simpl. rewrite H. apply orb_true_r. Qed.

Lemma includes_skip_app a s sub : includes s sub = true -> includes (a ++ s) sub = true.
Proof. intros H. induction a as [|c a IH]; [exact H|]. simpl append. apply includes_skip, IH. Qed.

(** A text that does not begin with white space is not blank. *)
Lemma trim_keeps_text s : trimStart s = s -> s <> "" -> trim s <> "".
Proof.
  intros H Hs. unfold trim. rewrite H. destruct s as [|c s]; [congruence|].
  cbn [trimEnd]. unfold blank. rewrite H. discriminate.
Qed.

Lemma prefix_cons c s1 s2 : String.prefix (String c s1) (String c s2) = String.prefix s1 s2.
Proof. simpl. destruct (ascii_dec c c); [reflexivity|congruence]. Qed.

Lemma prefix_same_head a b c : String.prefix (a ++ b) (a ++ c) = String.prefix b c.
Proof. induction a as [|ch a IH]; [reflexivity|]. simpl append. rewrite prefix_cons. exact IH. Qed.

Lemma prefix_nil s : String.prefix "" s = true.
Proof. destruct s; reflexivity. Qed.

Ltac prefix_solve :=
  repeat first [ rewrite prefix_cons | rewrite prefix_same_head ];
  first [ apply prefix_nil | apply prefix_append ].

Ltac find_inside :=
  repeat first [ (apply includes_here; prefix_solve)
               | apply includes_skip
               | apply includes_skip_app ].

Ltac run_handler :=
  unfold POST, convert, extractPdfText, call,
    Handler.try_catch, Handler.bind, Handler.ret, Handler.throw,
    Handler.perform, Handler.get_prototype, Handler.lift, Handler.unmodelled;
  cbn [file outputType prototype effects fst snd].

(** *** The header the answer carries *)

Lemma every_app p a b : every p (a ++ b) = every p a && every p b.
Proof.
  induction a as [|c a IH]; simpl; [reflexivity|].
  rewrite IH, andb_assoc. reflexivity.
Qed.

Lemma valid_digits d : valid_header_value (NilEmpty.string_of_uint d) = true.
Proof. induction d; simpl; auto. Qed.

Lemma valid_of_N n : valid_header_value (of_N n) = true.
Proof.
  unfold of_N, NilZero.string_of_uint.
  destruct (N.to_uint n) eqn:E; try reflexivity;
    rewrite <- E; apply valid_digits.
Qed.

Lemma valid_kind out v : obj_get mimeTypes out = Some v -> valid_header_value out = true.
Proof.
  unfold mimeTypes. cbn [obj_get].
  repeat match goal with
         | |- (if (?k =? out)%string then _ else _) = _ -> _ =>
             destruct (k =? out)%string eqn:E;
             [apply String.eqb_eq in E; subst out; reflexivity|clear E]
         end.
  discriminate.
Qed.

(** Of the parts of the [Content-Disposition] value only the first
    segment of the file name can be invalid. *)
Lemma valid_disposition stem now out :
  valid_header_value out = true ->
  valid_header_value
    ("attachment; filename=" ++ dquote
       ++ (stem ++ "-converted-" ++ of_N now ++ "." ++ out) ++ dquote)
  = valid_header_value stem.
Proof.
  intros Hout. unfold valid_header_value in *.
  rewrite !every_app. fold (valid_header_value (of_N now)).
  rewrite valid_of_N, Hout. cbn. rewrite !andb_true_r. reflexivity.
Qed.

(** [POST] for a request with a file, step by step: the gate, the
    conversion chain, and the answer made from its outcome. *)
Lemma POST_some rt now f o w :
  POST rt now (mkRequest (Some f) o) w =
  if (requested_kind o =? "")%string
     || negb (lookup_truthy (js_get (prototype w) mimeTypes (requested_kind o)))
  then (Ok (json_error 400 "Unsupported output type"), w)
  else
    match convert rt f (requested_kind o) (content f)
            (mkWorld (prototype w) (effects w ++ [ReadBody])) with
    | (Ok (inl early), w') => (Ok early, w')
    | (Ok (inr converted), w') =>
        match obj_get mimeTypes (requested_kind o) with
        | Some (VStr mime) =>
            if valid_header_value (hd "" (split "." (name f)))
            then (Ok (mkResponse 200 mime
                        (Some (download_name (hd "" (split "." (name f))) now
                                 (requested_kind o)))
                        (Converted converted)), w')
            else (Ok (json_error 500
                        (server_error
                           (engine_message rt
                              (InvalidHeaderValue
                                 (download_name (hd "" (split "." (name f))) now
                                    (requested_kind o)))))), w')
        | _ => (Unmodelled, w')
        end
    | (Throw e, w') => (Ok (json_error 500 (server_error (message_of rt e))), w')
    | (Unmodelled, w') => (Unmodelled, w')
    end.
Proof.
  unfold POST, Handler.try_catch, Handler.bind, Handler.ret, Handler.throw,
    Handler.perform, Handler.get_prototype, Handler.unmodelled.
  cbn [file outputType]. fold (requested_kind o).
  cbn [fst snd prototype effects].
  match goal with
  | |- context [if ?c then _ else _] => destruct c
  end; [reflexivity|].
  destruct (convert rt f _ _ _) as [[[early|converted]|e|] w'']; try reflexivity.
  destruct (obj_get mimeTypes (requested_kind o)) as [[| | |mime| |]|] eqn:Hm;
    try reflexivity.
  cbv zeta. rewrite (valid_disposition _ now _ (valid_kind _ _ Hm)).
  destruct (valid_header_value (hd "" (split "." (name f)))); reflexivity.
Qed.



(** The size line of the report: [(size / 1024).toFixed(1)], rounded to
    the nearest tenth. *)
Lemma kilobytes_toFixed1_examples :
  map kilobytes_toFixed1 [0; 51; 52; 256; 1023; 1024; 1536; 10485760]%N
  = ["0.0"; "0.0"; "0.1"; "0.3"; "1.0"; "1.0"; "1.5"; "10240.0"].
Proof. reflexivity. Qed.

(** The values the [Headers] constructor turns down: those with a line
    feed, a carriage return or a NUL, and those with a character above
    U+00FF (here U+0394, and the two of the last name); the letters up to
    U+00FF pass. *)
Lemma valid_header_value_examples :
  map valid_header_value
    [ "scan"; ("scan" ++ nl ++ "1")%string; String "013" "x"; String "000" "x";
      String "195" (String "169" "t"); String "206" (String "148" "t"); "日本" ]
  = [true; false; false; false; true; false; false].
Proof. reflexivity. Qed.


(** Whatever pdf-parse does, [extractPdfText] returns a text that is not
    blank: the extracted text behind its caption, or one of the two
    reports. *)
Lemma extractPdfText_never_blank (rt : Runtime) (buffer : bytes) (w : world) :
  exists s, fst (extractPdfText rt buffer w) = Ok s /\ trim s <> "".
Proof.
  unfold extractPdfText, call, Handler.try_catch, Handler.bind, Handler.ret,
    Handler.throw, Handler.perform.
  destruct (pdfParse rt buffer) as [d|m]; cbn [fst snd].
  - destruct (negb (text d =? "")%string && (0 <? js_length (trim (text d)))%nat);
      eexists; (split; [reflexivity|]).
    + cbn [String.append]. apply trim_keeps_text; [reflexivity|discriminate].
    + unfold no_text_report, lines, join. cbn [String.concat].
      cbn [String.append nl]. apply trim_keeps_text; [reflexivity|discriminate].
  - eexists. split; [reflexivity|].
    unfold unable_report, lines, join. cbn [String.concat].
    cbn [String.append nl]. apply trim_keeps_text; [reflexivity|discriminate].
Qed.

(** C2, as the code has it.  When pdf-parse throws, [extractPdfText]
    catches the error and returns a report, and, the first segment of the
    file name giving a valid header value, the TXT route answers 200 with
    that report as payload: it carries the raw error message, the list of
    likely causes and the list of things to try. *)
Theorem pdf_error_yields_report (rt : Runtime) (now : N) (f : File) (o : string)
  (w : world) (m : string) :
  toLowerCase o = "txt" ->
  endsWith (name f) ".pdf" = true ->
  valid_header_value (hd "" (split "." (name f))) = true ->
  pdfParse rt (content f) = Raises m ->
  POST rt now (mkRequest (Some f) (Some o)) w
  = (Ok (mkResponse 200 "text/plain; charset=utf-8"
           (Some ("attachment; filename=" ++ dquote
                    ++ (hd "" (split "." (name f)) ++ "-converted-" ++ of_N now ++ ".txt")
                    ++ dquote)%string)
           (Converted (Text (unable_report m)))),
     mkWorld (prototype w) (effects w ++ [ReadBody] ++ [Called PdfParse]))
  /\ includes (unable_report m) ("**Error encountered:**" ++ nl ++ m) = true
  /\ includes (unable_report m) "**This might indicate:**" = true
  /\ includes (unable_report m) "**Solutions to try:**" = true.
Proof.
  intros Hout Hpdf Hvalid Hparse. split; [|split; [|split]].
  - rewrite POST_some, Hvalid. unfold requested_kind. rewrite Hout.
    run_handler. cbn. rewrite Hpdf, Hparse. cbn.
    rewrite <- app_assoc. reflexivity.
  - unfold unable_report, lines, join. cbn [String.concat].
    cbn [String.append nl]. find_inside.
  - unfold unable_report, lines, join. cbn [String.concat].
    cbn [String.append nl]. find_inside.
  - unfold unable_report, lines, join. cbn [String.concat].
    cbn [String.append nl]. find_inside.
Qed.

Lemma pdf_error_yields_report_witness :
  let f := sample_file "broken.pdf" "" in
  pdfParse sample_runtime (content f) = Raises "Invalid PDF structure"
  /\ fst (POST sample_runtime 0 (mkRequest (Some f) (Some "txt")) pristine)
     = Ok (mkResponse 200 "text/plain; charset=utf-8"
             (Some ("attachment; filename=" ++ dquote ++ "broken-converted-0.txt" ++ dquote)%string)
             (Converted (Text (unable_report "Invalid PDF structure")))).
Proof.
  intros f. split; [reflexivity|].
  destruct (pdf_error_yields_report sample_runtime 0 f "txt" pristine
              "Invalid PDF structure" eq_refl eq_refl eq_refl eq_refl) as [H _].
  rewrite H. reflexivity.
Defined.

(** C2, as stated, fails: pdf-parse throws on this upload and the answer
    is a success, not a failure. *)
Lemma pdf_error_is_answered_200 :
  let f := sample_file "broken.pdf" "" in
  pdfParse sample_runtime (content f) = Raises "Invalid PDF structure"
  /\ exists r w',
       POST sample_runtime 0 (mkRequest (Some f) (Some "txt")) pristine = (Ok r, w')
       /\ is_success r = true /\ is_failure r = false.
Proof.
  intros f. split; [reflexivity|].
  eexists. eexists. split; [reflexivity|]. split; reflexivity.
Qed.

(** *** The whitelist gate *)

(** A kind that [mimeTypes] does not resolve, own or inherited, is turned
    down before the body is read: the world is unchanged. *)
Lemma whitelist_gate_rejects (rt : Runtime) (now : N) (f : File) (o : string) (w : world) :
  js_get (prototype w) mimeTypes (toLowerCase o) = Undefined ->
  POST rt now (mkRequest (Some f) (Some o)) w
  = (Ok (mkResponse 400 "application/json" None (ErrorJson "Unsupported output type")), w).
Proof.
  intros H. run_handler. rewrite H. cbn. rewrite orb_true_r. reflexivity.
Qed.

(** C5.  The gate [!mimeTypes[outputType]] also finds what the table
    inherits from [Object.prototype].  The kind [constructor] is outside
    the whitelist, yet it passes the gate: the handler reads the body
    and answers with the message of the "no pipeline for this pair"
    branch. *)
Theorem whitelist_gate_misses_inherited_names (rt : Runtime) (now : N) (f : File)
  (eff : list effect) :
  obj_get mimeTypes "constructor" = None
  /\ POST rt now (mkRequest (Some f) (Some "constructor")) (mkWorld [] eff)
     = (Ok (mkResponse 400 "application/json" None
              (ErrorJson
                 (not_supported
                    (let ext := toLowerCase (last (split "." (name f)) "") in
                     if (ext =? "")%string then "unknown" else ext)
                    "constructor"))),
        mkWorld [] (eff ++ [ReadBody])).
Proof. split; reflexivity. Qed.

(** *** Source kind *)

Lemma for_each_rows_effects (rows : list (list (string * value))) : forall w,
  effects (snd (Handler.for_each
                  (fun row => Handler.on_prototype (fun P => unflattenObject P row))
                  rows w))
  = effects w.
Proof.
  induction rows as [|row rows IH]; intros w; [reflexivity|].
  simpl. unfold Handler.bind at 1. unfold Handler.on_prototype at 1.
  destruct (unflattenObject (prototype w) row) as [[o| |] P']; simpl; try reflexivity.
  unfold Handler.bind.
  match goal with
  | |- context [Handler.for_each ?f rows ?w'] =>
      specialize (IH w'); destruct (Handler.for_each f rows w') as [[l| |] w'']
  end; simpl in *; exact IH.
Qed.

(** C6.  The suffix tests of the non-image routes are case-sensitive
    ([endsWith]), unlike the image test (flag [i]): [DATA.CSV] with kind
    [json] falls through to the "not supported" answer and the CSV parser
    is never called, while [data.csv] with the same content reaches it. *)
Theorem uppercase_suffix_not_recognised (rt : Runtime) (now : N) (mime : string)
  (buffer : bytes) (w : world) :
  POST rt now (mkRequest (Some (mkFile "DATA.CSV" mime buffer)) (Some "json")) w
  = (Ok (mkResponse 400 "application/json" None
           (ErrorJson "Conversion from CSV to JSON is not supported. Please check the supported conversions list.")),
     mkWorld (prototype w) (effects w ++ [ReadBody]))
  /\ In (Called PapaParse)
        (effects (snd (POST rt now
                         (mkRequest (Some (mkFile "data.csv" mime buffer)) (Some "json")) w))).
Proof.
  split; [reflexivity|].
  rewrite POST_some. cbn [name content]. unfold requested_kind.
  change (toLowerCase "json") with "json".
  change (valid_header_value (hd "" (split "." "data.csv"))) with true. cbv iota.
  unfold convert, call, Handler.bind, Handler.ret, Handler.throw, Handler.perform.
  cbn [name]. change (endsWith "data.csv" ".csv") with true. cbn.
  destruct (papa_parse rt (utf8_decode rt buffer)) as [parsed|m]; cbn.
  - match goal with
    | |- context [Handler.for_each ?f ?rows ?w'] =>
        pose proof (for_each_rows_effects rows w') as E;
        destruct (Handler.for_each f rows w') as [[l| |] w'']
    end; cbn in *; rewrite E; apply in_or_app; right; simpl; auto.
  - apply in_or_app. right. simpl. auto.
Qed.

(** X21.  The declared MIME type is consulted by the image routes only:
    for every other kind the answer does not depend on [file.type]. *)
Lemma mime_only_for_images (rt : Runtime) (now : N) (file_name t1 t2 : string)
  (buffer : bytes) (o : string) (w : world) :
  toLowerCase o <> "png" -> toLowerCase o <> "jpg" -> toLowerCase o <> "jpeg" ->
  POST rt now (mkRequest (Some (mkFile file_name t1 buffer)) (Some o)) w
  = POST rt now (mkRequest (Some (mkFile file_name t2 buffer)) (Some o)) w.
Proof.
  intros H1 H2 H3. apply String.eqb_neq in H1, H2, H3.
  unfold POST, convert. cbn [file outputType name type content].
  rewrite H1, H2, H3. reflexivity.
Qed.

(** The image routes accept any case of the suffix. *)
Lemma image_suffix_any_case :
  matches_image_extension "IMAGE.BMP" = true
  /\ matches_image_extension "photo.JpEg" = true
  /\ matches_image_extension "notes.txt" = false.
Proof. repeat split. Qed.

(** *** Plain text to Markdown *)

Lemma fold_left_push {A B} (g : B -> A) (l : list B) : forall init,
  fold_left (fun acc x => acc ++ [g x]) l init = init ++ map g l.
Proof.
  induction l as [|x l IH]; intros init; simpl.
  - rewrite app_nil_r. reflexivity.
  - rewrite IH, <- app_assoc. reflexivity.
Qed.

(** C7, as the code has it.  The loop of the TXT route pushes, for every
    source line, what [emitted] says: a blank line for a line that is
    blank after trimming; otherwise the trimmed line as a subheading
    exactly when the trimmed line is shorter than 60, does not end in
    [.], [!] or [?] and contains no space; otherwise the trimmed line
    itself.  The bullet test changes nothing. *)
Theorem txt_lines_follow_label_rule (file_name source : string) :
  txt_markdown file_name source
  = heading_block file_name ++ map emitted (split "010" source).
Proof.
  unfold txt_markdown. fold (heading_block file_name).
  rewrite <- fold_left_push. apply fold_left_pointwise.
  intros markdown line. unfold emitted, label_line.
  destruct (trim line =? "")%string; [reflexivity|].
  destruct ((js_length (trim line) <? 60)%nat && negb (ends_with_terminal (trim line))
            && negb (includes (trim line) " ")); [reflexivity|].
  destruct (startsWith (trim line) "- " || startsWith (trim line) "* "); reflexivity.
Qed.

(** What [trim] removes is the white space of ECMAScript, not of ASCII
    alone: a line of no-break spaces is blank, a byte order mark or a
    line separator before a title is dropped, and the length that is
    compared with 60 is counted in code units, not in bytes. *)
Lemma txt_lines_trim_unicode_space :
  let nbsp := String "194" (String "160" "") in
  let bom := String "239" (String "187" (String "191" "")) in
  let line_separator := String "226" (String "128" (String "168" "")) in
  let e_acute := String "195" (String "169" "") in
  emitted (nbsp ++ " " ++ nbsp) = ""
  /\ emitted (bom ++ "Title") = "## Title"
  /\ emitted (line_separator ++ "Title" ++ nbsp) = "## Title"
  /\ trim (" " ++ e_acute ++ nbsp ++ e_acute ++ " ") = (e_acute ++ nbsp ++ e_acute)%string
  /\ js_length (concat "" (repeat e_acute 59)) = 59
  /\ emitted (concat "" (repeat e_acute 59)) = ("## " ++ concat "" (repeat e_acute 59))%string
  /\ emitted (concat "" (repeat e_acute 60)) = concat "" (repeat e_acute 60).
Proof. repeat split. Qed.

(** C7, as stated, fails: the test is made on the trimmed line and the
    trimmed line is what is emitted.  A short title behind a leading space
    becomes a subheading although the line contains a space, and a
    sentence loses its trailing blanks. *)
Lemma label_rule_reads_trimmed_line :
  txt_markdown "notes.txt" " Title" = heading_block "notes.txt" ++ ["## Title"]
  /\ map emitted_as_stated (split "010" " Title") = [" Title"]
  /\ txt_markdown "notes.txt" "Done.  " = heading_block "notes.txt" ++ ["Done."]
  /\ map emitted_as_stated (split "010" "Done.  ") = ["Done.  "]
  /\ txt_markdown "notes.txt" " Title"
     <> heading_block "notes.txt" ++ map emitted_as_stated (split "010" " Title").
Proof. repeat split. discriminate. Qed.







(** *** Repeated requests *)

(** X20.  The clock only reaches the suggested file name: status, content
    type and the world after the call do not depend on it, and neither
    does the body, as long as the first segment of the file name gives a
    valid header value (the error text for an invalid value may quote the
    value, and with it the clock). *)
Lemma clock_only_in_file_name (rt : Runtime) (now now' : N) (req : Request) (w : world) :
  snd (POST rt now req w) = snd (POST rt now' req w)
  /\ match fst (POST rt now req w), fst (POST rt now' req w) with
     | Ok r, Ok r' =>
         status r = status r' /\ contentType r = contentType r'
         /\ ((forall f, file req = Some f ->
                        valid_header_value (hd "" (split "." (name f))) = true) ->
             responseBody r = responseBody r')
     | Unmodelled, Unmodelled => True
     | _, _ => False
     end.
Proof.
  destruct req as [[f|] o]; [|simpl; auto].
  rewrite !POST_some. cbn [file].
  match goal with
  | |- context [if ?c then _ else _] => destruct c
  end; [simpl; auto|].
  destruct (convert _ _ _ _ _) as [[[early|converted]|e|] w''];
    try (simpl; auto; fail).
  destruct (obj_get mimeTypes _) as [[| | |mime| |]|]; try (simpl; auto; fail).
  destruct (valid_header_value (hd "" (split "." (name f)))) eqn:E.
  - simpl. auto.
  - simpl. repeat split. intros H. specialize (H f eq_refl). congruence.
Qed.

(** Where the header value is refused, the clock can reach the body: the
    error text of the engine may quote the value, which holds the file
    name the handler suggests. *)
Lemma clock_reaches_invalid_header_text :
  let req := mkRequest (Some (sample_file ("my" ++ nl ++ "notes.txt")%string ""))
                       (Some "md") in
  match fst (POST quoting_runtime 1 req pristine),
        fst (POST quoting_runtime 2 req pristine) with
  | Ok r, Ok r' =>
      status r = 500 /\ status r' = 500 /\ responseBody r <> responseBody r'
  | _, _ => False
  end.
Proof. vm_compute. repeat split. discriminate. Qed.

(** C9.  A request can change [Object.prototype], which the next request
    sees.  Here the CSV parser reads one row with the columns [a.b] and
    [__proto__.a].  The first call answers 200 (500 if the first segment
    of the file name is not a valid header value); reading [__proto__.a]
    it has stored 5 in [Object.prototype.a].  The same request again finds
    that 5 where it wants to create [a], and answers 500 with the
    TypeError of the property write. *)
Theorem repeated_request_differs (rt : Runtime) (now now' : N) (f : File)
  (columns : option (list string)) (eff : list effect) :
  endsWith (name f) ".csv" = true ->
  papa_parse rt (utf8_decode rt (content f))
  = Returns (mkCsvParsed [[("a.b", VNum 1); ("__proto__.a", VNum 5)]] columns) ->
  let req := mkRequest (Some f) (Some "json") in
  let first := POST rt now req (mkWorld [] eff) in
  let second := POST rt now' req (snd first) in
  (if valid_header_value (hd "" (split "." (name f)))
   then exists r, fst first = Ok r /\ status r = 200
                  /\ exists payload, responseBody r = Converted payload
   else exists v, fst first
                  = Ok (mkResponse 500 "application/json" None
                          (ErrorJson (server_error
                                        (engine_message rt (InvalidHeaderValue v))))))
  /\ prototype (snd first) = [("a", VNum 5)]
  /\ fst second
     = Ok (mkResponse 500 "application/json" None
             (ErrorJson (server_error
                           (engine_message rt (CannotCreateProperty "b" (VNum 5)))))).
Proof.
  intros Hcsv Hparse req first second.
  assert (Hfirst : first
    = (Ok (if valid_header_value (hd "" (split "." (name f)))
           then mkResponse 200 "application/json; charset=utf-8"
                  (Some (download_name (hd "" (split "." (name f))) now "json"))
                  (Converted (Text (json_stringify rt
                     (VObj
                        [ ("meta",
                           VObj [ ("filename", VStr (name f));
                                  ("rows", VNum 1);
                                  ("fields",
                                   VArr (map VStr (match columns with
                                                   | Some l => l
                                                   | None => []
                                                   end))) ]);
                          ("data", VArr [VObj [("a", VObj [("b", VNum 1)])]]) ]))))
           else json_error 500
                  (server_error
                     (engine_message rt
                        (InvalidHeaderValue
                           (download_name (hd "" (split "." (name f))) now "json"))))),
       mkWorld [("a", VNum 5)] ((eff ++ [ReadBody]) ++ [Called PapaParse]))).
  { unfold first, req. rewrite POST_some. unfold requested_kind.
    change (toLowerCase "json") with "json". run_handler. cbn.
    rewrite Hcsv, Hparse.
    destruct (valid_header_value (hd "" (split "." (name f)))); reflexivity. }
  split; [|split].
  - rewrite Hfirst. destruct (valid_header_value (hd "" (split "." (name f)))).
    + eexists. split; [reflexivity|]. split; [reflexivity|].
      eexists. reflexivity.
    + eexists. reflexivity.
  - rewrite Hfirst. reflexivity.
  - unfold second. rewrite Hfirst. unfold req. rewrite POST_some.
    unfold requested_kind. change (toLowerCase "json") with "json".
    run_handler. cbn. rewrite Hcsv, Hparse. reflexivity.
Qed.

Lemma repeated_request_differs_witness :
  let req := mkRequest (Some (sample_file "data.csv" "a.b,__proto__.a")) (Some "json") in
  let first := POST sample_runtime 1 req pristine in
  let second := POST sample_runtime 2 req (snd first) in
  (exists r, fst first = Ok r /\ status r = 200
             /\ exists payload, responseBody r = Converted payload)
  /\ prototype (snd first) = [("a", VNum 5)]
  /\ fst second
     = Ok (mkResponse 500 "application/json" None
             (ErrorJson (server_error "TypeError"))).
Proof.
  exact (repeated_request_differs sample_runtime 1 2
           (sample_file "data.csv" "a.b,__proto__.a")
           (Some ["a.b"; "__proto__.a"]) [] eq_refl eq_refl).
Defined.


(** * Further properties of the transforms and of the handler *)

(** ** What [flattenObject] returns *)

Lemma flatten_fold_stops P p l :
  (forall e, fold_left (flatten_step P p) l (Throw e) = Throw e)
  /\ fold_left (flatten_step P p) l Unmodelled = Unmodelled.
Proof. induction l as [|a l [IH1 IH2]]; simpl; auto. Qed.

(** A property of the accumulator that every step of the loop keeps holds
    of the result. *)
Lemma flatten_fold_invariant (I : list (string * value) -> Prop) P p o :
  (forall kv a r, In kv o -> I a -> flatten_step P p (Ok a) kv = Ok r -> I r) ->
  forall a flat, I a -> fold_left (flatten_step P p) o (Ok a) = Ok flat -> I flat.
Proof.
  induction o as [|kv o IH]; intros Hstep a flat Ha H.
  - simpl in H. injection H as <-. exact Ha.
  - cbn [fold_left] in H. destruct (flatten_step P p (Ok a) kv) as [r| |] eqn:E.
    + apply (IH (fun kv' a' r' Hin => Hstep kv' a' r' (or_intror Hin)) r flat);
        [|exact H].
      exact (Hstep kv a r (or_introl eq_refl) Ha E).
    + rewrite (proj1 (flatten_fold_stops P p o)) in H. discriminate.
    + rewrite (proj2 (flatten_fold_stops P p o)) in H. discriminate.
Qed.

Lemma forallb_replace (f : string * value -> bool) o k v :
  forallb f o = true -> (forall k', f (k', v) = true) ->
  forallb f (obj_replace o k v) = true.
Proof.
  intros Ho Hv. induction o as [|[k' v'] o IH]; [reflexivity|].
  simpl in *. apply andb_prop in Ho as [H1 H2].
  destruct (k' =? k)%string; simpl.
  - rewrite Hv, H2. reflexivity.
  - rewrite H1, IH by assumption. reflexivity.
Qed.

Lemma forallb_insert (f : string * value -> bool) o k v :
  forallb f (obj_insert o k v) = f (k, v) && forallb f o.
Proof.
  induction o as [|[k' v'] o IH]; [reflexivity|].
  simpl. destruct (precedes k k'); simpl; [reflexivity|].
  rewrite IH. destruct (f (k', v')), (f (k, v)); reflexivity.
Qed.

Lemma flat_values_set o k v :
  flat_values o = true -> is_record v = false -> flat_values (obj_set o k v) = true.
Proof.
  unfold flat_values, obj_set. intros Ho Hv. destruct (has_own o k).
  - apply forallb_replace; [assumption|]. intros k'. simpl. rewrite Hv. reflexivity.
  - rewrite forallb_insert. simpl. rewrite Hv, Ho. reflexivity.
Qed.

Lemma js_put_ok o k v r : js_put o k v = Ok r -> k <> "__proto__" /\ r = obj_set o k v.
Proof.
  unfold js_put. destruct (k =? "__proto__")%string eqn:E; [discriminate|].
  intros H. injection H as <-. apply String.eqb_neq in E. auto.
Qed.

(** A property of objects that every property write of an entry of [sub]
    keeps is kept by [Object.assign]. *)
Lemma assign_invariant (I : list (string * value) -> Prop) sub :
  (forall kv a, In kv sub -> I a -> fst kv <> "__proto__" ->
                I (obj_set a (fst kv) (snd kv))) ->
  forall acc r, I acc -> assign acc sub = Ok r -> I r.
Proof.
  induction sub as [|kv sub IH]; intros Hstep acc r Ha H.
  - unfold assign in H. simpl in H. injection H as <-. exact Ha.
  - rewrite assign_cons in H.
    destruct (js_put acc (fst kv) (snd kv)) as [t| |] eqn:E; simpl in H; try discriminate.
    apply js_put_ok in E as [Hp ->].
    apply (IH (fun kv' a' Hin => Hstep kv' a' (or_intror Hin))
              (obj_set acc (fst kv) (snd kv)) r); [|exact H].
    exact (Hstep kv acc (or_introl eq_refl) Ha Hp).
Qed.

Lemma flat_values_in o kv : flat_values o = true -> In kv o -> is_record (snd kv) = false.
Proof.
  unfold flat_values. rewrite forallb_forall. intros H Hin.
  apply H in Hin. apply negb_true_iff in Hin. exact Hin.
Qed.

Lemma flatten_flat_values v :
  forall P p flat, flattenObject P v p = Ok flat -> flat_values flat = true.
Proof.
  induction v as [| | | |l _|o IH] using value_nested_ind; intros P p flat H;
    try (simpl in H; try destruct (own_loop_fails P []); try discriminate;
         injection H as <-; reflexivity).
  rewrite flattenObject_obj in H.
  destruct (own_loop_fails P o); [discriminate|].
  apply (flatten_fold_invariant (fun a => flat_values a = true) P p o)
    with (a := []); [|reflexivity|exact H].
  intros [k x] a r Hin Ha Hstep. rewrite Forall_forall in IH.
  specialize (IH _ Hin). simpl in IH.
  unfold flatten_step in Hstep. simpl in Hstep.
  destruct x as [| | | | |o'];
    try (apply js_put_ok in Hstep as [_ ->]; apply flat_values_set; [assumption|reflexivity]).
  destruct (flattenObject P (VObj o') (newKey p k)) as [sub| |] eqn:E; try discriminate.
  simpl in Hstep. specialize (IH _ _ _ E).
  apply (assign_invariant (fun a => flat_values a = true) sub)
    with (acc := a); [|assumption|exact Hstep].
  intros kv a' Hkv Ha' _. apply flat_values_set; [assumption|].
  apply (flat_values_in sub); assumption.
Qed.

(** X1.  Whatever [flattenObject] returns is flat: no value of the result
    is a nested Record, for every argument, prefix and state of
    [Object.prototype]. *)
Theorem flatten_output_is_flat (P : list (string * value)) (obj : value)
  (prefix : string) (flat : list (string * value)) :
  flattenObject P obj prefix = Ok flat -> flat_values flat = true.
Proof. apply flatten_flat_values. Qed.

Lemma flatten_output_is_flat_witness :
  let r := VObj [("a", VObj [("b", VNum 1); ("c", VObj [("d", VArr [])])]); ("e", VNull)] in
  flattenObject [] r "" = Ok [("a.b", VNum 1); ("a.c.d", VArr []); ("e", VNull)]
  /\ flat_values [("a.b", VNum 1); ("a.c.d", VArr []); ("e", VNull)] = true.
Proof.
  intros r. split; [reflexivity|].
  apply (flatten_output_is_flat [] r "" _). reflexivity.
Defined.

(** ** Flattening twice *)

Lemma precedes_after k k' b :
  precedes k k' = true -> precedes b k' = false -> precedes b k = false.
Proof.
  unfold precedes.
  destruct (array_index k) as [i|], (array_index k') as [j|], (array_index b) as [m|];
    try discriminate; try reflexivity.
  intros H1 H2. apply N.ltb_lt in H1. apply N.ltb_ge in H2. apply N.ltb_ge. lia.
Qed.

Lemma forallb_replace_keys (f : string * value -> bool) o k v :
  (forall k' a b, f (k', a) = f (k', b)) ->
  forallb f (obj_replace o k v) = forallb f o.
Proof.
  intros Hf. induction o as [|[k' v'] o IH]; [reflexivity|].
  simpl. destruct (k' =? k)%string; simpl.
  - rewrite (Hf k' v v'). reflexivity.
  - rewrite IH. reflexivity.
Qed.

Lemma settled_replace o k v : settled (obj_replace o k v) = settled o.
Proof.
  induction o as [|[k' v'] o IH]; [reflexivity|].
  simpl. destruct (k' =? k)%string; simpl; [reflexivity|].
  rewrite IH, forallb_replace_keys; [reflexivity|]. intros; reflexivity.
Qed.

Lemma settled_insert o k v :
  has_own o k = false -> settled o = true -> settled (obj_insert o k v) = true.
Proof.
  induction o as [|[k' v'] o IH]; intros Hown Hs; [reflexivity|].
  assert (Hk : (k' =? k)%string = false /\ has_own o k = false).
  { unfold has_own in *. simpl in Hown. destruct (k' =? k)%string; [discriminate|auto]. }
  destruct Hk as [Hk Hown'].
  simpl in Hs. apply andb_prop in Hs as [Hhead Htail].
  simpl. destruct (precedes k k') eqn:Hp.
  - cbn [settled]. apply andb_true_intro. split.
    + cbn [forallb fst]. rewrite Hk.
      rewrite (precedes_after k k' k' Hp (precedes_irrefl k')). simpl.
      apply forallb_forall. intros [b vb] Hb.
      rewrite forallb_forall in Hhead. specialize (Hhead _ Hb). simpl in *.
      apply andb_prop in Hhead as [H1 _]. apply negb_true_iff in H1.
      rewrite (precedes_after k k' b Hp H1). simpl.
      apply negb_true_iff, String.eqb_neq. intros ->.
      apply has_own_false in Hown'. apply Hown'.
      change k with (fst (k, vb)). apply in_map. assumption.
    + simpl. rewrite Hhead, Htail. reflexivity.
  - cbn [settled]. rewrite forallb_insert. cbn [fst].
    rewrite Hp, Hhead, IH by assumption.
    rewrite String.eqb_sym, Hk. reflexivity.
Qed.

Lemma settled_set o k v : settled o = true -> settled (obj_set o k v) = true.
Proof.
  intros H. unfold obj_set. destruct (has_own o k) eqn:E.
  - rewrite settled_replace. assumption.
  - apply settled_insert; assumption.
Qed.

Lemma settled_before A k v B :
  settled (A ++ (k, v) :: B) = true ->
  Forall (fun a => precedes k (fst a) = false /\ fst a <> k) A.
Proof.
  induction A as [|[a va] A IH]; intros H; [constructor|].
  simpl in H. apply andb_prop in H as [Hhead Htail].
  constructor; [|apply IH; assumption].
  rewrite forallb_app in Hhead. apply andb_prop in Hhead as [_ Hhead].
  simpl in Hhead. apply andb_prop in Hhead as [Hhead _].
  apply andb_prop in Hhead as [H1 H2].
  apply negb_true_iff in H1, H2. apply String.eqb_neq in H2. simpl. auto.
Qed.

(** The loop of [flattenObject] over a flat, settled list of entries
    copies them one by one. *)
Lemma flatten_flat_entries P todo : forall done,
  settled (done ++ todo) = true ->
  flat_values todo = true ->
  forallb (fun kv => negb (fst kv =? "__proto__")%string) todo = true ->
  fold_left (flatten_step P "") todo (Ok done) = Ok (done ++ todo).
Proof.
  induction todo as [|[k x] todo IH]; intros done Hs Hflat Hproto.
  - rewrite app_nil_r. reflexivity.
  - simpl in Hflat, Hproto.
    apply andb_prop in Hflat as [Hx Hflat]. apply andb_prop in Hproto as [Hk Hproto].
    apply negb_true_iff in Hx.
    cbn [fold_left].
    assert (Hstep : flatten_step P "" (Ok done) (k, x) = Ok (done ++ [(k, x)])).
    { unfold flatten_step. cbn [bind fst snd].
      change (newKey "" k) with k.
      assert (Hput : js_put done k x = Ok (done ++ [(k, x)])).
      { unfold js_put. apply negb_true_iff in Hk. rewrite Hk.
        rewrite obj_set_end; [reflexivity|]. eapply settled_before. exact Hs. }
      destruct x; try exact Hput. discriminate. }
    rewrite Hstep. rewrite IH.
    + rewrite <- app_assoc. reflexivity.
    + rewrite <- app_assoc. exact Hs.
    + assumption.
    + assumption.
Qed.

Lemma flatten_settled P o p flat :
  flattenObject P (VObj o) p = Ok flat -> settled flat = true.
Proof.
  rewrite flattenObject_obj. destruct (own_loop_fails P o); [discriminate|].
  intros H.
  apply (flatten_fold_invariant (fun a => settled a = true) P p o)
    with (a := []); [|reflexivity|exact H].
  intros [k x] a r _ Ha Hstep.
  unfold flatten_step in Hstep. cbn [bind fst snd] in Hstep.
  destruct x as [| | | | |o'];
    try (apply js_put_ok in Hstep as [_ ->]; apply settled_set; assumption).
  destruct (flattenObject P (VObj o') (newKey p k)) as [sub| |]; try discriminate.
  cbn [bind] in Hstep.
  apply (assign_invariant (fun a => settled a = true) sub)
    with (acc := a); [|assumption|exact Hstep].
  intros kv a' _ Ha' _. apply settled_set. assumption.
Qed.

Lemma no_proto_key_set o k v :
  forallb (fun kv => negb (fst kv =? "__proto__")%string) o = true ->
  k <> "__proto__" ->
  forallb (fun kv => negb (fst kv =? "__proto__")%string) (obj_set o k v) = true.
Proof.
  intros Ho Hk. apply String.eqb_neq in Hk. unfold obj_set. destruct (has_own o k).
  - rewrite forallb_replace_keys; [assumption|]. intros; reflexivity.
  - rewrite forallb_insert. cbn [fst]. rewrite Hk, Ho. reflexivity.
Qed.

Lemma flatten_no_proto_key P o p flat :
  flattenObject P (VObj o) p = Ok flat ->
  forallb (fun kv => negb (fst kv =? "__proto__")%string) flat = true.
Proof.
  rewrite flattenObject_obj. destruct (own_loop_fails P o); [discriminate|].
  intros H.
  apply (flatten_fold_invariant
           (fun a => forallb (fun kv => negb (fst kv =? "__proto__")%string) a = true) P p o)
    with (a := []); [|reflexivity|exact H].
  intros [k x] a r _ Ha Hstep.
  unfold flatten_step in Hstep. cbn [bind fst snd] in Hstep.
  destruct x as [| | | | |o'];
    try (apply js_put_ok in Hstep as [Hk ->]; apply no_proto_key_set; assumption).
  destruct (flattenObject P (VObj o') (newKey p k)) as [sub| |]; try discriminate.
  cbn [bind] in Hstep.
  apply (assign_invariant
           (fun a => forallb (fun kv => negb (fst kv =? "__proto__")%string) a = true) sub)
    with (acc := a); [|assumption|exact Hstep].
  intros kv a' _ Ha' Hk. apply no_proto_key_set; assumption.
Qed.

Lemma has_own_set_other o k v k' :
  k' <> k -> has_own (obj_set o k v) k' = has_own o k'.
Proof.
  intros Hne.
  destruct (has_own o k') eqn:E.
  - destruct (has_own (obj_set o k v) k') eqn:E'; [reflexivity|].
    apply has_own_false in E'. exfalso. apply E'.
    assert (Hin : In k' (keys o)).
    { destruct (in_dec string_dec k' (keys o)) as [Hi|Hi]; [assumption|].
      apply has_own_false in Hi. congruence. }
    unfold obj_set. destruct (has_own o k).
    + rewrite keys_replace. assumption.
    + apply keys_insert_in. right. assumption.
  - apply has_own_false. apply has_own_false in E. intros Hin. apply E.
    unfold obj_set in Hin. destruct (has_own o k).
    + rewrite keys_replace in Hin. assumption.
    + apply keys_insert_in in Hin as [Hin|Hin]; [congruence|assumption].
Qed.

Lemma newKey_hasOwnProperty p k :
  newKey p k = "hasOwnProperty" -> k = "hasOwnProperty".
Proof.
  unfold newKey. destruct (p =? "")%string eqn:E; [auto|].
  intros H. exfalso. exact (dotted_not_hasOwnProperty p k H).
Qed.

Lemma own_loop_passes P o :
  own_loop_fails P o = false -> o <> [] ->
  has_own o "hasOwnProperty" = false /\ has_own P "hasOwnProperty" = false.
Proof.
  unfold own_loop_fails, for_in_visits, hasOwnProperty_callable.
  intros H Hne. destruct o as [|kv o]; [congruence|]. simpl in H.
  destruct (has_own (kv :: o) "hasOwnProperty"), (has_own P "hasOwnProperty");
    simpl in H; try discriminate. auto.
Qed.

Lemma flatten_no_hasOwnProperty v :
  forall P p flat,
    flattenObject P v p = Ok flat -> has_own flat "hasOwnProperty" = false.
Proof.
  induction v as [| | | |l _|o IH] using value_nested_ind; intros P p flat H;
    try (simpl in H; try destruct (own_loop_fails P []); try discriminate;
         injection H as <-; reflexivity).
  rewrite flattenObject_obj in H.
  destruct (own_loop_fails P o) eqn:Hloop; [discriminate|].
  apply (flatten_fold_invariant (fun a => has_own a "hasOwnProperty" = false) P p o)
    with (a := []); [|reflexivity|exact H].
  intros [k x] a r Hin Ha Hstep. rewrite Forall_forall in IH.
  specialize (IH _ Hin). simpl in IH.
  assert (Hk : newKey p k <> "hasOwnProperty").
  { intros E. apply newKey_hasOwnProperty in E. subst k.
    destruct (own_loop_passes P o Hloop) as [Hown _].
    - intros ->. destruct Hin.
    - apply has_own_false in Hown. apply Hown.
      change "hasOwnProperty" with (fst ("hasOwnProperty", x)).
      apply in_map. assumption. }
  unfold flatten_step in Hstep. cbn [bind fst snd] in Hstep.
  destruct x as [| | | | |o'];
    try (apply js_put_ok in Hstep as [_ ->];
         rewrite has_own_set_other by (intros E; apply Hk; congruence); assumption).
  destruct (flattenObject P (VObj o') (newKey p k)) as [sub| |] eqn:E; try discriminate.
  cbn [bind] in Hstep. specialize (IH _ _ _ E).
  apply (assign_invariant (fun a => has_own a "hasOwnProperty" = false) sub)
    with (acc := a); [|assumption|exact Hstep].
  intros kv a' Hkv Ha' _. rewrite has_own_set_other; [assumption|].
  intros E'. apply has_own_false in IH. apply IH. rewrite E'.
  apply in_map. assumption.
Qed.

(** X2.  Flattening is idempotent: a FlatRecord that [flattenObject]
    returned flattens to itself, key for key and in the same order. *)
Theorem flatten_idempotent (P : list (string * value)) (r flat : list (string * value)) :
  flattenObject P (VObj r) "" = Ok flat ->
  flattenObject P (VObj flat) "" = Ok flat.
Proof.
  intros H.
  pose proof (flatten_settled _ _ _ _ H) as Hs.
  pose proof (flatten_no_proto_key _ _ _ _ H) as Hp.
  pose proof (flatten_flat_values _ _ _ _ H) as Hf.
  pose proof (flatten_no_hasOwnProperty _ _ _ _ H) as Hh.
  assert (Hloop : own_loop_fails P flat = false).
  { rewrite flattenObject_obj in H.
    destruct (own_loop_fails P r) eqn:Hr; [discriminate|].
    destruct r as [|kv r].
    - simpl in H. injection H as <-. exact Hr.
    - destruct (own_loop_passes P (kv :: r) Hr) as [_ HP]; [discriminate|].
      unfold own_loop_fails, hasOwnProperty_callable. rewrite Hh, HP.
      apply andb_false_r. }
  rewrite flattenObject_obj, Hloop.
  apply (flatten_flat_entries P flat []); assumption.
Qed.

Lemma flatten_idempotent_witness :
  let r := [("2", VNull); ("a", VObj [("b", VNum 1); ("c", VStr "x")])] in
  flattenObject [] (VObj r) "" = Ok [("2", VNull); ("a.b", VNum 1); ("a.c", VStr "x")]
  /\ flattenObject [] (VObj [("2", VNull); ("a.b", VNum 1); ("a.c", VStr "x")]) ""
     = Ok [("2", VNull); ("a.b", VNum 1); ("a.c", VStr "x")].
Proof.
  intros r. split; [reflexivity|].
  apply (flatten_idempotent [] r). reflexivity.
Defined.

(** X3.  A dotted key and a nested path that spell the same flattened key
    collide: the later entry overwrites the earlier value, so the Record
    flattens to what the dotted key alone flattens to and the nested
    value [y] is lost. *)
Theorem flatten_dotted_key_collides (a b : string) (x y : value) :
  a <> "" -> a <> "hasOwnProperty" -> b <> "hasOwnProperty" ->
  is_record x = false -> is_record y = false ->
  flattenObject [] (VObj [(a, VObj [(b, y)]); ((a ++ "." ++ b)%string, x)]) ""
  = Ok [((a ++ "." ++ b)%string, x)]
  /\ flattenObject [] (VObj [((a ++ "." ++ b)%string, x)]) ""
     = Ok [((a ++ "." ++ b)%string, x)].
Proof.
  intros Ha Hah Hbh Hx Hy.
  pose proof (dotted_not_hasOwnProperty a b) as Hd.
  pose proof (dotted_not_proto a b) as Hp.
  apply String.eqb_neq in Hah, Hbh, Hd, Hp.
  assert (Hin : flattenObject [] (VObj [(b, y)]) a = Ok [((a ++ "." ++ b)%string, y)]).
  { rewrite flattenObject_obj.
    unfold own_loop_fails, for_in_visits, hasOwnProperty_callable, has_own.
    cbn [obj_get existsb negb orb andb]. rewrite Hbh. cbn [negb andb].
    cbn [fold_left]. unfold flatten_step. cbn [bind fst snd].
    rewrite (newKey_nonempty a b Ha).
    unfold js_put. rewrite Hp.
    destruct y; try reflexivity. discriminate. }
  split.
  - rewrite flattenObject_obj.
    unfold own_loop_fails, for_in_visits, hasOwnProperty_callable, has_own.
    cbn [obj_get existsb negb orb andb]. rewrite Hah, Hd. cbn [negb andb].
    cbn [fold_left]. unfold flatten_step at 2. cbn [bind fst snd].
    change (newKey "" a) with a. rewrite Hin. cbn [bind].
    unfold assign. cbn [fold_left bind fst snd]. unfold js_put at 1. rewrite Hp.
    unfold flatten_step. cbn [bind fst snd].
    change (newKey "" (a ++ "." ++ b)) with (a ++ "." ++ b)%string.
    unfold js_put. rewrite Hp.
    unfold obj_set, has_own. cbn [obj_get obj_insert].
    rewrite String.eqb_refl. cbn [obj_replace]. rewrite String.eqb_refl.
    destruct x; try reflexivity. discriminate.
  - rewrite flattenObject_obj.
    unfold own_loop_fails, for_in_visits, hasOwnProperty_callable, has_own.
    cbn [obj_get existsb negb orb andb]. rewrite Hd. cbn [negb andb].
    cbn [fold_left]. unfold flatten_step. cbn [bind fst snd].
    change (newKey "" (a ++ "." ++ b)) with (a ++ "." ++ b)%string.
    unfold js_put. rewrite Hp.
    destruct x; try reflexivity. discriminate.
Qed.

Lemma flatten_dotted_key_collides_witness :
  flattenObject [] (VObj [("a", VObj [("b", VNum 2)]); ("a.b", VNum 1)]) ""
  = Ok [("a.b", VNum 1)]
  /\ flattenObject [] (VObj [("a.b", VNum 1)]) "" = Ok [("a.b", VNum 1)].
Proof.
  apply (flatten_dotted_key_collides "a" "b" (VNum 1) (VNum 2));
    solve [discriminate | reflexivity].
Defined.

(** ** What [unflattenObject] does with plain keys, with one dotted key
       and with [Object.prototype] *)

Lemma property_order_settled o : property_order o = true -> settled o = true.
Proof.
  induction o as [|[k v] o IH]; [reflexivity|].
  simpl. intros H. apply andb_prop in H as [Hhead Htail].
  rewrite IH by assumption. rewrite andb_true_r.
  apply forallb_forall. intros [k' v'] Hin.
  rewrite forallb_forall in Hhead. specialize (Hhead _ Hin). simpl in *.
  rewrite (in_order_not_precedes _ _ Hhead). simpl.
  apply negb_true_iff, String.eqb_neq. intros E.
  exact (in_order_neq _ _ Hhead (eq_sym E)).
Qed.

Lemma unflatten_plain_entries P obj todo : forall done,
  hasOwnProperty_callable P obj = true ->
  settled (done ++ todo) = true ->
  forallb plain_key (keys todo) = true ->
  fold_left (unflatten_visit obj) todo (Ok done, P) = (Ok (done ++ todo), P).
Proof.
  induction todo as [|[k x] todo IH]; intros done Hcall Hs Hplain.
  - rewrite app_nil_r. reflexivity.
  - simpl in Hplain. apply andb_prop in Hplain as [Hk Hplain].
    apply plain_key_inv in Hk as [Hdot [Hproto _]].
    cbn [fold_left].
    assert (Hstep : unflatten_visit obj (Ok done, P) (k, x) = (Ok (done ++ [(k, x)]), P)).
    { unfold unflatten_visit. rewrite Hcall. cbn [negb fst snd].
      rewrite (split_no_dot k Hdot), (assign_path_single P done k x Hproto).
      rewrite obj_set_end; [reflexivity|]. eapply settled_before. exact Hs. }
    rewrite Hstep. rewrite IH; try assumption.
    + rewrite <- app_assoc. reflexivity.
    + rewrite <- app_assoc. exact Hs.
Qed.

Lemma unflatten_plain_row (P : list (string * value)) (o : list (string * value)) :
  has_own P "hasOwnProperty" = false ->
  property_order o = true ->
  forallb plain_key (keys o) = true ->
  unflattenObject P o = (Ok o, P).
Proof.
  intros HP Hord Hplain.
  assert (Hown : has_own o "hasOwnProperty" = false).
  { apply has_own_false. intros Hin.
    rewrite forallb_forall in Hplain. apply Hplain in Hin.
    apply plain_key_inv in Hin as [_ [_ Hin]]. congruence. }
  assert (Hcall : hasOwnProperty_callable P o = true)
    by (unfold hasOwnProperty_callable; rewrite Hown, HP; reflexivity).
  unfold unflattenObject.
  rewrite (unflatten_plain_entries P o o [] Hcall (property_order_settled o Hord) Hplain).
  cbn [app]. rewrite Hcall. reflexivity.
Qed.

(** X4.  A row whose keys contain no dot comes back unchanged: for keys
    that are plain names, in property order, [unflattenObject] returns the
    row itself and leaves [Object.prototype] as it was. *)
Theorem unflatten_plain_keys_identity (P : list (string * value))
  (o : list (string * value)) :
  has_own P "hasOwnProperty" = false ->
  property_order o = true ->
  forallb plain_key (keys o) = true ->
  unflattenObject P o = (Ok o, P).
Proof. apply unflatten_plain_row. Qed.

Lemma unflatten_plain_keys_identity_witness :
  let row := [("0", VNum 7); ("name", VStr "Ann"); ("tags", VArr [VStr "x"]);
              ("constructor", VNull)] in
  unflattenObject [("seen", VBool true)] row = (Ok row, [("seen", VBool true)]).
Proof.
  intros row.
  apply (unflatten_plain_keys_identity [("seen", VBool true)] row); reflexivity.
Defined.

Lemma obj_get_replace_other o k j v :
  j <> k -> obj_get (obj_replace o k v) j = obj_get o j.
Proof.
  intros H. induction o as [|[k' v'] o IH]; simpl; [reflexivity|].
  destruct (k' =? k)%string eqn:E; simpl.
  - apply String.eqb_eq in E. subst k'.
    destruct (k =? j)%string eqn:E2; [apply String.eqb_eq in E2; congruence|reflexivity].
  - rewrite IH. reflexivity.
Qed.

Lemma obj_get_insert_other o k j v :
  j <> k -> obj_get (obj_insert o k v) j = obj_get o j.
Proof.
  intros H. induction o as [|[k' v'] o IH]; simpl.
  - destruct (k =? j)%string eqn:E; [apply String.eqb_eq in E; congruence|reflexivity].
  - destruct (precedes k k'); simpl.
    + destruct (k =? j)%string eqn:E; [apply String.eqb_eq in E; congruence|reflexivity].
    + rewrite IH. reflexivity.
Qed.

Lemma obj_get_set_other o k j v : j <> k -> obj_get (obj_set o k v) j = obj_get o j.
Proof.
  intros H. unfold obj_set.
  destruct (has_own o k); [apply obj_get_replace_other|apply obj_get_insert_other];
    assumption.
Qed.

Lemma split_not_nil sep s : split sep s <> [].
Proof.
  induction s as [|c s IH]; simpl; [discriminate|].
  destruct (c =? sep)%char; [discriminate|].
  destruct (split sep s); [congruence|discriminate].
Qed.

Lemma walk_ok_cons P T k k2 rest :
  walk_ok P T (k :: k2 :: rest) =
  negb (k =? "__proto__")%string
  && (negb (builtin_member k) && negb (has_own P k)
      && match obj_get T k with
         | Some (VObj child) => walk_ok P child (k2 :: rest)
         | None => walk_ok P [] (k2 :: rest)
         | Some _ => false
         end).
Proof. reflexivity. Qed.

(** Every walk is possible from the empty object when the key is clear of
    the prototype chain. *)
Lemma walk_ok_start P path :
  forallb (fun k => negb (k =? "__proto__")%string) path = true ->
  forallb (fun k => negb (builtin_member k) && negb (has_own P k)) (removelast path) = true ->
  walk_ok P [] path = true.
Proof.
  induction path as [|k rest IH]; intros Hproto Hclear; [reflexivity|].
  cbn [forallb] in Hproto. apply andb_prop in Hproto as [Hk Hproto].
  destruct rest as [|k2 rest'].
  - simpl. rewrite Hk. reflexivity.
  - change (removelast (k :: k2 :: rest')) with (k :: removelast (k2 :: rest')) in Hclear.
    cbn [forallb] in Hclear. apply andb_prop in Hclear as [Hb Hclear].
    rewrite walk_ok_cons, Hk, Hb. cbn [obj_get andb]. apply IH; assumption.
Qed.

(** Storing the object the walk has continued in keeps every later walk
    possible, as long as the later key does not continue this one. *)
Lemma walk_ok_after_set P T k child0 child' path1 :
  match obj_get T k with
  | Some (VObj c) => c = child0
  | None => child0 = []
  | Some _ => False
  end ->
  (forall path2, proper_prefix path1 path2 = false ->
                 walk_ok P child0 path2 = true -> walk_ok P child' path2 = true) ->
  forall path2, proper_prefix (k :: path1) path2 = false ->
                walk_ok P T path2 = true ->
                walk_ok P (obj_set T k (VObj child')) path2 = true.
Proof.
  intros Hget Hpres path2 Hpre Hw.
  destruct path2 as [|j [|j2 rest2]]; [reflexivity|exact Hw|].
  rewrite walk_ok_cons in *. cbn [proper_prefix] in Hpre.
  apply andb_prop in Hw as [Hj Hw]. apply andb_prop in Hw as [Hb Hw].
  rewrite Hj, Hb. cbn [andb].
  destruct (k =? j)%string eqn:E.
  - apply String.eqb_eq in E. subst j. cbn [andb] in Hpre.
    rewrite obj_get_set. apply Hpres; [exact Hpre|].
    destruct (obj_get T k) as [[| | | | |c]|]; try contradiction; subst; exact Hw.
  - apply String.eqb_neq in E. rewrite obj_get_set_other by congruence. exact Hw.
Qed.

(** A possible walk returns, leaves [Object.prototype] alone, and keeps
    possible the walks of the keys that do not continue it. *)
Lemma assign_path_walk P path : forall T v,
  path <> [] -> walk_ok P T path = true ->
  exists T',
    assign_path P T path v = Ok (T', P)
    /\ forall path2, proper_prefix path path2 = false ->
                     walk_ok P T path2 = true -> walk_ok P T' path2 = true.
Proof.
  induction path as [|k rest IH]; intros T v Hne Hw; [congruence|].
  destruct rest as [|k2 rest'].
  - simpl in Hw. rewrite andb_true_r in Hw. apply negb_true_iff in Hw.
    apply String.eqb_neq in Hw.
    exists (obj_set T k v). split; [apply assign_path_single; exact Hw|].
    intros path2 Hpre Hw2.
    destruct path2 as [|j [|j2 rest2]]; [reflexivity|exact Hw2|].
    rewrite walk_ok_cons in *. cbn [proper_prefix] in Hpre.
    rewrite andb_true_r in Hpre. apply String.eqb_neq in Hpre.
    rewrite obj_get_set_other by congruence. exact Hw2.
  - rewrite walk_ok_cons in Hw.
    apply andb_prop in Hw as [Hk Hw]. apply andb_prop in Hw as [Hbp Hw].
    apply andb_prop in Hbp as [Hb Hp].
    apply negb_true_iff in Hk, Hb, Hp.
    destruct (obj_get T k) as [[| | | | |child]|] eqn:Hget; try discriminate.
    + destruct (IH child v ltac:(discriminate) Hw) as [child' [E Hpres]].
      exists (obj_set T k (VObj child')). split.
      * rewrite (assign_path_descend _ _ _ _ _ _ _ Hget), E. reflexivity.
      * apply (walk_ok_after_set P T k child child' (k2 :: rest')); [|exact Hpres].
        rewrite Hget. reflexivity.
    + destruct (IH [] v ltac:(discriminate) Hw) as [child' [E Hpres]].
      exists (obj_set T k (VObj child')). split.
      * rewrite assign_path_create, E; [reflexivity|].
        unfold js_get. rewrite Hget, Hk. unfold has_own in Hp.
        destruct (obj_get P k); [discriminate|]. rewrite Hb. reflexivity.
      * apply (walk_ok_after_set P T k [] child' (k2 :: rest')); [|exact Hpres].
        rewrite Hget. reflexivity.
Qed.

Lemma unflatten_fold_walk P obj :
  hasOwnProperty_callable P obj = true ->
  forall L T,
    Forall (fun kv => walk_ok P T (segments (fst kv)) = true) L ->
    no_key_extends_earlier (map segments (keys L)) = true ->
    exists r, fold_left (unflatten_visit obj) L (Ok T, P) = (Ok r, P).
Proof.
  intros Hc. induction L as [|kv L IH]; intros T Hall Hpre; [exists T; reflexivity|].
  inversion Hall as [|? ? Hkv HL]; subst.
  cbn [keys map no_key_extends_earlier] in Hpre. apply andb_prop in Hpre as [Hhere Hrest].
  destruct (assign_path_walk P (segments (fst kv)) T (snd kv)
              (split_not_nil _ _) Hkv) as [T' [E Hpres]].
  assert (Hv : unflatten_visit obj (Ok T, P) kv = (Ok T', P)).
  { unfold unflatten_visit. rewrite Hc. cbn [negb]. unfold segments in E.
    rewrite E. reflexivity. }
  cbn [fold_left]. rewrite Hv. apply IH; [|exact Hrest].
  rewrite Forall_forall in *. intros kv' Hin. apply Hpres; [|apply HL; exact Hin].
  rewrite forallb_forall in Hhere. apply negb_true_iff. apply Hhere.
  apply in_map. unfold keys. apply in_map. exact Hin.
Qed.

(** X5.  Keys that stay clear of the prototype chain are unflattened
    without touching [Object.prototype]: when no segment of a key is
    [__proto__], no segment but the last names a member of
    [Object.prototype] (built in, or stored there by the program), no key
    continues an earlier key, and [hasOwnProperty] is neither a key nor
    overwritten, the call returns and the prototype is left as it was. *)
Theorem unflatten_keeps_prototype (P : list (string * value))
  (obj : list (string * value)) :
  has_own P "hasOwnProperty" = false ->
  has_own obj "hasOwnProperty" = false ->
  forallb (clear_of_prototype P) (keys obj) = true ->
  no_key_extends_earlier (map segments (keys obj)) = true ->
  exists result, unflattenObject P obj = (Ok result, P).
Proof.
  intros HP Hobj Hclear Hpre.
  assert (Hc : hasOwnProperty_callable P obj = true).
  { unfold hasOwnProperty_callable. rewrite HP, Hobj. reflexivity. }
  destruct (unflatten_fold_walk P obj Hc obj []) as [r E]; [|exact Hpre|].
  - rewrite Forall_forall. intros kv Hin. rewrite forallb_forall in Hclear.
    assert (Hk : clear_of_prototype P (fst kv) = true).
    { apply Hclear. unfold keys. apply in_map. exact Hin. }
    unfold clear_of_prototype in Hk. apply andb_prop in Hk as [H1 H2].
    apply walk_ok_start; assumption.
  - exists r. unfold unflattenObject. rewrite E, Hc. reflexivity.
Qed.

Lemma unflatten_keeps_prototype_witness :
  let P := [("seen", VBool true)] in
  let row := [("a.b", VNum 1); ("a.toString", VNum 2); ("c", VNull)] in
  unflattenObject P row
  = (Ok [("a", VObj [("b", VNum 1); ("toString", VNum 2)]); ("c", VNull)], P)
  /\ exists result, unflattenObject P row = (Ok result, P).
Proof.
  intros P row. split; [reflexivity|].
  apply (unflatten_keeps_prototype P row); reflexivity.
Defined.

(** The keys the law leaves out do reach [Object.prototype] in the code:
    a walk through a built-in member, here through [constructor] to
    [Object] and on to [Object.prototype], is not among the walks
    [assign_path] follows. *)
Lemma builtin_segment_leaves_the_walk :
  clear_of_prototype [] "constructor.prototype.polluted" = false
  /\ fst (unflattenObject [] [("constructor.prototype.polluted", VBool true)]) = Unmodelled.
Proof. split; reflexivity. Qed.

Lemma assign_path_nest path : forall v,
  path <> [] ->
  Forall (fun k => k <> "__proto__") path ->
  forallb (fun k => negb (builtin_member k)) (removelast path) = true ->
  assign_path [] [] path v = Ok (nest path v, []).
Proof.
  induction path as [|k rest IH]; intros v Hne Hproto Hbuiltin; [congruence|].
  inversion Hproto as [|? ? Hk Hrest]; subst.
  destruct rest as [|k2 rest'].
  - rewrite (assign_path_single [] [] k v Hk). reflexivity.
  - change (removelast (k :: k2 :: rest')) with (k :: removelast (k2 :: rest')) in Hbuiltin.
    cbn [forallb] in Hbuiltin. apply andb_prop in Hbuiltin as [Hb Hbuiltin].
    apply negb_true_iff in Hb.
    rewrite assign_path_create.
    + rewrite (IH v); [reflexivity|discriminate|assumption|assumption].
    + unfold js_get. cbn [obj_get]. apply String.eqb_neq in Hk. rewrite Hk, Hb. reflexivity.
Qed.

Lemma unflatten_nest (path : list string) (v : value) :
  path <> [] -> path <> ["hasOwnProperty"] ->
  forallb (fun k => no_dot k && negb (k =? "__proto__")%string) path = true ->
  forallb (fun k => negb (builtin_member k)) (removelast path) = true ->
  unflattenObject [] [(join "." path, v)] = (Ok (nest path v), []).
Proof.
  intros Hne Hnh Hseg Hbuiltin.
  assert (Hdots : Forall (fun k => no_dot k = true) path).
  { apply Forall_forall. intros k Hin. rewrite forallb_forall in Hseg.
    apply Hseg in Hin. apply andb_prop in Hin as [Hin _]. exact Hin. }
  assert (Hproto : Forall (fun k => k <> "__proto__") path).
  { apply Forall_forall. intros k Hin. rewrite forallb_forall in Hseg.
    apply Hseg in Hin. apply andb_prop in Hin as [_ Hin].
    apply negb_true_iff, String.eqb_neq in Hin. exact Hin. }
  assert (Hkey : (join "." path =? "hasOwnProperty")%string = false).
  { apply String.eqb_neq. destruct path as [|k [|k2 rest]]; [congruence| |].
    - simpl. intros E. apply Hnh. rewrite E. reflexivity.
    - change (join "." (k :: k2 :: rest)) with (k ++ "." ++ join "." (k2 :: rest))%string.
      apply dotted_not_hasOwnProperty. }
  unfold unflattenObject. cbn [fold_left]. unfold unflatten_visit.
  unfold hasOwnProperty_callable, has_own. cbn [obj_get fst snd].
  rewrite Hkey. cbn [negb andb].
  rewrite (split_join path Hne Hdots).
  rewrite (assign_path_nest path v Hne Hproto Hbuiltin). reflexivity.
Qed.

(** X6.  One dotted key builds one chain of nested objects: on a pristine
    prototype the FlatRecord with the single key [k1.k2. ... .kn] holding
    [v] unflattens to [{k1: {k2: ... {kn: v}}}]. *)
Theorem unflatten_single_path (path : list string) (v : value) :
  path <> [] -> path <> ["hasOwnProperty"] ->
  forallb (fun k => no_dot k && negb (k =? "__proto__")%string) path = true ->
  forallb (fun k => negb (builtin_member k)) (removelast path) = true ->
  unflattenObject [] [(join "." path, v)] = (Ok (nest path v), []).
Proof. apply unflatten_nest. Qed.

Lemma unflatten_single_path_witness :
  unflattenObject [] [("user.address.city", VStr "Oslo")]
  = (Ok [("user", VObj [("address", VObj [("city", VStr "Oslo")])])], []).
Proof.
  apply (unflatten_single_path ["user"; "address"; "city"] (VStr "Oslo"));
    solve [discriminate | reflexivity].
Defined.

(** X8.  A column named [__proto__.k] is written to [Object.prototype]:
    the walk steps from the fresh result onto the prototype and stores
    the value there; the row itself gets no property. *)
Theorem proto_column_writes_prototype (k : string) (v : value) :
  no_dot k = true -> k <> "__proto__" ->
  unflattenObject [] [(("__proto__." ++ k)%string, v)] = (Ok [], [(k, v)]).
Proof.
  intros Hdot Hk. apply String.eqb_neq in Hk.
  pose proof (dotted_not_hasOwnProperty "__proto__" k) as Hd.
  apply String.eqb_neq in Hd.
  unfold unflattenObject. cbn [fold_left]. unfold unflatten_visit.
  unfold hasOwnProperty_callable at 1. unfold has_own. cbn [obj_get fst snd].
  change ("__proto__." ++ k)%string with ("__proto__" ++ "." ++ k)%string.
  rewrite Hd. cbn [negb andb].
  rewrite (split_app_dot "__proto__" k eq_refl), (split_no_dot k Hdot).
  rewrite assign_path_eq. cbv zeta. unfold js_get. cbn [obj_get].
  rewrite String.eqb_refl, Hk.
  unfold hasOwnProperty_callable, has_own, inherited_visited, obj_set, has_own.
  cbn [obj_get obj_insert existsb fst snd]. rewrite Hd. cbn [negb andb orb].
  destruct (k =? "hasOwnProperty")%string eqn:E; [|reflexivity].
  apply String.eqb_eq in E. subst k. reflexivity.
Qed.

Lemma proto_column_writes_prototype_witness :
  unflattenObject [] [("__proto__.polluted", VBool true)]
  = (Ok [], [("polluted", VBool true)]).
Proof.
  apply (proto_column_writes_prototype "polluted" (VBool true));
    solve [discriminate | reflexivity].
Defined.

(** The key [a.b] after the truthy number at [a]. *)
Lemma unflatten_truthy_scalar_throws_witness :
  fst (unflattenObject [] ([("a", VNum 5)] ++ [(("a" ++ "." ++ "b")%string, VNum 1)]))
  = Throw (CannotCreateProperty "b" (VNum 5)).
Proof.
  apply (unflatten_truthy_scalar_throws [("a", VNum 5)] [("a", VNum 5)] "a" "b"
           (VNum 5) (VNum 1));
    solve [discriminate | reflexivity].
Defined.

(** ** The request handler: gate, kinds and answers *)

Lemma lower_byte_idempotent (after : bool) (c : ascii) :
  let low := fun c => if after && latin1_capital c
                      then ascii_of_nat (nat_of_ascii c + 32) else lower c in
  low (low c) = low c /\ (low c =? "195")%char = (c =? "195")%char.
Proof.
  destruct after; destruct c as [b0 b1 b2 b3 b4 b5 b6 b7];
    destruct b0, b1, b2, b3, b4, b5, b6, b7; split; reflexivity.
Qed.

Lemma lower_from_idempotent s : forall after,
  lower_from after (lower_from after s) = lower_from after s.
Proof.
  induction s as [|c s IH]; intros after; [reflexivity|].
  destruct (lower_byte_idempotent after c) as [H1 H2]. cbv zeta in H1, H2.
  cbn [lower_from]. rewrite H1, H2, IH. reflexivity.
Qed.

Lemma toLowerCase_idempotent s : toLowerCase (toLowerCase s) = toLowerCase s.
Proof. apply lower_from_idempotent. Qed.

(** X12.  The requested kind is read case-insensitively: the handler
    lower-cases it before any test, so a request answers the same as the
    request with the kind in lower case. *)
Theorem output_kind_case_insensitive (rt : Runtime) (now : N) (fo : option File)
  (o : string) (w : world) :
  POST rt now (mkRequest fo (Some o)) w
  = POST rt now (mkRequest fo (Some (toLowerCase o))) w.
Proof.
  unfold POST. cbn [file outputType]. rewrite toLowerCase_idempotent. reflexivity.
Qed.

(** X10.  The whitelist gate.  A kind that is missing, empty, or that
    neither the table nor [Object.prototype] knows is turned down with
    400 "Unsupported output type" before the body is read: no effect is
    recorded and the world is unchanged. *)
Theorem gate_rejects_before_reading (rt : Runtime) (now : N) (f : File)
  (o : option string) (w : world) :
  obj_get mimeTypes (requested_kind o) = None ->
  obj_get (prototype w) (requested_kind o) = None ->
  builtin_member (requested_kind o) = false ->
  (requested_kind o =? "__proto__")%string = false ->
  POST rt now (mkRequest (Some f) o) w
  = (Ok (json_error 400 "Unsupported output type"), w).
Proof.
  intros Hown Hinh Hbuiltin Hproto. run_handler.
  fold (requested_kind o). unfold js_get.
  rewrite Hown, Hproto, Hinh, Hbuiltin. cbn. rewrite orb_true_r. reflexivity.
Qed.

Lemma gate_rejects_before_reading_witness :
  POST sample_runtime 0 (mkRequest (Some (sample_file "a.txt" "x")) (Some "EXE")) pristine
  = (Ok (json_error 400 "Unsupported output type"), pristine)
  /\ POST sample_runtime 0 (mkRequest (Some (sample_file "a.txt" "x")) None) pristine
     = (Ok (json_error 400 "Unsupported output type"), pristine).
Proof.
  split.
  - apply (gate_rejects_before_reading sample_runtime 0 (sample_file "a.txt" "x")
             (Some "EXE") pristine); reflexivity.
  - apply (gate_rejects_before_reading sample_runtime 0 (sample_file "a.txt" "x")
             None pristine); reflexivity.
Defined.

(** X11.  The kinds [pdf] and [docx] are in the table but no route
    produces them: for every file the handler reads the body, calls no
    library and answers 400 with the "not supported" text. *)
Theorem pdf_docx_kinds_never_produced (rt : Runtime) (now : N) (f : File)
  (o : string) (w : world) :
  toLowerCase o = "pdf" \/ toLowerCase o = "docx" ->
  POST rt now (mkRequest (Some f) (Some o)) w
  = (Ok (json_error 400 (not_supported (fileExt (name f)) (toLowerCase o))),
     mkWorld (prototype w) (effects w ++ [ReadBody])).
Proof.
  intros [H|H]; run_handler; rewrite H; reflexivity.
Qed.

Lemma pdf_docx_kinds_never_produced_witness :
  POST sample_runtime 0 (mkRequest (Some (sample_file "notes.txt" "x")) (Some "PDF")) pristine
  = (Ok (json_error 400
           "Conversion from TXT to PDF is not supported. Please check the supported conversions list."),
     mkWorld [] [ReadBody]).
Proof.
  apply (pdf_docx_kinds_never_produced sample_runtime 0 (sample_file "notes.txt" "x")
           "PDF" pristine).
  left. reflexivity.
Defined.

Lemma not_supported_not_empty ext out : (not_supported ext out =? "")%string = false.
Proof. reflexivity. Qed.

Lemma server_error_not_empty m : (server_error m =? "")%string = false.
Proof. reflexivity. Qed.

(** [extractPdfText] always returns: a text that is not blank, after one
    call of pdf-parse. *)
Lemma extractPdfText_returns (rt : Runtime) (buffer : bytes) (w : world) :
  exists s,
    extractPdfText rt buffer w
    = (Ok s, mkWorld (prototype w) (effects w ++ [Called PdfParse]))
    /\ trim s <> "".
Proof.
  unfold extractPdfText, call, Handler.try_catch, Handler.bind, Handler.ret,
    Handler.throw, Handler.perform.
  destruct (pdfParse rt buffer) as [d|m]; cbn [fst snd prototype effects].
  - destruct (negb (text d =? "")%string && (0 <? js_length (trim (text d)))%nat);
      eexists; (split; [reflexivity|]).
    + cbn [String.append]. apply trim_keeps_text; [reflexivity|discriminate].
    + unfold no_text_report, lines, join. cbn [String.concat].
      cbn [String.append nl]. apply trim_keeps_text; [reflexivity|discriminate].
  - eexists. split; [reflexivity|].
    unfold unable_report, lines, join. cbn [String.concat].
    cbn [String.append nl]. apply trim_keeps_text; [reflexivity|discriminate].
Qed.

(** An answer [convert] returns early is one of its two 400 answers. *)
Lemma convert_early rt f out buffer w r w' :
  convert rt f out buffer w = (Ok (inl r), w') -> error_answer r = true.
Proof.
  unfold convert, call, Handler.bind, Handler.ret,
    Handler.throw, Handler.perform, Handler.get_prototype, Handler.lift.
  intros H.
  repeat match type of H with
         | (if ?c then _ else _) _ = _ => destruct c
         | (if ?c then _ else _) = _ => destruct c
         end;
    cbn [fst snd prototype effects] in H.
  - destruct (mammoth_extractRawText rt buffer); discriminate.
  - destruct (extractPdfText_returns rt buffer w) as [s [E _]].
    rewrite E in H. discriminate.
  - destruct (papa_parse rt (utf8_decode rt buffer)) as [parsed|m]; [|discriminate].
    match type of H with
    | context [Handler.for_each ?g ?rows ?w0] =>
        destruct (Handler.for_each g rows w0) as [[l| |] w'']
    end; discriminate.
  - destruct (json_parse rt (utf8_decode rt buffer)) as [jsonData|m]; [|discriminate].
    cbn [fst snd prototype effects] in H.
    destruct jsonData as [| | | |items|o];
      try (injection H as <- _; reflexivity).
    + match type of H with
      | context [Handler.for_each ?g ?rows ?w0] =>
          destruct (Handler.for_each g rows w0) as [[l| |] w'']
      end; try discriminate.
      cbn [fst snd prototype effects] in H.
      destruct (papa_unparse rt l); discriminate.
    + destruct (flattenObject _ (VObj o) ""); try discriminate.
      cbn [fst snd prototype effects] in H.
      destruct (papa_unparse rt _); discriminate.
  - destruct (sharp_png rt buffer); discriminate.
  - destruct (sharp_jpeg rt buffer); discriminate.
  - discriminate.
  - injection H as <- _. reflexivity.
Qed.


(** X9.  The PDF parser cannot make the PDF route fail: for a [.pdf]
    upload and kind [txt] the handler answers after one call of pdf-parse,
    whatever pdf-parse returns or throws.  The answer is 200 [text/plain]
    with a text that is not blank when the first segment of the file name
    gives a valid header value, and the 500 for the invalid header
    otherwise. *)
Theorem pdf_route_fails_only_by_name (rt : Runtime) (now : N) (f : File) (o : string)
  (w : world) :
  toLowerCase o = "txt" ->
  endsWith (name f) ".pdf" = true ->
  exists s,
    POST rt now (mkRequest (Some f) (Some o)) w
    = (Ok (if valid_header_value (hd "" (split "." (name f)))
           then mkResponse 200 "text/plain; charset=utf-8"
                  (Some (download_name (hd "" (split "." (name f))) now "txt"))
                  (Converted (Text s))
           else json_error 500
                  (server_error
                     (engine_message rt
                        (InvalidHeaderValue
                           (download_name (hd "" (split "." (name f))) now "txt"))))),
       mkWorld (prototype w) (effects w ++ [ReadBody; Called PdfParse]))
    /\ trim s <> "".
Proof.
  intros Hout Hpdf.
  destruct (extractPdfText_returns rt (content f)
              (mkWorld (prototype w) (effects w ++ [ReadBody]))) as [s [E Hs]].
  exists s. split; [|exact Hs].
  rewrite POST_some. unfold requested_kind. rewrite Hout.
  unfold convert, Handler.bind, Handler.ret. cbn -[extractPdfText valid_header_value].
  rewrite Hpdf. cbn -[extractPdfText valid_header_value]. rewrite E.
  cbn [fst snd prototype effects]. rewrite <- app_assoc.
  destruct (valid_header_value (hd "" (split "." (name f)))); reflexivity.
Qed.

Lemma pdf_route_fails_only_by_name_witness :
  (exists s,
     POST failing_runtime 7 (mkRequest (Some (sample_file "scan.pdf" "x")) (Some "TXT"))
       pristine
     = (Ok (mkResponse 200 "text/plain; charset=utf-8"
              (Some (download_name "scan" 7 "txt")) (Converted (Text s))),
        mkWorld [] [ReadBody; Called PdfParse])
     /\ trim s <> "")
  /\ fst (POST failing_runtime 7
            (mkRequest (Some (sample_file ("scan" ++ nl ++ "1.pdf")%string "x")) (Some "TXT"))
            pristine)
     = Ok (json_error 500
             (server_error
                (engine_message failing_runtime
                   (InvalidHeaderValue
                      (download_name ("scan" ++ nl ++ "1")%string 7 "txt"))))).
Proof.
  split.
  - exact (pdf_route_fails_only_by_name failing_runtime 7 (sample_file "scan.pdf" "x")
             "TXT" pristine eq_refl eq_refl).
  - destruct (pdf_route_fails_only_by_name failing_runtime 7
                (sample_file ("scan" ++ nl ++ "1.pdf")%string "x") "TXT" pristine
                eq_refl eq_refl) as [s [H _]].
    rewrite H. reflexivity.
Defined.

(** X14.  A JSON document that is neither an array nor an object (a
    number, a string, a boolean or [null]) is answered with 400 "JSON must
    be an object or array of objects"; the CSV writer is not called. *)
Theorem json_scalar_rejected (rt : Runtime) (now : N) (f : File) (o : string)
  (w : world) (v : value) :
  toLowerCase o = "csv" ->
  endsWith (name f) ".json" = true ->
  json_parse rt (utf8_decode rt (content f)) = Returns v ->
  is_scalar v = true ->
  POST rt now (mkRequest (Some f) (Some o)) w
  = (Ok (json_error 400 "JSON must be an object or array of objects"),
     mkWorld (prototype w) (effects w ++ [ReadBody; Called JsonParse])).
Proof.
  intros Hout Hjson Hparse Hv. run_handler. rewrite Hout, Hjson. cbn.
  rewrite Hparse. cbn. rewrite <- app_assoc.
  destruct v; try discriminate; reflexivity.
Qed.

Lemma json_scalar_rejected_witness :
  POST sample_runtime 0 (mkRequest (Some (sample_file "n.json" "null")) (Some "csv")) pristine
  = (Ok (json_error 400 "JSON must be an object or array of objects"),
     mkWorld [] [ReadBody; Called JsonParse]).
Proof.
  apply (json_scalar_rejected sample_runtime 0 (sample_file "n.json" "null") "csv"
           pristine VNull); reflexivity.
Defined.

(** X15.  A [.json] upload that [JSON.parse] rejects is answered with 500
    and the parser's message behind "Server error: "; nothing else is
    called. *)
Theorem malformed_json_answers_500 (rt : Runtime) (now : N) (f : File) (o : string)
  (w : world) (m : string) :
  toLowerCase o = "csv" ->
  endsWith (name f) ".json" = true ->
  json_parse rt (utf8_decode rt (content f)) = Raises m ->
  POST rt now (mkRequest (Some f) (Some o)) w
  = (Ok (json_error 500 (server_error m)),
     mkWorld (prototype w) (effects w ++ [ReadBody; Called JsonParse])).
Proof.
  intros Hout Hjson Hparse. run_handler. rewrite Hout, Hjson. cbn.
  rewrite Hparse. cbn. rewrite <- app_assoc. reflexivity.
Qed.

Lemma malformed_json_answers_500_witness :
  POST failing_runtime 0 (mkRequest (Some (sample_file "n.json" "{")) (Some "csv")) pristine
  = (Ok (json_error 500 (server_error "bad input")),
     mkWorld [] [ReadBody; Called JsonParse]).
Proof.
  apply (malformed_json_answers_500 failing_runtime 0 (sample_file "n.json" "{") "csv"
           pristine "bad input"); reflexivity.
Defined.

(** X16.  A single JSON object is converted like the array that holds
    just that object: the two uploads get the same answer. *)
Theorem single_object_as_one_row (rt : Runtime) (now : N) (file_name mime : string)
  (one many : bytes) (o : string) (w : world) (r : list (string * value)) :
  toLowerCase o = "csv" ->
  endsWith file_name ".json" = true ->
  json_parse rt (utf8_decode rt one) = Returns (VObj r) ->
  json_parse rt (utf8_decode rt many) = Returns (VArr [VObj r]) ->
  POST rt now (mkRequest (Some (mkFile file_name mime one)) (Some o)) w
  = POST rt now (mkRequest (Some (mkFile file_name mime many)) (Some o)) w.
Proof.
  intros Hout Hjson Hone Hmany. run_handler.
  cbn [name type content]. rewrite Hout, Hjson. cbn -[flattenObject].
  rewrite Hone, Hmany. cbn -[flattenObject].
  destruct (flattenObject (prototype w) (VObj r) "") as [flat| |]; reflexivity.
Qed.

Lemma single_object_as_one_row_witness :
  POST table_runtime 0
    (mkRequest (Some (mkFile "d.json" "" (list_byte_of_string "one"))) (Some "csv")) pristine
  = POST table_runtime 0
      (mkRequest (Some (mkFile "d.json" "" (list_byte_of_string "many"))) (Some "csv"))
      pristine.
Proof.
  apply (single_object_as_one_row table_runtime 0 "d.json" ""
           (list_byte_of_string "one") (list_byte_of_string "many") "csv" pristine
           [("a", VObj [("b", VNum 1)])]); reflexivity.
Defined.

(** X17.  The kinds [jpg] and [jpeg] are one conversion: for a file taken
    for an image both requests run the same JPEG encoding, leave the same
    world and get the same status and content type; they get the same
    body too when the first segment of the file name gives a valid header
    value (the text of the error for an invalid one may quote the
    suggested file name, which ends in the kind). *)
Theorem jpg_and_jpeg_agree (rt : Runtime) (now : N) (f : File) (w : world) :
  is_image f = true ->
  snd (POST rt now (mkRequest (Some f) (Some "jpg")) w)
  = snd (POST rt now (mkRequest (Some f) (Some "jpeg")) w)
  /\ match fst (POST rt now (mkRequest (Some f) (Some "jpg")) w),
           fst (POST rt now (mkRequest (Some f) (Some "jpeg")) w) with
     | Ok r, Ok r' =>
         status r = status r' /\ contentType r = contentType r'
         /\ (valid_header_value (hd "" (split "." (name f))) = true ->
             responseBody r = responseBody r')
     | _, _ => False
     end.
Proof.
  unfold is_image. intros Himg. rewrite !POST_some.
  unfold requested_kind, convert, call, Handler.bind, Handler.ret, Handler.perform.
  change (toLowerCase "jpg") with "jpg". change (toLowerCase "jpeg") with "jpeg".
  cbn -[valid_header_value split matches_image_extension download_name].
  rewrite Himg. cbn -[valid_header_value split download_name].
  destruct (sharp_jpeg rt (content f)); cbn -[valid_header_value split download_name];
    [|auto].
  destruct (valid_header_value (hd "" (split "." (name f)))); cbn; auto.
  repeat split. discriminate.
Qed.

Lemma jpg_and_jpeg_agree_witness :
  let f := mkFile "photo.PNG" "" (list_byte_of_string "x") in
  snd (POST table_runtime 0 (mkRequest (Some f) (Some "jpg")) pristine)
  = snd (POST table_runtime 0 (mkRequest (Some f) (Some "jpeg")) pristine)
  /\ match fst (POST table_runtime 0 (mkRequest (Some f) (Some "jpg")) pristine),
           fst (POST table_runtime 0 (mkRequest (Some f) (Some "jpeg")) pristine) with
     | Ok r, Ok r' =>
         status r = 200 /\ status r' = 200
         /\ contentType r = "image/jpeg" /\ contentType r' = "image/jpeg"
         /\ responseBody r = responseBody r'
     | _, _ => False
     end.
Proof.
  intros f.
  pose proof (jpg_and_jpeg_agree table_runtime 0 f pristine eq_refl) as [Hw H].
  split; [exact Hw|].
  revert H. vm_compute. intros [_ [_ H]].
  do 4 (split; [reflexivity|]). exact (H eq_refl).
Defined.

(** Where the header value is refused, the two kinds can be told apart
    by the error text, which may quote the suggested file name. *)
Lemma jpg_and_jpeg_differ_in_error_text :
  let f := mkFile ("my" ++ nl ++ "photo.png")%string "image/png" (list_byte_of_string "x") in
  match fst (POST quoting_runtime 0 (mkRequest (Some f) (Some "jpg")) pristine),
        fst (POST quoting_runtime 0 (mkRequest (Some f) (Some "jpeg")) pristine) with
  | Ok r, Ok r' =>
      status r = 500 /\ status r' = 500 /\ responseBody r <> responseBody r'
  | _, _ => False
  end.
Proof. vm_compute. repeat split. discriminate. Qed.

(** ** The CSV route and [Object.prototype] *)

Lemma for_each_plain_rows (rows : list (list (string * value))) : forall w,
  has_own (prototype w) "hasOwnProperty" = false ->
  forallb plain_row rows = true ->
  Handler.for_each
    (fun row => Handler.on_prototype (fun P => unflattenObject P row)) rows w
  = (Ok rows, w).
Proof.
  induction rows as [|row rows IH]; intros w HP Hrows; [reflexivity|].
  simpl in Hrows. apply andb_prop in Hrows as [Hrow Hrows].
  unfold plain_row in Hrow. apply andb_prop in Hrow as [Hord Hplain].
  cbn [Handler.for_each]. unfold Handler.bind at 1. unfold Handler.on_prototype at 1.
  rewrite (unflatten_plain_row (prototype w) row HP Hord Hplain).
  cbn [fst snd].
  assert (Hw : mkWorld (prototype w) (effects w) = w) by (destruct w; reflexivity).
  rewrite Hw. unfold Handler.bind. rewrite (IH w HP Hrows). reflexivity.
Qed.

(** X19.  A CSV file whose column names contain no dot passes through:
    when every parsed row has plain names as keys and the first segment
    of the file name gives a valid header value, the answer is 200 with
    the rows serialised as the parser returned them, under the [meta]
    block, and [Object.prototype] is not touched. *)
Theorem csv_plain_columns_pass_through (rt : Runtime) (now : N) (f : File) (o : string)
  (w : world) (parsed : CsvParsed) :
  toLowerCase o = "json" ->
  endsWith (name f) ".csv" = true ->
  valid_header_value (hd "" (split "." (name f))) = true ->
  has_own (prototype w) "hasOwnProperty" = false ->
  papa_parse rt (utf8_decode rt (content f)) = Returns parsed ->
  forallb plain_row (data parsed) = true ->
  POST rt now (mkRequest (Some f) (Some o)) w
  = (Ok (mkResponse 200 "application/json; charset=utf-8"
           (Some (download_name (hd "" (split "." (name f))) now "json"))
           (Converted
              (Text (json_stringify rt
                       (csv_document (name f) (data parsed) (fields parsed)))))),
     mkWorld (prototype w) (effects w ++ [ReadBody; Called PapaParse])).
Proof.
  intros Hout Hcsv Hvalid HP Hparse Hrows.
  rewrite POST_some, Hvalid. unfold requested_kind. rewrite Hout.
  unfold convert, call, Handler.bind, Handler.ret, Handler.throw, Handler.perform.
  cbn [prototype effects fst snd]. rewrite Hcsv. cbn.
  rewrite Hparse. cbn [fst snd prototype effects].
  rewrite for_each_plain_rows by assumption.
  cbn. rewrite <- app_assoc. reflexivity.
Qed.

Lemma csv_plain_columns_pass_through_witness :
  POST table_runtime 3 (mkRequest (Some (sample_file "people.csv" "x")) (Some "json"))
    pristine
  = (Ok (mkResponse 200 "application/json; charset=utf-8"
           (Some (download_name "people" 3 "json"))
           (Converted (Text "document"))),
     mkWorld [] [ReadBody; Called PapaParse]).
Proof.
  apply (csv_plain_columns_pass_through table_runtime 3 (sample_file "people.csv" "x")
           "json" pristine
           (mkCsvParsed [ [("id", VNum 1); ("name", VStr "Ann")];
                          [("id", VNum 2); ("name", VNull)] ]
                        (Some ["id"; "name"])));
    reflexivity.
Defined.

Lemma unflatten_poisoned P row :
  has_own P "hasOwnProperty" = true -> row <> [] ->
  unflattenObject P row = (Throw NotAFunction, P).
Proof.
  intros HP Hrow. destruct row as [|kv row]; [congruence|].
  unfold unflattenObject. cbn [fold_left].
  assert (Hv : unflatten_visit (kv :: row) (Ok [], P) kv = (Throw NotAFunction, P)).
  { unfold unflatten_visit, hasOwnProperty_callable. rewrite HP.
    rewrite andb_false_r. reflexivity. }
  rewrite Hv. rewrite unflatten_visit_failed by (simpl; discriminate). reflexivity.
Qed.

(** X22.  Once [Object.prototype.hasOwnProperty] has been overwritten
    (a column [__proto__.hasOwnProperty] does that), the CSV route is
    out of service: every upload whose first row has a column is answered
    with 500, the TypeError of the guard [obj.hasOwnProperty(key)]. *)
Theorem poisoned_prototype_fails_csv (rt : Runtime) (now : N) (f : File) (o : string)
  (w : world) (parsed : CsvParsed) (row : list (string * value))
  (rows : list (list (string * value))) :
  toLowerCase o = "json" ->
  endsWith (name f) ".csv" = true ->
  has_own (prototype w) "hasOwnProperty" = true ->
  papa_parse rt (utf8_decode rt (content f)) = Returns parsed ->
  data parsed = row :: rows -> row <> [] ->
  POST rt now (mkRequest (Some f) (Some o)) w
  = (Ok (json_error 500 (server_error (engine_message rt NotAFunction))),
     mkWorld (prototype w) (effects w ++ [ReadBody; Called PapaParse])).
Proof.
  intros Hout Hcsv HP Hparse Hdata Hrow.
  unfold POST, convert, call, Handler.try_catch, Handler.bind, Handler.ret,
    Handler.throw, Handler.perform, Handler.get_prototype.
  cbn [file outputType prototype effects fst snd]. rewrite Hout, Hcsv. cbn.
  rewrite Hparse. cbn [fst snd prototype effects]. rewrite Hdata.
  cbn [Handler.for_each]. unfold Handler.bind at 1. unfold Handler.on_prototype at 1.
  cbn [prototype]. rewrite (unflatten_poisoned _ row HP Hrow).
  cbn. rewrite <- app_assoc. reflexivity.
Qed.

Lemma poisoned_prototype_fails_csv_witness :
  unflattenObject [] [("__proto__.hasOwnProperty", VNum 1)]
  = (Ok [], [("hasOwnProperty", VNum 1)])
  /\ POST table_runtime 0 (mkRequest (Some (sample_file "people.csv" "x")) (Some "json"))
       (mkWorld [("hasOwnProperty", VNum 1)] [])
     = (Ok (json_error 500 (server_error "obj.hasOwnProperty is not a function")),
        mkWorld [("hasOwnProperty", VNum 1)] [ReadBody; Called PapaParse]).
Proof.
  split; [reflexivity|].
  apply (poisoned_prototype_fails_csv table_runtime 0 (sample_file "people.csv" "x")
           "json" (mkWorld [("hasOwnProperty", VNum 1)] [])
           (mkCsvParsed [ [("id", VNum 1); ("name", VStr "Ann")];
                          [("id", VNum 2); ("name", VNull)] ]
                        (Some ["id"; "name"]))
           [("id", VNum 1); ("name", VStr "Ann")]
           [[("id", VNum 2); ("name", VNull)]]);
    solve [reflexivity | discriminate].
Defined.

(** ** The suggested file name *)

Lemma split_head s :
  no_dot (hd "" (split "." s)) = true
  /\ (s = hd "" (split "." s)
      \/ exists rest, s = (hd "" (split "." s) ++ "." ++ rest)%string).
Proof.
  induction s as [|c s [IH1 IH2]]; [split; [reflexivity|left; reflexivity]|].
  simpl. destruct (c =? ".")%char eqn:E.
  - apply Ascii.eqb_eq in E. subst c. split; [reflexivity|].
    right. exists s. reflexivity.
  - destruct (split "." s) as [|h t] eqn:Hs.
    + split; [simpl; rewrite E; reflexivity|]. left.
      simpl in IH2. destruct IH2 as [->|[rest ->]]; [reflexivity|].
      exfalso. clear -Hs. induction rest; simpl in Hs; discriminate.
    + simpl in *. split; [rewrite E, IH1; reflexivity|].
      destruct IH2 as [->|[rest ->]]; [left; reflexivity|].
      right. exists rest. reflexivity.
Qed.

(** X18.  The suggested download name keeps what precedes the first dot
    of the uploaded name, and nothing else of it: every 200 answer names
    the file [stem-converted-<now>.<kind>], where [stem] has no dot and
    the uploaded name is [stem] or continues with a dot after it. *)
Theorem download_name_keeps_first_segment (rt : Runtime) (now : N) (f : File)
  (o : option string) (w w' : world) (r : Response) :
  POST rt now (mkRequest (Some f) o) w = (Ok r, w') ->
  status r = 200 ->
  exists stem,
    contentDisposition r = Some (download_name stem now (requested_kind o))
    /\ no_dot stem = true
    /\ (name f = stem \/ exists rest, name f = (stem ++ "." ++ rest)%string).
Proof.
  rewrite POST_some. intros H Hstatus.
  match type of H with
  | context [if ?c then _ else _] => destruct c
  end; [injection H as <- _; discriminate|].
  destruct (convert rt f _ _ _) as [[[early|converted]|e|] w''] eqn:Hc;
    cbn [fst snd] in H.
  - injection H as <- _. apply convert_early in Hc.
    unfold error_answer in Hc. rewrite Hstatus in Hc. discriminate.
  - destruct (obj_get mimeTypes (requested_kind o)) as [[| | |mime| |]|];
      try discriminate.
    destruct (valid_header_value (hd "" (split "." (name f))));
      injection H as <- _; [|discriminate].
    exists (hd "" (split "." (name f))).
    split; [reflexivity|]. apply split_head.
  - injection H as <- _. discriminate.
  - discriminate.
Qed.

Lemma download_name_keeps_first_segment_witness :
  exists stem,
    contentDisposition
      (mkResponse 200 "text/markdown; charset=utf-8"
         (Some (download_name "report" 5 "md"))
         (Converted (Text (join nl (txt_markdown "report.final.txt" "")))))
    = Some (download_name stem 5 (requested_kind (Some "md")))
    /\ no_dot stem = true
    /\ ("report.final.txt" = stem
        \/ exists rest, "report.final.txt" = (stem ++ "." ++ rest)%string).
Proof.
  apply (download_name_keeps_first_segment sample_runtime 5
           (sample_file "report.final.txt" "") (Some "md") pristine
           (mkWorld [] [ReadBody])); reflexivity.
Defined.

(** A text file declared as an image, and with no declared type. *)
Lemma mime_only_for_images_witness :
  POST sample_runtime 0
    (mkRequest (Some (mkFile "notes.txt" "image/png" [])) (Some "md")) pristine
  = POST sample_runtime 0
      (mkRequest (Some (mkFile "notes.txt" "" [])) (Some "md")) pristine.
Proof.
  apply (mime_only_for_images sample_runtime 0 "notes.txt" "image/png" "" [] "md"
           pristine); discriminate.
Defined.

(** ** Plain text: line endings *)

Lemma split_app_sep c k t :
  lacks c k = true -> split c (k ++ String c t) = k :: split c t.
Proof.
  induction k as [|a k IH]; simpl; intros H.
  - rewrite Ascii.eqb_refl. reflexivity.
  - apply andb_prop in H as [Ha Hk]. apply negb_true_iff in Ha.
    rewrite Ha, (IH Hk). reflexivity.
Qed.

Lemma lacks_app c a b : lacks c (a ++ b) = lacks c a && lacks c b.
Proof.
  induction a as [|x a IH]; simpl; [reflexivity|].
  rewrite IH, andb_assoc. reflexivity.
Qed.

Lemma ws2_cr c : ws2 c "013" = false.
Proof. unfold ws2. apply andb_false_r. Qed.

Lemma ws3_cr c1 c2 : ws3 c1 c2 "013" = false.
Proof.
  unfold ws3.
  repeat match goal with
         | |- context [Ascii.eqb ?a ?b] => is_var a; destruct (Ascii.eqb a b)
         end; reflexivity.
Qed.

(** A carriage return behind a text is white space at its end. *)
Lemma trimStart_app_cr s :
  trimStart (s ++ cr) = if blank s then "" else (trimStart s ++ cr)%string.
Proof.
  remember (String.length s) as n eqn:Hn.
  assert (Hle : (String.length s <= n)%nat) by lia. clear Hn.
  revert s Hle. induction n as [|n IH]; intros s Hle.
  - destruct s; [reflexivity|simpl in Hle; lia].
  - destruct s as [|c1 r1]; [reflexivity|]. simpl in Hle.
    unfold blank. cbn [String.append trimStart].
    destruct (ws1 c1).
    { apply IH. lia. }
    destruct r1 as [|c2 r2].
    { cbn [String.append]. unfold cr. rewrite ws2_cr. reflexivity. }
    simpl in Hle. cbn [String.append].
    destruct (ws2 c1 c2).
    { apply IH. lia. }
    destruct r2 as [|c3 r3].
    { cbn [String.append]. unfold cr. rewrite ws3_cr. reflexivity. }
    simpl in Hle. cbn [String.append].
    destruct (ws3 c1 c2 c3).
    { apply IH. lia. }
    reflexivity.
Qed.

Lemma blank_app_cr s : blank (s ++ cr) = blank s.
Proof.
  unfold blank at 1. rewrite trimStart_app_cr.
  destruct (blank s) eqn:E; [reflexivity|].
  destruct (trimStart s); reflexivity.
Qed.

Lemma trimEnd_app_cr t : trimEnd (t ++ cr) = trimEnd t.
Proof.
  induction t as [|a t IH]; [reflexivity|].
  cbn [String.append trimEnd].
  change (String a (t ++ cr)) with (String a t ++ cr)%string.
  rewrite blank_app_cr, IH. reflexivity.
Qed.

Lemma trim_app_cr s : trim (s ++ cr) = trim s.
Proof.
  unfold trim. rewrite trimStart_app_cr.
  destruct (blank s) eqn:E; [|apply trimEnd_app_cr].
  unfold blank in E. apply String.eqb_eq in E. rewrite E. reflexivity.
Qed.

(** The lines the TXT route pushes depend on the source lines through
    [trim] only. *)
Lemma txt_markdown_trimmed file_name s1 s2 :
  map trim (split "010" s1) = map trim (split "010" s2) ->
  txt_markdown file_name s1 = txt_markdown file_name s2.
Proof.
  intros H. unfold txt_markdown.
  set (g := fun trimmed : string =>
              if (trimmed =? "")%string then ""
              else if (js_length trimmed <? 60)%nat
                      && negb (ends_with_terminal trimmed)
                      && negb (includes trimmed " ")
                   then ("## " ++ trimmed)%string
                   else trimmed).
  assert (Hfold : forall l init,
             fold_left
               (fun markdown line =>
                  let trimmed := trim line in
                  if (trimmed =? "")%string then markdown ++ [""]
                  else if (js_length trimmed <? 60)%nat
                          && negb (ends_with_terminal trimmed)
                          && negb (includes trimmed " ")
                       then markdown ++ [("## " ++ trimmed)%string]
                       else if startsWith trimmed "- " || startsWith trimmed "* "
                            then markdown ++ [trimmed]
                            else markdown ++ [trimmed])
               l init
             = init ++ map g (map trim l)).
  { induction l as [|x l IH]; intros init; cbn [fold_left map].
    - rewrite app_nil_r. reflexivity.
    - rewrite IH. cbv zeta. unfold g at 2.
      destruct (trim x =? "")%string;
        [rewrite <- app_assoc; reflexivity|].
      destruct ((js_length (trim x) <? 60)%nat
                && negb (ends_with_terminal (trim x))
                && negb (includes (trim x) " "));
        [rewrite <- app_assoc; reflexivity|].
      destruct (startsWith (trim x) "- " || startsWith (trim x) "* ");
        rewrite <- app_assoc; reflexivity. }
  rewrite !Hfold, H. reflexivity.
Qed.

Lemma crlf_lines_trim_alike (ls : list string) :
  forallb (lacks "010") ls = true ->
  map trim (split "010" (join crlf ls)) = map trim (split "010" (join nl ls)).
Proof.
  induction ls as [|l ls IH]; intros H; [reflexivity|].
  simpl in H. apply andb_prop in H as [Hl Hls].
  destruct ls as [|l2 ls']; [reflexivity|].
  change (join crlf (l :: l2 :: ls'))
    with (l ++ crlf ++ join crlf (l2 :: ls'))%string.
  change (join nl (l :: l2 :: ls'))
    with (l ++ nl ++ join nl (l2 :: ls'))%string.
  change (l ++ crlf ++ join crlf (l2 :: ls'))%string
    with (l ++ (cr ++ String "010" (join crlf (l2 :: ls'))))%string.
  change (l ++ nl ++ join nl (l2 :: ls'))%string
    with (l ++ String "010" (join nl (l2 :: ls')))%string.
  rewrite <- append_assoc.
  rewrite split_app_sep by (rewrite lacks_app, Hl; reflexivity).
  rewrite split_app_sep by assumption.
  cbn [map]. rewrite (IH Hls).
  rewrite trim_app_cr. reflexivity.
Qed.

(** X23.  Windows line endings make no difference: a text whose lines are
    separated by CR LF is converted to the same Markdown lines as the text
    with the same lines separated by LF. *)
Theorem crlf_converts_like_lf (file_name : string) (ls : list string) :
  forallb (lacks "010") ls = true ->
  txt_markdown file_name (join crlf ls) = txt_markdown file_name (join nl ls).
Proof.
  intros H. apply txt_markdown_trimmed. apply crlf_lines_trim_alike. assumption.
Qed.

Lemma crlf_converts_like_lf_witness :
  txt_markdown "notes.txt" (join crlf ["Title"; ""; "Some words here."])
  = txt_markdown "notes.txt" (join nl ["Title"; ""; "Some words here."]).
Proof.
  apply (crlf_converts_like_lf "notes.txt" ["Title"; ""; "Some words here."]).
  reflexivity.
Defined.

(** ** One column, there and back *)

Lemma path_key_cons p k rest : path_key p (k :: rest) = path_key (newKey p k) rest.
Proof. reflexivity. Qed.

Lemma newKey_not_proto p k : k <> "__proto__" -> newKey p k <> "__proto__".
Proof.
  intros Hk. unfold newKey. destruct (p =? "")%string; [assumption|].
  apply dotted_not_proto.
Qed.

Lemma path_key_not_proto path : forall p,
  path <> [] -> Forall (fun k => k <> "__proto__") path ->
  path_key p path <> "__proto__".
Proof.
  induction path as [|k rest IH]; intros p Hne Hall; [congruence|].
  inversion Hall as [|? ? Hk Hrest]; subst.
  destruct rest as [|k2 rest'].
  - apply newKey_not_proto. assumption.
  - rewrite path_key_cons. apply IH; [discriminate|assumption].
Qed.

Lemma flatten_nest path : forall p v,
  path <> [] ->
  Forall (fun k => k <> "__proto__" /\ k <> "hasOwnProperty") path ->
  is_record v = false ->
  flattenObject [] (VObj (nest path v)) p = Ok [(path_key p path, v)].
Proof.
  induction path as [|k rest IH]; intros p v Hne Hall Hv; [congruence|].
  inversion Hall as [|? ? [Hk Hh] Hrest]; subst.
  apply String.eqb_neq in Hh.
  assert (Hproto : Forall (fun k => k <> "__proto__") (k :: rest)).
  { eapply Forall_impl; [|exact Hall]. intros a [Ha _]. exact Ha. }
  pose proof (path_key_not_proto (k :: rest) p Hne Hproto) as Hkey.
  apply String.eqb_neq in Hkey.
  destruct rest as [|k2 rest'].
  - cbn [nest]. rewrite flattenObject_obj.
    unfold own_loop_fails, for_in_visits, hasOwnProperty_callable, has_own.
    cbn [obj_get existsb negb orb andb]. rewrite Hh. cbn [negb andb].
    cbn [fold_left]. unfold flatten_step. cbn [bind fst snd].
    unfold js_put. change (path_key p [k]) with (newKey p k) in Hkey |- *.
    rewrite Hkey. destruct v; try reflexivity. discriminate.
  - change (nest (k :: k2 :: rest') v) with [(k, VObj (nest (k2 :: rest') v))].
    rewrite flattenObject_obj.
    unfold own_loop_fails, for_in_visits, hasOwnProperty_callable, has_own.
    cbn [obj_get existsb negb orb andb]. rewrite Hh. cbn [negb andb].
    cbn [fold_left]. unfold flatten_step. cbn [bind fst snd].
    rewrite (IH (newKey p k) v); [|discriminate|assumption|assumption].
    cbn [bind]. unfold assign. cbn [fold_left bind fst snd].
    unfold js_put. rewrite path_key_cons in Hkey. rewrite Hkey.
    rewrite path_key_cons. reflexivity.
Qed.

(** X29.  One dotted column survives the way there and back: the
    FlatRecord with the single key [k1.k2. ... .kn] unflattens to a
    Record that flattens to that FlatRecord again. *)
Theorem single_column_round_trip (path : list string) (v : value) :
  path <> [] ->
  forallb (fun k => no_dot k && negb (k =? "__proto__")%string
                    && negb (k =? "hasOwnProperty")%string) path = true ->
  forallb (fun k => negb (builtin_member k) && negb (k =? "")%string)
          (removelast path) = true ->
  is_record v = false ->
  exists r,
    unflattenObject [] [(join "." path, v)] = (Ok r, [])
    /\ flattenObject [] (VObj r) "" = Ok [(join "." path, v)].
Proof.
  intros Hne Hseg Hinner Hv.
  assert (Hall : Forall (fun k => k <> "__proto__" /\ k <> "hasOwnProperty") path).
  { apply Forall_forall. intros k Hin. rewrite forallb_forall in Hseg.
    apply Hseg in Hin. apply andb_prop in Hin as [Hin Hh].
    apply andb_prop in Hin as [_ Hp].
    apply negb_true_iff, String.eqb_neq in Hp, Hh. auto. }
  exists (nest path v). split.
  - apply unflatten_nest; try assumption.
    + intros ->. discriminate.
    + apply forallb_forall. intros k Hin. rewrite forallb_forall in Hseg.
      apply Hseg in Hin. apply andb_prop in Hin as [Hin _]. exact Hin.
    + apply forallb_forall. intros k Hin. rewrite forallb_forall in Hinner.
      apply Hinner in Hin. apply andb_prop in Hin as [Hin _]. exact Hin.
  - rewrite (flatten_nest path "" v Hne Hall Hv).
    destruct path as [|k rest]; [congruence|].
    rewrite path_key_top; [reflexivity|].
    intros Hrest E. subst k. destruct rest as [|k2 rest']; [congruence|].
    change (removelast ("" :: k2 :: rest')) with ("" :: removelast (k2 :: rest')) in Hinner.
    cbn [forallb] in Hinner. apply andb_prop in Hinner as [Hinner _].
    apply andb_prop in Hinner as [_ Hinner]. discriminate.
Qed.

Lemma single_column_round_trip_witness :
  exists r,
    unflattenObject [] [("user.address.city", VStr "Oslo")] = (Ok r, [])
    /\ flattenObject [] (VObj r) "" = Ok [("user.address.city", VStr "Oslo")].
Proof.
  apply (single_column_round_trip ["user"; "address"; "city"] (VStr "Oslo"));
    solve [discriminate | reflexivity].
Defined.

(** ** Scalars among the items of a JSON array *)

Lemma for_each_keyless_items P (items : list value) : forall w,
  has_own P "hasOwnProperty" = false ->
  forallb keyless items = true ->
  Handler.for_each (fun item => Handler.lift (flattenObject P item "")) items w
  = (Ok (map (fun _ => []) items), w).
Proof.
  induction items as [|item items IH]; intros w HP Hitems; [reflexivity|].
  simpl in Hitems. apply andb_prop in Hitems as [Hitem Hitems].
  cbn [Handler.for_each map]. unfold Handler.bind at 1. unfold Handler.lift at 1.
  assert (E : flattenObject P item "" = Ok []).
  { destruct item; try discriminate; simpl; [reflexivity| |];
      unfold own_loop_fails, hasOwnProperty_callable; rewrite HP;
      rewrite andb_false_r; reflexivity. }
  rewrite E. unfold Handler.bind. rewrite (IH w HP Hitems). reflexivity.
Qed.

(** X24.  Scalars inside a JSON array are not rejected: an array whose
    items are [null], booleans or numbers is converted, each item giving
    an empty row for the CSV writer, and the answer is 200 when the first
    segment of the file name gives a valid header value. *)
Theorem scalar_items_become_empty_rows (rt : Runtime) (now : N) (f : File) (o : string)
  (w : world) (items : list value) (csv : string) :
  toLowerCase o = "csv" ->
  endsWith (name f) ".json" = true ->
  valid_header_value (hd "" (split "." (name f))) = true ->
  has_own (prototype w) "hasOwnProperty" = false ->
  json_parse rt (utf8_decode rt (content f)) = Returns (VArr items) ->
  forallb keyless items = true ->
  papa_unparse rt (map (fun _ => []) items) = Returns csv ->
  POST rt now (mkRequest (Some f) (Some o)) w
  = (Ok (mkResponse 200 "text/csv; charset=utf-8"
           (Some (download_name (hd "" (split "." (name f))) now "csv"))
           (Converted (Text csv))),
     mkWorld (prototype w)
       (effects w ++ [ReadBody; Called JsonParse; Called PapaUnparse])).
Proof.
  intros Hout Hjson Hvalid HP Hparse Hitems Hcsv.
  rewrite POST_some, Hvalid. unfold requested_kind. rewrite Hout.
  unfold convert, call, Handler.bind, Handler.ret, Handler.throw, Handler.perform.
  cbn [prototype effects fst snd]. rewrite Hjson.
  cbn -[flattenObject]. rewrite Hparse. cbn [fst snd prototype effects].
  rewrite (for_each_keyless_items (prototype w) items _ HP Hitems).
  cbn [fst snd prototype effects]. rewrite Hcsv.
  cbn. rewrite <- !app_assoc. reflexivity.
Qed.

Lemma scalar_items_become_empty_rows_witness :
  POST
    (mkRuntime string_of_list_byte (fun _ => Raises "") (fun _ => Raises "")
       (fun _ => Raises "")
       (fun rows => Returns (of_N (N.of_nat (List.length rows)) ++ " rows")%string)
       (fun _ => Returns (VArr [VNum 1; VNull; VBool true]))
       (fun _ => "") (fun _ => Raises "") (fun _ => Raises "") (fun _ => ""))
    0 (mkRequest (Some (sample_file "n.json" "[1,null,true]")) (Some "csv")) pristine
  = (Ok (mkResponse 200 "text/csv; charset=utf-8"
           (Some (download_name "n" 0 "csv")) (Converted (Text "3 rows"))),
     mkWorld [] [ReadBody; Called JsonParse; Called PapaUnparse]).
Proof.
  apply (scalar_items_become_empty_rows _ 0 (sample_file "n.json" "[1,null,true]") "csv"
           pristine [VNum 1; VNull; VBool true] "3 rows");
    reflexivity.
Defined.

(** * The page *)

Lemma handleConvert_within_limit to_string f outputType splitMode fetched :
  (size f <=? maxSize)%N = true ->
  handleConvert to_string (Some f) outputType splitMode fetched
  = [SetIsConverting true; Fetch f outputType splitMode]
    ++ match conversion to_string outputType fetched with
       | Some shown => shown ++ [SetIsConverting false]
       | None => []
       end.
Proof.
  intros Hsize. unfold handleConvert. apply N.leb_le in Hsize.
  destruct (maxSize <? size f)%N eqn:E; [apply N.ltb_lt in E; lia|reflexivity].
Qed.

Lemma conversion_one_outcome to_string outputType fetched shown :
  conversion to_string outputType fetched = Some shown ->
  one_outcome outputType shown = true.
Proof.
  unfold conversion. destruct fetched as [res|m|]; [| |discriminate].
  - destruct (negb (res_ok res)).
    { destruct (errorMessage to_string res); [|discriminate].
      intros H. injection H as <-. reflexivity. }
    destruct (startsWith (header_or_empty res) "text/"
              || includes (header_or_empty res) "json").
    + destruct (res_text res); intros H; try discriminate; injection H as <-;
        [|reflexivity].
      cbn [one_outcome]. rewrite !String.eqb_refl. reflexivity.
    + destruct (res_blob res); intros H; try discriminate; injection H as <-;
        [|reflexivity].
      cbn [one_outcome]. rewrite String.eqb_refl. reflexivity.
  - intros H. injection H as <-. reflexivity.
Qed.

Lemma conversion_settled to_string outputType fetched :
  all_settled fetched = true ->
  exists shown, conversion to_string outputType fetched = Some shown.
Proof.
  unfold all_settled, conversion, errorMessage.
  destruct fetched as [res|m|]; [|eexists; reflexivity|discriminate].
  intros H. apply andb_prop in H as [H Hblob]. apply andb_prop in H as [Hjson Htext].
  destruct (negb (res_ok res)).
  - destruct (res_status res =? 413)%nat; [eexists; reflexivity|].
    destruct (includes (header_or_empty res) "json").
    + destruct (res_json res) as [[| | | | |errorData]| |]; try discriminate;
        try (eexists; reflexivity).
      destruct (obj_get errorData "error") as [v|]; [|eexists; reflexivity].
      destruct (truthy v); eexists; reflexivity.
    + destruct (includes (header_or_empty res) "text/html"); [eexists; reflexivity|].
      destruct (res_text res); try discriminate; eexists; reflexivity.
  - destruct (startsWith (header_or_empty res) "text/"
              || includes (header_or_empty res) "json").
    + destruct (res_text res); try discriminate; eexists; reflexivity.
    + destruct (res_blob res); try discriminate; eexists; reflexivity.
Qed.

(** X25.  A conversion shows at most one outcome, and exactly one once
    its promises have settled.  For a file within the size limit the
    handler sets [isConverting] and sends one request.  When [fetch] and
    the reading of the body have settled, fulfilled or rejected, it has
    shown one dialog or started one download named [converted.<kind>],
    and has reset [isConverting].  In every case it has either done so,
    or it is still waiting for a pending promise: then nothing has been
    shown and [isConverting] stays set. *)
Theorem conversion_shows_one_outcome (to_string : value -> string) (f : File)
  (outputType splitMode : string) (fetched : promise FetchResponse) :
  (size f <=? maxSize)%N = true ->
  let completed :=
    exists shown,
      handleConvert to_string (Some f) outputType splitMode fetched
      = [SetIsConverting true; Fetch f outputType splitMode]
        ++ shown ++ [SetIsConverting false]
      /\ one_outcome outputType shown = true in
  (all_settled fetched = true -> completed)
  /\ (completed
      \/ handleConvert to_string (Some f) outputType splitMode fetched
         = [SetIsConverting true; Fetch f outputType splitMode]).
Proof.
  intros Hsize completed. unfold completed.
  rewrite (handleConvert_within_limit _ _ _ _ _ Hsize). split.
  - intros Hsettled.
    destruct (conversion_settled to_string outputType fetched Hsettled) as [shown E].
    exists shown. rewrite E. split; [reflexivity|].
    exact (conversion_one_outcome _ _ _ _ E).
  - destruct (conversion to_string outputType fetched) as [shown|] eqn:E.
    + left. exists shown. split; [reflexivity|].
      exact (conversion_one_outcome _ _ _ _ E).
    + right. reflexivity.
Qed.

Lemma conversion_shows_one_outcome_witness :
  (exists shown,
     handleConvert (fun _ => "") (Some small_file) "md" "whole" (Rejected "Failed to fetch")
     = [SetIsConverting true; Fetch small_file "md" "whole"]
       ++ shown ++ [SetIsConverting false]
     /\ one_outcome "md" shown = true)
  /\ handleConvert (fun _ => "") (Some small_file) "md" "whole" Pending
     = [SetIsConverting true; Fetch small_file "md" "whole"].
Proof.
  split.
  - apply (conversion_shows_one_outcome (fun _ => "") small_file "md" "whole"
             (Rejected "Failed to fetch") eq_refl).
    reflexivity.
  - reflexivity.
Defined.

(** X26.  The button and the handler agree: whenever the Convert button
    is enabled, the handler does send the request; its own tests for a
    missing or oversized file cannot fire. *)
Theorem enabled_button_sends_request (to_string : value -> string)
  (file : option File) (isConverting : bool) (outputType splitMode : string)
  (fetched : promise FetchResponse) :
  convert_disabled file isConverting = false ->
  exists f rest,
    file = Some f
    /\ handleConvert to_string file outputType splitMode fetched
       = SetIsConverting true :: Fetch f outputType splitMode :: rest.
Proof.
  unfold convert_disabled. intros H. destruct file as [f|]; [|discriminate].
  apply orb_false_iff in H as [_ H].
  exists f. eexists. split; [reflexivity|].
  unfold handleConvert. rewrite H. reflexivity.
Qed.

Lemma enabled_button_sends_request_witness :
  exists f rest,
    Some small_file = Some f
    /\ handleConvert (fun _ => "") (Some small_file) "md" "whole" (Rejected "")
       = SetIsConverting true :: Fetch f "md" "whole" :: rest.
Proof.
  apply (enabled_button_sends_request (fun _ => "") (Some small_file) false "md" "whole"
           (Rejected "")).
  reflexivity.
Defined.

(** X30.  The page never sends a file over the limit: every request
    [handleConvert] makes carries the chosen file, with the kind and split
    mode of the page, and that file has at most 10 MB. *)
Theorem page_never_sends_oversized (to_string : value -> string) (file : option File)
  (outputType splitMode : string) (fetched : promise FetchResponse)
  (f : File) (kind mode : string) :
  In (Fetch f kind mode) (handleConvert to_string file outputType splitMode fetched) ->
  file = Some f /\ kind = outputType /\ mode = splitMode
  /\ (size f <=? 10 * 1024 * 1024)%N = true.
Proof.
  assert (Hconv : forall shown,
             conversion to_string outputType fetched = Some shown ->
             ~ In (Fetch f kind mode) shown).
  { unfold conversion. intros shown.
    destruct fetched as [res|m|]; [| |discriminate].
    - destruct (negb (res_ok res)).
      { destruct (errorMessage to_string res); [|discriminate].
        intros H. injection H as <-. simpl. intros [H|[]]. discriminate. }
      destruct (startsWith (header_or_empty res) "text/"
                || includes (header_or_empty res) "json").
      + destruct (res_text res); intros H; try discriminate; injection H as <-;
          simpl; intuition discriminate.
      + destruct (res_blob res); intros H; try discriminate; injection H as <-;
          simpl; intuition discriminate.
    - intros H. injection H as <-. simpl. intros [H|[]]. discriminate. }
  unfold handleConvert. destruct file as [f0|]; [|intros []].
  destruct (maxSize <? size f0)%N eqn:E.
  - simpl. intros [H|[]]. discriminate.
  - intros H. apply in_app_or in H as [H|H].
    + simpl in H. destruct H as [H|[H|[]]]; [discriminate|].
      injection H as -> -> ->. repeat split.
      apply N.leb_le. apply N.ltb_ge in E. exact E.
    + exfalso. destruct (conversion to_string outputType fetched) as [shown|] eqn:Ec;
        [|exact H].
      apply in_app_or in H as [H|H]; [exact (Hconv shown eq_refl H)|].
      simpl in H. destruct H as [H|[]]. discriminate.
Qed.

Lemma page_never_sends_oversized_witness :
  Some small_file = Some small_file /\ "md" = "md" /\ "whole" = "whole"
  /\ (size small_file <=? 10 * 1024 * 1024)%N = true.
Proof.
  apply (page_never_sends_oversized (fun _ => "") (Some small_file) "md" "whole"
           (Rejected "") small_file "md" "whole").
  simpl. right. left. reflexivity.
Defined.

(** ** The page and the route together *)

(** The payload [convert] returns is a text for the kinds md, txt, json
    and csv, and bytes for the image kinds. *)
Lemma convert_payload rt f out buffer w p w' :
  convert rt f out buffer w = (Ok (inr p), w') ->
  match p with
  | Text _ => text_kind out = true
  | Binary _ => image_kind out = true
  end.
Proof.
  unfold convert. intros H.
  destruct ((out =? "md")%string && endsWith (name f) ".docx") eqn:C1.
  { apply andb_prop in C1 as [E _]. apply String.eqb_eq in E. subst out.
    unfold call, Handler.bind, Handler.ret, Handler.throw, Handler.perform in H.
    destruct (mammoth_extractRawText rt buffer); try discriminate.
    injection H as <- _. reflexivity. }
  destruct ((out =? "txt")%string && endsWith (name f) ".pdf") eqn:C2.
  { apply andb_prop in C2 as [E _]. apply String.eqb_eq in E. subst out.
    unfold Handler.bind, Handler.ret in H.
    destruct (extractPdfText_returns rt buffer w) as [s [Es _]].
    rewrite Es in H. injection H as <- _. reflexivity. }
  destruct ((out =? "json")%string && endsWith (name f) ".csv") eqn:C3.
  { apply andb_prop in C3 as [E _]. apply String.eqb_eq in E. subst out.
    unfold call, Handler.bind, Handler.ret, Handler.throw, Handler.perform in H.
    destruct (papa_parse rt (utf8_decode rt buffer)) as [parsed|m]; [|discriminate].
    cbn [fst snd prototype effects] in H.
    match type of H with
    | context [Handler.for_each ?g ?rows ?w0] =>
        destruct (Handler.for_each g rows w0) as [[l| |] w'']
    end; try discriminate.
    injection H as <- _. reflexivity. }
  destruct ((out =? "csv")%string && endsWith (name f) ".json") eqn:C4.
  { apply andb_prop in C4 as [E _]. apply String.eqb_eq in E. subst out.
    unfold call, Handler.bind, Handler.ret, Handler.throw, Handler.perform,
      Handler.get_prototype, Handler.lift in H.
    destruct (json_parse rt (utf8_decode rt buffer)) as [jsonData|m]; [|discriminate].
    cbn [fst snd prototype effects] in H.
    destruct jsonData as [| | | |items|o]; try discriminate.
    - match type of H with
      | context [Handler.for_each ?g ?rows ?w0] =>
          destruct (Handler.for_each g rows w0) as [[l| |] w'']
      end; try discriminate.
      cbn [fst snd prototype effects] in H.
      destruct (papa_unparse rt l); try discriminate.
      injection H as <- _. reflexivity.
    - destruct (flattenObject _ (VObj o) ""); try discriminate.
      cbn [fst snd prototype effects] in H.
      destruct (papa_unparse rt _); try discriminate.
      injection H as <- _. reflexivity. }
  destruct (((out =? "png") || (out =? "jpg") || (out =? "jpeg"))%string
            && (startsWith (type f) "image/" || matches_image_extension (name f))) eqn:C5.
  { apply andb_prop in C5 as [E _].
    assert (Hk : image_kind out = true) by exact E. clear E.
    unfold call, Handler.bind, Handler.ret, Handler.throw, Handler.perform in H.
    destruct (out =? "png")%string.
    - destruct (sharp_png rt buffer); try discriminate.
      injection H as <- _. exact Hk.
    - destruct (sharp_jpeg rt buffer); try discriminate.
      injection H as <- _. exact Hk. }
  destruct ((out =? "md")%string && endsWith (name f) ".txt") eqn:C6.
  { apply andb_prop in C6 as [E _]. apply String.eqb_eq in E. subst out.
    unfold Handler.ret in H. injection H as <- _. reflexivity. }
  unfold Handler.ret in H. discriminate.
Qed.

(** The two shapes of an answer, with the kind of payload of the second. *)
Lemma POST_answer rt now f o w r w' :
  POST rt now (mkRequest (Some f) o) w = (Ok r, w') ->
  error_answer r = true
  \/ (status r = 200
      /\ obj_get mimeTypes (requested_kind o) = Some (VStr (contentType r))
      /\ exists p,
           responseBody r = Converted p
           /\ match p with
              | Text _ => text_kind (requested_kind o) = true
              | Binary _ => image_kind (requested_kind o) = true
              end).
Proof.
  rewrite POST_some. intros H.
  match type of H with
  | context [if ?c then _ else _] => destruct c
  end; [injection H as <- _; left; reflexivity|].
  destruct (convert rt f _ _ _) as [[[early|converted]|e|] w''] eqn:Hc;
    cbn [fst snd] in H.
  - injection H as <- _. left. exact (convert_early _ _ _ _ _ _ _ Hc).
  - destruct (obj_get mimeTypes (requested_kind o)) as [[| | |mime| |]|] eqn:Hm;
      try discriminate.
    destruct (valid_header_value (hd "" (split "." (name f))));
      injection H as <- _; [|left; reflexivity].
    right. split; [reflexivity|]. split; [reflexivity|].
    exists converted. split; [reflexivity|].
    exact (convert_payload _ _ _ _ _ _ _ Hc).
  - injection H as <- _. left. reflexivity.
  - discriminate.
Qed.

(** X27.  The error text of the route reaches the user: when the route
    answers 400 or 500 and the page receives that answer, the dialog
    shows "Conversion failed: " followed by the route's error text, and
    nothing is downloaded. *)
Theorem route_error_is_shown (to_string : value -> string) (rt : Runtime) (now : N)
  (f : File) (o splitMode : string) (w w' : world) (r : Response)
  (res : FetchResponse) :
  POST rt now (mkRequest (Some f) (Some o)) w = (Ok r, w') ->
  (status r =? 200)%nat = false ->
  delivers r res ->
  (size f <=? maxSize)%N = true ->
  exists m,
    responseBody r = ErrorJson m
    /\ handleConvert to_string (Some f) o splitMode (Fulfilled res)
       = [ SetIsConverting true; Fetch f o splitMode;
           Alert ("Conversion failed: " ++ m)%string; SetIsConverting false ].
Proof.
  intros HPOST Hstatus [Hs [Hct Hbody]] Hsize.
  destruct (POST_answer _ _ _ _ _ _ _ HPOST) as [Herr|[H200 _]];
    [|rewrite H200 in Hstatus; discriminate].
  unfold error_answer in Herr.
  apply andb_prop in Herr as [Herr Hm]. apply andb_prop in Herr as [Herr _].
  apply andb_prop in Herr as [Hcode Hjson]. apply String.eqb_eq in Hjson.
  destruct (responseBody r) as [m|p] eqn:Hr; [|discriminate].
  exists m. split; [reflexivity|].
  unfold handleConvert. apply N.leb_le in Hsize.
  destruct (maxSize <? size f)%N eqn:E; [apply N.ltb_lt in E; lia|].
  unfold conversion, res_ok, errorMessage, header_or_empty.
  rewrite Hs, Hct, Hjson, Hbody.
  change (includes "application/json" "json") with true. cbn [obj_get].
  change ("error" =? "error")%string with true. cbn [truthy]. rewrite Hm.
  apply orb_prop in Hcode as [Hc|Hc]; apply Nat.eqb_eq in Hc; rewrite Hc; reflexivity.
Qed.

Lemma route_error_is_shown_witness :
  exists m,
    responseBody (json_error 400 "JSON must be an object or array of objects")
    = ErrorJson m
    /\ handleConvert (fun _ => "") (Some (sample_file "n.json" "null")) "csv" "whole"
         (Fulfilled
            (mkFetchResponse 400 "Bad Request" (Some "application/json")
               (Fulfilled (VObj [("error", VStr "JSON must be an object or array of objects")]))
               Pending Pending))
       = [ SetIsConverting true; Fetch (sample_file "n.json" "null") "csv" "whole";
           Alert ("Conversion failed: " ++ m)%string; SetIsConverting false ].
Proof.
  apply (route_error_is_shown (fun _ => "") sample_runtime 0
           (sample_file "n.json" "null") "csv" "whole" pristine
           (mkWorld [] [ReadBody; Called JsonParse])
           (json_error 400 "JSON must be an object or array of objects")).
  - reflexivity.
  - reflexivity.
  - exact (conj eq_refl (conj eq_refl eq_refl)).
  - reflexivity.
Defined.

Lemma text_kind_mime out mime :
  text_kind out = true -> obj_get mimeTypes out = Some (VStr mime) ->
  startsWith mime "text/" || includes mime "json" = true.
Proof.
  unfold text_kind. intros Hk Hm.
  repeat (apply orb_prop in Hk as [Hk|Hk]);
    apply String.eqb_eq in Hk; subst out;
    injection Hm as <-; reflexivity.
Qed.

Lemma image_kind_mime out mime :
  image_kind out = true -> obj_get mimeTypes out = Some (VStr mime) ->
  startsWith mime "text/" || includes mime "json" = false.
Proof.
  unfold image_kind. intros Hk Hm.
  repeat (apply orb_prop in Hk as [Hk|Hk]);
    apply String.eqb_eq in Hk; subst out;
    injection Hm as <-; reflexivity.
Qed.

(** X28.  A converted payload reaches the user as a download named
    [converted.<kind>]: when the route answers 200 and the page receives
    that answer, a text payload is shown in the preview and downloaded,
    and an image payload is downloaded with the preview cleared.  The
    file name the route suggests is not used. *)
Theorem route_success_is_downloaded (to_string : value -> string) (rt : Runtime)
  (now : N) (f : File) (o splitMode : string) (w w' : world) (r : Response)
  (res : FetchResponse) :
  POST rt now (mkRequest (Some f) (Some o)) w = (Ok r, w') ->
  (status r =? 200)%nat = true ->
  delivers r res ->
  (size f <=? maxSize)%N = true ->
  match responseBody r with
  | Converted (Text s) =>
      handleConvert to_string (Some f) o splitMode (Fulfilled res)
      = [ SetIsConverting true; Fetch f o splitMode;
          SetConvertedText (Some s); Download (Text s) ("converted." ++ o)%string;
          SetIsConverting false ]
  | Converted (Binary b) =>
      handleConvert to_string (Some f) o splitMode (Fulfilled res)
      = [ SetIsConverting true; Fetch f o splitMode;
          Download (Binary b) ("converted." ++ o)%string; SetConvertedText None;
          SetIsConverting false ]
  | ErrorJson _ => False
  end.
Proof.
  intros HPOST Hstatus [Hs [Hct Hbody]] Hsize. apply Nat.eqb_eq in Hstatus.
  destruct (POST_answer _ _ _ _ _ _ _ HPOST) as [Herr|[_ [Hmime [p [Hp Hkind]]]]].
  { unfold error_answer in Herr. rewrite Hstatus in Herr. discriminate. }
  rewrite Hp in Hbody |- *.
  assert (Hfetch : forall shown,
             conversion to_string o (Fulfilled res) = Some shown ->
             handleConvert to_string (Some f) o splitMode (Fulfilled res)
             = [SetIsConverting true; Fetch f o splitMode] ++ shown ++ [SetIsConverting false]).
  { intros shown E. rewrite (handleConvert_within_limit _ _ _ _ _ Hsize), E.
    reflexivity. }
  destruct p as [s|b].
  - rewrite (Hfetch [SetConvertedText (Some s); Download (Text s) ("converted." ++ o)%string]);
      [reflexivity|].
    unfold conversion, res_ok, header_or_empty. rewrite Hs, Hct, Hstatus. cbn [negb Nat.leb andb].
    rewrite (text_kind_mime _ _ Hkind Hmime), Hbody. reflexivity.
  - rewrite (Hfetch [Download (Binary b) ("converted." ++ o)%string; SetConvertedText None]);
      [reflexivity|].
    unfold conversion, res_ok, header_or_empty. rewrite Hs, Hct, Hstatus. cbn [negb Nat.leb andb].
    rewrite (image_kind_mime _ _ Hkind Hmime), Hbody. reflexivity.
Qed.

Lemma route_success_is_downloaded_witness :
  handleConvert (fun _ => "") (Some small_file) "md" "whole"
    (Fulfilled
       (mkFetchResponse 200 "OK" (Some "text/markdown; charset=utf-8") Pending
          (Fulfilled (join nl (txt_markdown "notes.txt" "Title"))) Pending))
  = [ SetIsConverting true; Fetch small_file "md" "whole";
      SetConvertedText (Some (join nl (txt_markdown "notes.txt" "Title")));
      Download (Text (join nl (txt_markdown "notes.txt" "Title"))) "converted.md";
      SetIsConverting false ].
Proof.
  apply (route_success_is_downloaded (fun _ => "") sample_runtime 0 small_file "md" "whole"
           pristine (mkWorld [] [ReadBody])
           (mkResponse 200 "text/markdown; charset=utf-8"
              (Some (download_name "notes" 0 "md"))
              (Converted (Text (join nl (txt_markdown "notes.txt" "Title")))))).
  - reflexivity.
  - reflexivity.
  - exact (conj eq_refl (conj eq_refl eq_refl)).
  - reflexivity.
Defined.
